(** * irc-rss-feed-bot: the feed-to-channel pipeline, embedded and verified

    A shallow embedding of the parts of [ircrssfeedbot] that carry the
    feed-to-channel contract:

    - [util/hashlib.py]     : [Int8Hash.as_int], [as_list], [as_dict];
    - [feed.py]             : [Feed.__post_init__], [Feed._dedupe_entries],
                              [Feed._read_entries], [Feed._process_entries],
                              [Feed.unposted_entries], [Feed.postable_entries];
    - [bot.py]              : [Bot._setup_channels] (events, queues, barrier
                              parties), [Bot._msg_channel] (its start and
                              one dequeued feed), [_alert], [_handle_join],
                              [_handle_privmsg];
    - [searchers/_base.py]  : [BaseSearcher.fix_query].

    Python [str] values are lists of Unicode code points, [bytes] values are
    lists of [Byte.byte], dictionaries are [gmap]s, the store is a [gset] of
    rows, and the effectful code runs in a small monad of state, exceptions
    and divergence over an explicit [State]. One worker is run at a time:
    what other threads do enters through the state a worker starts from.
    Where the pace of the posts is at stake the workers take turns:
    [Frames.run] takes iterations of the messengers, calls of the handlers
    and pauses one after another, and the IRC client keeps the clock value
    of every message it is handed.

    Left out, for want of a faithful embedding: [Bot._read_feed] (threads,
    random periods in floating point), [Bot.__init__], the searchers'
    [search] and [_search] (pandas, HTTP), and [util/urllib.py] (the
    standard library's URL parser).

    The embedding comes first (up to [Searcher]), then the vocabulary of the
    statements and a sample deployment, then the theorems, module by
    module of the source. *)

From Stdlib Require Import ZArith NArith List Lia Bool.
From Stdlib Require Import Init.Byte Strings.Ascii Strings.String.
From stdpp Require Import gmap list.

Local Open Scope Z_scope.

(* ===================================================================== *)
(** * Python strings *)
(* ===================================================================== *)

Module PyStr.

(** A Python [str] is a sequence of code points; [len] counts code points. *)
Definition str := list N.

(** ASCII literals, to write test data legibly. *)
Fixpoint of_string (s : String.string) : str :=
  match s with
  | String.EmptyString => []
  | String.String a s' => N_of_ascii a :: of_string s'
  end.

(** [str.isspace] on one code point (CPython's [_PyUnicode_IsWhitespace]). *)
Definition is_space (c : N) : bool :=
  ((9 <=? c) && (c <=? 13) || (28 <=? c) && (c <=? 32)
   || (c =? 133) || (c =? 160) || (c =? 5760)
   || (8192 <=? c) && (c <=? 8202)
   || (c =? 8232) || (c =? 8233) || (c =? 8239) || (c =? 8287)
   || (c =? 12288))%N.

(** Drop the longest suffix on which [p] holds. *)
Fixpoint rstrip_by (p : N -> bool) (s : str) : str :=
  match s with
  | [] => []
  | c :: s' =>
      match rstrip_by p s' with
      | [] => if p c then [] else [c]
      | t => c :: t
      end
  end.

(** [s.rstrip()] *)
Definition rstrip (s : str) : str := rstrip_by is_space s.

(** [s.rstrip(chars)] *)
Definition rstrip_chars (chars : str) (s : str) : str :=
  rstrip_by (fun c => bool_decide (c ∈ chars)) s.

(** [s.startswith(p)] *)
Fixpoint startswith (p s : str) : bool :=
  match p, s with
  | [], _ => true
  | _ :: _, [] => false
  | a :: p', b :: s' => (a =? b)%N && startswith p' s'
  end.

(** [s.find(sub)]: index of the leftmost occurrence, [None] for Python's -1. *)
Fixpoint find (sub s : str) : option nat :=
  if startswith sub s then Some 0%nat
  else
    match s with
    | [] => None
    | _ :: s' => S <$> find sub s'
    end.

(** [s.split(sep, maxsplit=1)] for a non-empty [sep]: cut once, at the
    leftmost occurrence of [sep]; without one the string comes back alone. *)
Definition split1 (sep s : str) : list str :=
  match find sep s with
  | Some i => [take i s; drop (i + length sep) s]
  | None => [s]
  end.

(** [c in s] for a single character [c]. *)
Definition contains_char (c : N) (s : str) : bool := bool_decide (c ∈ s).

(** [sub in s] as a proposition: [s] has [sub] as a contiguous substring. *)
Definition substring (sub s : str) : Prop :=
  exists pre post, s = pre ++ sub ++ post.

(** ** UTF-8, the codec of [str.encode()] *)

Definition byte_of_N (n : N) : byte :=
  match Byte.of_N (n mod 256) with
  | Some b => b
  | None => Byte.x00
  end.

(** A code point that [str.encode()] accepts: a Unicode scalar value. Lone
    surrogates (U+D800..U+DFFF) raise [UnicodeEncodeError]. *)
Definition encodable (c : N) : bool :=
  ((c <? 55296) || (57343 <? c) && (c <? 1114112))%N.

Definition utf8_char (c : N) : list byte :=
  (if c <? 128 then [byte_of_N c]
   else if c <? 2048 then
     [byte_of_N (192 + c / 64); byte_of_N (128 + c mod 64)]
   else if c <? 65536 then
     [byte_of_N (224 + c / 4096); byte_of_N (128 + (c / 64) mod 64);
      byte_of_N (128 + c mod 64)]
   else
     [byte_of_N (240 + c / 262144); byte_of_N (128 + (c / 4096) mod 64);
      byte_of_N (128 + (c / 64) mod 64); byte_of_N (128 + c mod 64)])%N.

(** [s.encode()]: [None] stands for [UnicodeEncodeError]. *)
Fixpoint encode (s : str) : option (list byte) :=
  match s with
  | [] => Some []
  | c :: s' =>
      if encodable c then
        match encode s' with
        | Some bs => Some (utf8_char c ++ bs)
        | None => None
        end
      else None
  end.

(** ** Case folding *)

(** [str.casefold()] on ASCII text, where it is the lowering of [A-Z].
    Code points outside ASCII are left alone here; every use below that
    evaluates [casefold_ascii] does so on ASCII channel names and nicks. *)
Definition casefold_char (c : N) : N :=
  (if (65 <=? c) && (c <=? 90) then c + 32 else c)%N.

Definition casefold_ascii (s : str) : str := map casefold_char s.

End PyStr.

(* ===================================================================== *)
(** * Exceptions and outcomes *)
(* ===================================================================== *)

Module Py.

(** The exceptions the embedded code can raise. [TransportError] stands for
    whatever the IRC client raises when a line cannot be sent, and
    [ShortenerError] for a failure of the URL shortener. *)
Inductive exn : Type :=
| UnicodeEncodeError
| AssertionError
| KeyError (key : PyStr.str)
| IndexError
| ValueError
| RuntimeError
| TransportError
| ShortenerError
| FetchError.

(** What running a piece of code ends in: a value, an exception, or no end
    at all ([Diverge]: a loop that ran out of fuel, a lock never released). *)
Inductive outcome (A : Type) : Type :=
| Ok (a : A)
| Raise (e : exn)
| Diverge.

Arguments Ok {A} a.
Arguments Raise {A} e.
Arguments Diverge {A}.

(** [l[:stop]] *)
Definition slice_to {A} (stop : option Z) (l : list A) : list A :=
  match stop with
  | None => l
  | Some n =>
      if n <? 0 then take (Z.to_nat (Z.max 0 (Z.of_nat (length l) + n))) l
      else take (Z.to_nat n) l
  end.

(** Truthiness of a list or string: [bool(l)]. *)
Definition truthy {A} (l : list A) : bool :=
  match l with [] => false | _ :: _ => true end.

End Py.

(* ===================================================================== *)
(** * util/hashlib.py *)
(* ===================================================================== *)

(** [hashlib.shake_128] is the standard library's; it is spelled out here
    (FIPS 202: Keccak-f[1600] on 64-bit lanes, rate 168 bytes, domain suffix
    0x1F) so that [Int8Hash.as_int] computes. *)
Module Keccak.

Local Open Scope N_scope.

Definition lane_mask : N := 2 ^ 64 - 1.

Definition rotl64 (x : N) (k : N) : N :=
  N.land (N.lor (N.shiftl x k) (N.shiftr x (64 - k))) lane_mask.

Definition not64 (x : N) : N := N.lxor x lane_mask.

(** The state is 25 lanes, lane (x, y) at index [x + 5 * y]. *)
Definition lane (st : list N) (x y : nat) : N :=
  nth ((x mod 5) + 5 * (y mod 5))%nat st 0.

Definition RC : list N :=
  [ 0x0000000000000001; 0x0000000000008082; 0x800000000000808A;
    0x8000000080008000; 0x000000000000808B; 0x0000000080000001;
    0x8000000080008081; 0x8000000000008009; 0x000000000000008A;
    0x0000000000000088; 0x0000000080008009; 0x000000008000000A;
    0x000000008000808B; 0x800000000000008B; 0x8000000000008089;
    0x8000000000008003; 0x8000000000008002; 0x8000000000000080;
    0x000000000000800A; 0x800000008000000A; 0x8000000080008081;
    0x8000000000008080; 0x0000000080000001; 0x8000000080008008 ].

(** Rotation offsets, indexed like the state. *)
Definition RHO : list N :=
  [ 0; 1; 62; 28; 27;
    36; 44; 6; 55; 20;
    3; 10; 43; 25; 39;
    41; 45; 15; 21; 8;
    18; 2; 61; 56; 14 ].

Definition coords : list (nat * nat) :=
  flat_map (fun y => map (fun x => (x, y)) (seq 0 5)) (seq 0 5).

Definition theta (st : list N) : list N :=
  let C x := fold_left N.lxor (map (fun y => lane st x y) (seq 0 5)) 0 in
  let D x := N.lxor (C (x + 4)%nat) (rotl64 (C (x + 1)%nat) 1) in
  map (fun '(x, y) => N.lxor (lane st x y) (D x)) coords.

(** rho and pi together: B[y, 2x+3y] = rot(A[x, y], r[x, y]); read backwards,
    B[X, Y] comes from A[x, y] with x = X + 3Y and y = X. *)
Definition rho_pi (st : list N) : list N :=
  map (fun '(X, Y) =>
         let x := ((X + 3 * Y) mod 5)%nat in
         let y := X in
         rotl64 (lane st x y) (nth (x + 5 * y)%nat RHO 0)) coords.

Definition chi (st : list N) : list N :=
  map (fun '(x, y) =>
         N.lxor (lane st x y)
                (N.land (not64 (lane st (x + 1) y)) (lane st (x + 2) y)))
      coords.

Definition iota (rc : N) (st : list N) : list N :=
  match st with
  | [] => []
  | a :: st' => N.lxor a rc :: st'
  end.

Definition round (st : list N) (rc : N) : list N :=
  iota rc (chi (rho_pi (theta st))).

Definition keccak_f (st : list N) : list N := fold_left round RC st.

(** Little-endian bytes of a lane and back. *)
Definition lane_of_bytes (bs : list byte) : N :=
  fold_right (fun b acc => Byte.to_N b + 256 * acc) 0 bs.

Fixpoint bytes_of_lane (n : nat) (x : N) : list byte :=
  match n with
  | O => []
  | S n' => PyStr.byte_of_N x :: bytes_of_lane n' (x / 256)
  end.

Fixpoint chunks {A} (k : nat) (fuel : nat) (l : list A) : list (list A) :=
  match fuel, l with
  | O, _ | _, [] => []
  | S fuel', _ => take k l :: chunks k fuel' (drop k l)
  end.

Definition rate : nat := 168.

(** pad10*1 with the SHAKE suffix: 0x1F, zeros, and 0x80 or-ed into the last
    byte of the block. *)
Definition pad (msg : list byte) : list byte :=
  let q := (rate - length msg mod rate)%nat in
  if (q =? 1)%nat then msg ++ [Byte.x9f]
  else msg ++ [Byte.x1f] ++ repeat Byte.x00 (q - 2) ++ [Byte.x80].

Definition absorb_block (st : list N) (block : list byte) : list N :=
  let lanes := map lane_of_bytes (chunks 8 25 block) in
  keccak_f (map (fun '(i, a) => N.lxor a (nth i lanes 0)) (combine (seq 0 25) st)).

Definition squeeze_block (st : list N) : list byte :=
  take rate (flat_map (bytes_of_lane 8) st).

Fixpoint squeeze (blocks : nat) (st : list N) : list byte :=
  match blocks with
  | O => []
  | S b => squeeze_block st ++ squeeze b (keccak_f st)
  end.

(** [hashlib.shake_128(msg).digest(n)] *)
Definition shake_128 (msg : list byte) (n : nat) : list byte :=
  let padded := pad msg in
  let st := fold_left absorb_block
              (chunks rate (length padded) padded) (repeat 0 25) in
  take n (squeeze (S (n / rate)) st).

End Keccak.

Module Int8Hash.

Import Py.

Definition BYTES : nat := 8.
Definition BITS : Z := Z.of_nat BYTES * 8.
Definition BITS_MINUS1 : Z := BITS - 1.
Definition MIN : Z := - (2 ^ BITS_MINUS1).
Definition MAX : Z := 2 ^ BITS_MINUS1 - 1.

(** [int.from_bytes(bs, byteorder='big', signed=False)] *)
Definition from_bytes_big (bs : list byte) : Z :=
  fold_left (fun acc b => acc * 256 + Z.of_N (Byte.to_N b)) bs 0.

(** [int.from_bytes(bs, byteorder='big', signed=True)]: two's complement on
    [8 * len(bs)] bits. *)
Definition from_bytes_big_signed (bs : list byte) : Z :=
  let width := 8 * Z.of_nat (length bs) in
  let u := from_bytes_big bs in
  if Z.testbit u (width - 1) then u - 2 ^ width else u.

(** [Int8Hash.as_int]. The [lru_cache] in front of it only memoises. *)
Definition as_int (text : PyStr.str) : outcome Z :=
  match PyStr.encode text with
  | None => Raise UnicodeEncodeError
  | Some seed =>
      let hash_digest := Keccak.shake_128 seed BYTES in
      let hash_int := from_bytes_big_signed hash_digest in
      if (MIN <=? hash_int) && (hash_int <=? MAX) then Ok hash_int
      else Raise AssertionError
  end.

(** [Int8Hash.as_list] *)
Fixpoint as_list (texts : list PyStr.str) : outcome (list Z) :=
  match texts with
  | [] => Ok []
  | text :: rest =>
      match as_int text with
      | Ok h =>
          match as_list rest with
          | Ok hs => Ok (h :: hs)
          | Raise e => Raise e
          | Diverge => Diverge
          end
      | Raise e => Raise e
      | Diverge => Diverge
      end
  end.

(** [Int8Hash.as_dict]: [{cls.as_int(text): text for text in texts}]. The
    comprehension runs through [texts] in order, and a text takes the place
    of an earlier one stored under the same hash. *)
Definition as_dict (texts : list PyStr.str) : outcome (gmap Z PyStr.str) :=
  fold_left
    (fun acc text =>
       match acc with
       | Ok d =>
           match as_int text with
           | Ok h => Ok (<[h := text]> d)
           | Raise e => Raise e
           | Diverge => Diverge
           end
       | Raise e => Raise e
       | Diverge => Diverge
       end)
    texts (Ok ∅).

End Int8Hash.

(* ===================================================================== *)
(** * The deduplication store *)
(* ===================================================================== *)

Module Database.

Import PyStr.

(** Modelled from the spec: [db.py] is not among the sources. Section 4.1
    describes the store as a set of [(channel, feed, long_url)] rows with the
    four operations below; [insert_posted] is idempotent because the rows
    form a set. *)
Definition Row : Type := str * str * str.

Definition row_channel (r : Row) : str := r.1.1.
Definition row_feed (r : Row) : str := r.1.2.
Definition row_url (r : Row) : str := r.2.

(** Modelled from the spec: true iff no row exists for [(channel, feed)]. *)
Definition is_new_feed (db : gset Row) (channel feed : str) : bool :=
  bool_decide
    (set_Forall (fun r => ~ (row_channel r = channel /\ row_feed r = feed)) db).

(** Modelled from the spec: the subset of [urls] for which
    [(channel, feed, url)] is absent. *)
Definition select_unposted_for_channel_feed
    (db : gset Row) (channel feed : str) (urls : list str) : list str :=
  filter (fun u => (channel, feed, u) ∉ db) urls.

(** Modelled from the spec: the subset of [urls] for which no row exists
    with the given channel and any feed. *)
Definition select_unposted_for_channel
    (db : gset Row) (channel feed : str) (urls : list str) : list str :=
  filter
    (fun u => set_Forall (fun r => ~ (row_channel r = channel /\ row_url r = u)) db)
    urls.

(** Modelled from the spec: records all triples. *)
Definition insert_posted
    (db : gset Row) (channel feed : str) (urls : list str) : gset Row :=
  db ∪ list_to_set (map (fun u => (channel, feed, u)) urls).

End Database.

(* ===================================================================== *)
(** * Entries and configuration *)
(* ===================================================================== *)

Module FeedEntry.

Import PyStr.

(** The attributes of [entry.FeedEntry] that [feed.py] and [bot.py] touch.
    Entry objects are held by value: a parser builds one object per parsed
    item and [_dedupe_entries] keeps one object per [long_url], so no object
    sits at two positions of a list that is mutated through. *)
Record t : Type := mk {
  title : str;
  long_url : str;
  summary : str;
  categories : list str;
  short_url : option str;
  matching_title_search_pattern : option str;
}.

Definition set_title (v : str) (e : t) : t :=
  mk v (long_url e) (summary e) (categories e) (short_url e)
     (matching_title_search_pattern e).
Definition set_long_url (v : str) (e : t) : t :=
  mk (title e) v (summary e) (categories e) (short_url e)
     (matching_title_search_pattern e).
Definition set_summary (v : str) (e : t) : t :=
  mk (title e) (long_url e) v (categories e) (short_url e)
     (matching_title_search_pattern e).
Definition set_short_url (v : option str) (e : t) : t :=
  mk (title e) (long_url e) (summary e) (categories e) v
     (matching_title_search_pattern e).
Definition set_matching_title_search_pattern (v : option str) (e : t) : t :=
  mk (title e) (long_url e) (summary e) (categories e) (short_url e) v.

(** Modelled from the spec: [entry.py] is not among the sources. Section 4.4
    posts [short_url] if shortening is enabled, else [long_url]; [short_url]
    is populated only when shortening is enabled. *)
Definition post_url (e : t) : str :=
  match short_url e with
  | Some u => u
  | None => long_url e
  end.

End FeedEntry.

Module Config.

Import PyStr.

Record Alerts : Type := mkAlerts {
  alerts_empty : option bool;
}.

Record Sub : Type := mkSub {
  sub_pattern : str;
  sub_repl : str;
}.

Record SubConfig : Type := mkSubConfig {
  sub_title : option Sub;
  sub_url : option Sub;
}.

Record FormatConfig : Type := mkFormatConfig {
  format_re : list (str * str);
  format_str_title : option str;
  format_str_url : option str;
}.

(** A feed's configuration dictionary; [None] is an absent key. Periods
    (hours) and times (seconds) are taken as integers: the code only
    compares, adds and subtracts them. [blacklist] and [whitelist] hold the
    truth value of the configured mapping, which is all [_process_entries]
    reads of it. *)
Record FeedConfig : Type := mkFeedConfig {
  url : option (list str);
  period : option Z;
  new : option str;
  shorten : option bool;
  dedup : option str;
  https : option bool;
  alerts : option Alerts;
  blacklist : option bool;
  whitelist : option bool;
  sub : option SubConfig;
  format : option FormatConfig;
  group : option str;
}.

Definition no_config : FeedConfig :=
  mkFeedConfig None None None None None None None None None None None None.

(** [{**defaults, **overrides}]: a present key of [overrides] wins. *)
Definition merge (defaults overrides : FeedConfig) : FeedConfig :=
  let pick {A} (f : FeedConfig -> option A) : option A :=
    match f overrides with
    | Some v => Some v
    | None => f defaults
    end in
  mkFeedConfig (pick url) (pick period) (pick new) (pick shorten) (pick dedup)
               (pick https) (pick alerts) (pick blacklist) (pick whitelist)
               (pick sub) (pick format) (pick group).

(** [config.INSTANCE]. [channels_casefold] and [nick_casefold] are the keys
    ["channels:casefold"] and ["nick:casefold"], filled in by the
    configuration loader. *)
Record Instance : Type := mkInstance {
  nick : str;
  alerts_channel : str;
  feeds : gmap str (gmap str FeedConfig);
  defaults : FeedConfig;
  channels_casefold : list str;
  nick_casefold : str;
  once : bool;
}.

(** The constants of the [config] module, which is not among the sources;
    they are parameters of everything below. *)
Record t : Type := mk {
  INSTANCE : Instance;
  SECONDS_PER_MESSAGE : Z;
  MIN_CHANNEL_IDLE_TIME : Z;
  MIN_CHANNEL_IDLE_TIME_DEFAULT : Z;
  PERIOD_HOURS_MIN : Z;
  PERIOD_HOURS_DEFAULT : Z;
  SECONDS_BETWEEN_FEED_URLS : Z;
  TITLE_MAX_BYTES : Z;
  DEDUP_STRATEGY_DEFAULT : str;
  NEW_FEED_POSTS_MAX : gmap str (option Z);
}.

End Config.

(** Library and helper functions that the sources call but do not define
    (regular expressions, templates, HTML, Unicode tables). They are
    parameters: the theorems hold for every choice of them, and the sample
    deployment picks one. [format_title] and [format_url] stand for the
    template step of the format stage, [None] being a template error, which
    the source logs and skips. *)
Module Lib.

Import PyStr.

Record t : Type := mk {
  casefold : str -> str;
  re_sub : str -> str -> str -> str;
  html_to_text : str -> str;
  isupper : str -> bool;
  capitalize : str -> str;
  shorten_to_bytes_width : str -> Z -> str;
  blacklisted_pattern : str -> str -> FeedEntry.t -> option str;
  whitelisted_pattern : str -> str -> FeedEntry.t -> option (str * str);
  format_title : Config.FormatConfig -> FeedEntry.t -> option str;
  format_url : Config.FormatConfig -> FeedEntry.t -> option str;
}.

End Lib.

(** The attributes of a [feed.Feed] object. The two [cachedproperty] slots
    are [None] until the property is first read. *)
Module FeedObject.

Import PyStr.

Record t : Type := mk {
  channel : str;
  name : str;
  config : Config.FeedConfig;
  urls : list str;
  min_channel_idle_time : Z;
  entries : list FeedEntry.t;
  num_urls_read : nat;
  unposted_entries_cache : option (list FeedEntry.t);
  postable_entries_cache : option (list FeedEntry.t);
}.

Definition set_unposted_entries_cache (v : option (list FeedEntry.t)) (f : t) : t :=
  mk (channel f) (name f) (config f) (urls f) (min_channel_idle_time f)
     (entries f) (num_urls_read f) v (postable_entries_cache f).

Definition set_postable_entries_cache (v : option (list FeedEntry.t)) (f : t) : t :=
  mk (channel f) (name f) (config f) (urls f) (min_channel_idle_time f)
     (entries f) (num_urls_read f) (unposted_entries_cache f) v.

End FeedObject.

(* ===================================================================== *)
(** * The machine: state, environment and the monad of effects *)
(* ===================================================================== *)

Module Machine.

Import PyStr Py.

(** Messages are kept structured; rendering them to text (the f-strings and
    [MESSAGE_FORMAT]) is not modelled. *)
Inductive Msg : Type :=
| Post (feed title url : str)
| ErrorProcessing (channel feed : str) (exc : exn)
| Parsed (url : str) (num_entries num_follow : nat) (advice : bool)
| IgnoredPrivmsg (user ident hostname msg : str).

Inductive Level : Type := DEBUG | WARNING | EXCEPTION.

(** What stays fixed while a worker runs: configuration, library functions,
    and the behaviour of the outside world.
    - [irc_ok n]: the [n]-th call of [irc.msg] (counted from 0) goes through;
      otherwise it raises.
    - [reconnect_at]: [irc.connected] reads true from this clock value on.
    - [shorten_urls]: the URL shortener.
    - [read_url]: [URLReader.url_content] followed by the selected parser,
      giving the entries and the follow-URLs of one URL. *)
Record Env : Type := mkEnv {
  config : Config.t;
  lib : Lib.t;
  irc_ok : nat -> bool;
  reconnect_at : Z;
  shorten_urls : list str -> outcome (list str);
  read_url : str -> outcome (list FeedEntry.t * list str);
}.

(** What a worker can read and write: the store, the [Bot] class
    attributes, the lock, the clock, the IRC client, the logs, and the
    [Feed] object the worker holds. [db_inserts] lists the calls of
    [insert_posted], oldest first, and [irc_sent_at] the clock value at
    which each message of [irc_sent] was handed to the client. [log] keeps
    the parse reports of [_read_entries] and what [_alert] logs; the other
    log lines of the source (its [debug] and [info] lines, the warning of a
    disconnected client and the warnings of the format stage) are not
    modelled. Time passes in [time.sleep] only. *)
Record State : Type := mkState {
  db : gset Database.Row;
  db_inserts : list (str * str * list str);
  CHANNEL_JOIN_EVENTS : gmap str bool;
  CHANNEL_LAST_INCOMING_MSG_TIMES : gmap str Z;
  outgoing_msg_lock : bool;
  clock : Z;
  irc_calls : nat;
  irc_sent : list (str * Msg);
  irc_sent_at : list Z;
  log : list (Level * Msg);
  alerts : list Msg;
  tasks_done : nat;
  feed : FeedObject.t;
}.

Definition set_db (v : gset Database.Row) (w : list (str * str * list str))
    (s : State) : State :=
  mkState v w (CHANNEL_JOIN_EVENTS s) (CHANNEL_LAST_INCOMING_MSG_TIMES s)
          (outgoing_msg_lock s) (clock s) (irc_calls s) (irc_sent s)
          (irc_sent_at s) (log s) (alerts s) (tasks_done s) (feed s).
Definition set_CHANNEL_JOIN_EVENTS (v : gmap str bool) (s : State) : State :=
  mkState (db s) (db_inserts s) v (CHANNEL_LAST_INCOMING_MSG_TIMES s)
          (outgoing_msg_lock s) (clock s) (irc_calls s) (irc_sent s)
          (irc_sent_at s) (log s) (alerts s) (tasks_done s) (feed s).
Definition set_CHANNEL_LAST_INCOMING_MSG_TIMES (v : gmap str Z) (s : State) : State :=
  mkState (db s) (db_inserts s) (CHANNEL_JOIN_EVENTS s) v
          (outgoing_msg_lock s) (clock s) (irc_calls s) (irc_sent s)
          (irc_sent_at s) (log s) (alerts s) (tasks_done s) (feed s).
Definition set_outgoing_msg_lock (v : bool) (s : State) : State :=
  mkState (db s) (db_inserts s) (CHANNEL_JOIN_EVENTS s)
          (CHANNEL_LAST_INCOMING_MSG_TIMES s) v (clock s) (irc_calls s)
          (irc_sent s) (irc_sent_at s) (log s) (alerts s) (tasks_done s) (feed s).
Definition set_clock (v : Z) (s : State) : State :=
  mkState (db s) (db_inserts s) (CHANNEL_JOIN_EVENTS s)
          (CHANNEL_LAST_INCOMING_MSG_TIMES s) (outgoing_msg_lock s) v
          (irc_calls s) (irc_sent s) (irc_sent_at s) (log s) (alerts s)
          (tasks_done s) (feed s).
Definition set_irc (calls : nat) (sent : list (str * Msg)) (sent_at : list Z)
    (s : State) : State :=
  mkState (db s) (db_inserts s) (CHANNEL_JOIN_EVENTS s)
          (CHANNEL_LAST_INCOMING_MSG_TIMES s) (outgoing_msg_lock s) (clock s)
          calls sent sent_at (log s) (alerts s) (tasks_done s) (feed s).
Definition set_log (v : list (Level * Msg)) (s : State) : State :=
  mkState (db s) (db_inserts s) (CHANNEL_JOIN_EVENTS s)
          (CHANNEL_LAST_INCOMING_MSG_TIMES s) (outgoing_msg_lock s) (clock s)
          (irc_calls s) (irc_sent s) (irc_sent_at s) v (alerts s)
          (tasks_done s) (feed s).
Definition set_alerts (v : list Msg) (s : State) : State :=
  mkState (db s) (db_inserts s) (CHANNEL_JOIN_EVENTS s)
          (CHANNEL_LAST_INCOMING_MSG_TIMES s) (outgoing_msg_lock s) (clock s)
          (irc_calls s) (irc_sent s) (irc_sent_at s) (log s) v
          (tasks_done s) (feed s).
Definition set_tasks_done (v : nat) (s : State) : State :=
  mkState (db s) (db_inserts s) (CHANNEL_JOIN_EVENTS s)
          (CHANNEL_LAST_INCOMING_MSG_TIMES s) (outgoing_msg_lock s) (clock s)
          (irc_calls s) (irc_sent s) (irc_sent_at s) (log s) (alerts s) v
          (feed s).
Definition set_feed (v : FeedObject.t) (s : State) : State :=
  mkState (db s) (db_inserts s) (CHANNEL_JOIN_EVENTS s)
          (CHANNEL_LAST_INCOMING_MSG_TIMES s) (outgoing_msg_lock s) (clock s)
          (irc_calls s) (irc_sent s) (irc_sent_at s) (log s) (alerts s)
          (tasks_done s) v.

(** ** The monad *)

Definition M (A : Type) : Type := State -> outcome A * State.

Definition ret {A} (a : A) : M A := fun s => (Ok a, s).

Definition bind {A B} (m : M A) (k : A -> M B) : M B :=
  fun s =>
    match m s with
    | (Ok a, s') => k a s'
    | (Raise e, s') => (Raise e, s')
    | (Diverge, s') => (Diverge, s')
    end.

Definition raise {A} (e : exn) : M A := fun s => (Raise e, s).
Definition diverge {A} : M A := fun s => (Diverge, s).
Definition gets {A} (f : State -> A) : M A := fun s => (Ok (f s), s).
Definition modify (f : State -> State) : M unit := fun s => (Ok tt, f s).

(** [try: body / except Exception as exc: handler exc] *)
Definition try_except {A} (body : M A) (handler : exn -> M A) : M A :=
  fun s =>
    match body s with
    | (Raise e, s') => handler e s'
    | r => r
    end.

(** [try: body / finally: final]. An exception of [final] replaces the one
    of [body]. *)
Definition try_finally {A} (body : M A) (final : M unit) : M A :=
  fun s =>
    match body s with
    | (Diverge, s') => (Diverge, s')
    | (r, s') =>
        match final s' with
        | (Ok _, s'') => (r, s'')
        | (Raise e, s'') => (Raise e, s'')
        | (Diverge, s'') => (Diverge, s'')
        end
    end.

(** [for x in l: body x] *)
Fixpoint for_each {A} (l : list A) (body : A -> M unit) : M unit :=
  match l with
  | [] => ret tt
  | x :: l' => bind (body x) (fun _ => for_each l' body)
  end.

(** [d[k]] on a dictionary. *)
Definition getitem {V} (d : gmap str V) (k : str) : M V :=
  match d !! k with
  | Some v => ret v
  | None => raise (KeyError k)
  end.

(** [d[k]] on a configuration dictionary, whose absent keys are [None]. *)
Definition getkey {V} (k : String.string) (v : option V) : M V :=
  match v with
  | Some x => ret x
  | None => raise (KeyError (of_string k))
  end.

End Machine.

Declare Scope monad_scope.
Delimit Scope monad_scope with monad.
Notation "x <- c ;; k" := (Machine.bind c (fun x => k))
  (at level 100, c at next level, right associativity) : monad_scope.
Notation "c ;; k" := (Machine.bind c (fun _ => k))
  (at level 100, right associativity) : monad_scope.
Open Scope monad_scope.
(** ** Primitive effects *)

Module Effects.

Import PyStr Py Machine.

(** [time.monotonic()] *)
Definition monotonic : M Z := gets clock.

(** [time.sleep(d)] *)
Definition sleep (d : Z) : M unit :=
  if d <? 0 then raise ValueError
  else modify (fun s => set_clock (clock s + d) s).

(** [lock.acquire(blocking=False)] *)
Definition lock_acquire_nonblocking : M bool :=
  fun s =>
    if outgoing_msg_lock s then (Ok false, s)
    else (Ok true, set_outgoing_msg_lock true s).

(** [lock.acquire()]: with the lock held elsewhere the call waits for a
    release that a worker taken alone never sees, so that here the run
    does not go on; in the source it goes on once the holder has released.
    What the theorems say of a messenger that finds the lock free they say
    under that condition, stated. *)
Definition lock_acquire : M unit :=
  fun s =>
    if outgoing_msg_lock s then (Diverge, s)
    else (Ok tt, set_outgoing_msg_lock true s).

(** [lock.release()] *)
Definition lock_release : M unit :=
  fun s =>
    if outgoing_msg_lock s then (Ok tt, set_outgoing_msg_lock false s)
    else (Raise RuntimeError, s).

(** [log.debug], [log.warning], [log.exception] *)
Definition log_at (level : Level) (msg : Msg) : M unit :=
  modify (fun s => set_log (log s ++ [(level, msg)]) s).

(** Modelled from the spec: [config.runtime] is not among the sources.
    Section 4.5 makes an alert a best-effort message plus a log record; here
    [config.runtime.alert] records the alert in [alerts] and does not
    raise. The message and the log record it stands for are not entered in
    [irc_sent] and [log]: nothing is claimed of the IRC client or of the
    log where an alert of this kind is raised. *)
Definition runtime_alert (msg : Msg) : M unit :=
  modify (fun s => set_alerts (alerts s ++ [msg]) s).

Section WithEnv.

Context (env : Env).

(** [irc.connected] *)
Definition irc_connected : M bool :=
  gets (fun s => reconnect_at env <=? clock s).

(** [irc.msg(target, msg)]; a message that goes through is stamped with
    the clock value of the call. *)
Definition irc_msg (target : str) (msg : Msg) : M unit :=
  fun s =>
    if irc_ok env (irc_calls s)
    then (Ok tt, set_irc (S (irc_calls s)) (irc_sent s ++ [(target, msg)])
                         (irc_sent_at s ++ [clock s]) s)
    else (Raise TransportError,
          set_irc (S (irc_calls s)) (irc_sent s) (irc_sent_at s) s).

(** [bot._alert(irc, msg, logger)] *)
Definition _alert (msg : Msg) (logger : Level) : M unit :=
  log_at logger msg ;;
  irc_msg (Config.alerts_channel (Config.INSTANCE (config env))) msg.

End WithEnv.

(** [db.is_new_feed], [db.select_unposted_for_channel],
    [db.select_unposted_for_channel_feed], [db.insert_posted] on the store of
    the state. *)
Definition db_is_new_feed (channel feed : str) : M bool :=
  gets (fun s => Database.is_new_feed (db s) channel feed).

Definition db_select_unposted_for_channel
    (channel feed : str) (urls : list str) : M (list str) :=
  gets (fun s => Database.select_unposted_for_channel (db s) channel feed urls).

Definition db_select_unposted_for_channel_feed
    (channel feed : str) (urls : list str) : M (list str) :=
  gets (fun s => Database.select_unposted_for_channel_feed (db s) channel feed urls).

Definition db_insert_posted (channel feed : str) (urls : list str) : M unit :=
  modify (fun s =>
            set_db (Database.insert_posted (db s) channel feed urls)
                   (db_inserts s ++ [(channel, feed, urls)]) s).

End Effects.

(* ===================================================================== *)
(** * feed.py *)
(* ===================================================================== *)

Module Feed.

Import PyStr Py Machine Effects.

(** ** String helpers of the entry pipeline *)

Fixpoint lstrip_by (p : N -> bool) (s : str) : str :=
  match s with
  | [] => []
  | c :: s' => if p c then lstrip_by p s' else s
  end.

(** [s.strip()] *)
Definition strip (s : str) : str := lstrip_by is_space (rstrip s).

(** [s.replace(" ", "%20")] *)
Definition escape_spaces (s : str) : str :=
  flat_map (fun c => if (c =? 32)%N then of_string "%20" else [c]) s.

Fixpoint take_word (s : str) : str :=
  match s with
  | [] => []
  | c :: s' => if is_space c then [] else c :: take_word s'
  end.

(** [s.split(maxsplit=1)]: split on runs of whitespace, at most once. *)
Definition split_ws1 (s : str) : list str :=
  match lstrip_by is_space s with
  | [] => []
  | s1 =>
      let w := take_word s1 in
      match lstrip_by is_space (drop (length w) s1) with
      | [] => [w]
      | rest => [w; rest]
      end
  end.

Definition quote_begin : N := 8220.  (* U+201C *)
Definition quote_end : N := 8221.    (* U+201D *)

(** ** The title stages of [_process_entries], on one title *)

(** "Strip unicode quotes around titles". *)
Definition strip_unicode_quotes (title : str) : str :=
  if (2 <? length title)%nat
     && bool_decide (title !! 0%nat = Some quote_begin)
     && bool_decide (last title = Some quote_end)
  then
    let inner := take (length title - 2) (drop 1 title) in
    if negb (contains_char quote_begin inner)
       && negb (contains_char quote_end inner)
    then inner
    else title
  else title.

(** "Remove trailing periods from title". *)
Definition remove_trailing_period (title : str) : str :=
  if (length (split1 (of_string ". ") (rstrip title)) <? 2)%nat
  then rstrip_chars (of_string ".") (rstrip title)
  else title.

(** The two stages as loops over the entries:
    [for entry in entries: entry.title = ...]. *)
Definition stage_strip_unicode_quotes (entries : list FeedEntry.t) : list FeedEntry.t :=
  map (fun entry =>
         FeedEntry.set_title (strip_unicode_quotes (FeedEntry.title entry)) entry)
      entries.

Definition stage_remove_trailing_period (entries : list FeedEntry.t) : list FeedEntry.t :=
  map (fun entry =>
         FeedEntry.set_title (remove_trailing_period (FeedEntry.title entry)) entry)
      entries.

(** [Feed._dedupe_entries]: [list(dict.fromkeys(entries))].
    Modelled from the spec: [entry.py] is not among the sources; entries are
    equal (and hash alike) iff their [long_url] is equal. *)
Definition _dedupe_entries (entries : list FeedEntry.t) : list FeedEntry.t :=
  fold_left
    (fun acc e =>
       if bool_decide (FeedEntry.long_url e ∈ map FeedEntry.long_url acc)
       then acc else acc ++ [e])
    entries [].

Section WithEnv.

Context (env : Env).

Let cfg : Config.t := config env.
Let instance : Config.Instance := Config.INSTANCE cfg.
Let L : Lib.t := lib env.

(** [Feed._process_entries], as far as it returns: the library functions
    are taken to return, so that what raises in the source (a pattern that
    [re.sub] or [re.search] rejects, a [format.re] key that the entry does
    not have) is outside the model. *)
Definition _process_entries (channel name : str) (feed_config : Config.FeedConfig)
    (entries : list FeedEntry.t) : list FeedEntry.t :=
  (* Remove blacklisted entries *)
  let blacklisting := default false (Config.blacklist feed_config) in
  let entries :=
    if blacklisting
    then List.filter
           (fun entry => negb (bool_decide
              (is_Some (Lib.blacklisted_pattern L channel name entry)))) entries
    else entries in
  if blacklisting && negb (truthy entries) then entries else
  (* Keep only whitelisted entries *)
  let whitelisting := default false (Config.whitelist feed_config) in
  let entries :=
    if whitelisting
    then flat_map
           (fun entry =>
              match Lib.whitelisted_pattern L channel name entry with
              | Some (key, pattern) =>
                  if bool_decide (key = of_string "title")
                  then [FeedEntry.set_matching_title_search_pattern (Some pattern) entry]
                  else [entry]
              | None => []
              end) entries
    else entries in
  if whitelisting && negb (truthy entries) then entries else
  (* Enforce HTTPS URLs *)
  let entries :=
    if default false (Config.https feed_config)
    then map (fun entry =>
                if startswith (of_string "http://") (FeedEntry.long_url entry)
                then FeedEntry.set_long_url
                       (of_string "https://" ++ drop 7 (FeedEntry.long_url entry)) entry
                else entry) entries
    else entries in
  (* Substitute entries *)
  let entries :=
    match Config.sub feed_config with
    | Some sub =>
        let entries :=
          match Config.sub_title sub with
          | Some r =>
              map (fun entry =>
                     FeedEntry.set_title
                       (Lib.re_sub L (Config.sub_pattern r) (Config.sub_repl r)
                                   (FeedEntry.title entry)) entry) entries
          | None => entries
          end in
        match Config.sub_url sub with
        | Some r =>
            map (fun entry =>
                   FeedEntry.set_long_url
                     (Lib.re_sub L (Config.sub_pattern r) (Config.sub_repl r)
                                 (FeedEntry.long_url entry)) entry) entries
        | None => entries
        end
    | None => entries
    end in
  (* Format entries *)
  let entries :=
    match Config.format feed_config with
    | Some format_config =>
        map (fun entry =>
               let titled :=
                 match Lib.format_title L format_config entry with
                 | Some v => FeedEntry.set_title v entry
                 | None => entry
                 end in
               match Lib.format_url L format_config entry with
               | Some v => FeedEntry.set_long_url v titled
               | None => titled
               end) entries
    | None => entries
    end in
  (* Escape spaces in URLs *)
  let entries :=
    map (fun entry =>
           FeedEntry.set_long_url
             (escape_spaces (strip (FeedEntry.long_url entry))) entry) entries in
  (* Strip HTML tags from titles and summaries *)
  let entries :=
    map (fun entry =>
           FeedEntry.set_summary (Lib.html_to_text L (FeedEntry.summary entry))
             (FeedEntry.set_title (Lib.html_to_text L (FeedEntry.title entry)) entry))
        entries in
  (* Strip unicode quotes around titles *)
  let entries := stage_strip_unicode_quotes entries in
  (* Remove trailing periods from title *)
  let entries := stage_remove_trailing_period entries in
  (* Replace all-caps titles *)
  let entries :=
    map (fun entry =>
           let entry_has_multiple_words :=
             (1 <? length (split_ws1 (FeedEntry.title entry)))%nat in
           if entry_has_multiple_words && Lib.isupper L (FeedEntry.title entry)
           then FeedEntry.set_title (Lib.capitalize L (FeedEntry.title entry)) entry
           else entry) entries in
  (* Shorten titles *)
  let entries :=
    map (fun entry =>
           FeedEntry.set_title
             (Lib.shorten_to_bytes_width L (FeedEntry.title entry)
                                         (Config.TITLE_MAX_BYTES cfg)) entry)
        entries in
  (* Deduplicate entries *)
  _dedupe_entries entries.

(** [OrderedSet]: a list without repetition, in insertion order. *)
Definition oset_add (s : list str) (x : str) : list str :=
  if bool_decide (x ∈ s) then s else s ++ [x].

Definition oset_update (s : list str) (xs : list str) : list str :=
  fold_left oset_add xs s.

Definition OrderedSet (xs : list str) : list str := oset_update [] xs.

(** [feed_config.get("alerts", {}).get("empty", True)] *)
Definition alerts_empty (feed_config : Config.FeedConfig) : bool :=
  match Config.alerts feed_config with
  | Some a => default true (Config.alerts_empty a)
  | None => true
  end.

(** What the loop of [_read_entries] does once it has parsed one URL:
    extend the entries and the pending set, report an empty parse, and pace
    the next read. It returns the new pending set, read set and entries. *)
Definition read_one (feed_config : Config.FeedConfig)
    (url : str) (selected_entries : list FeedEntry.t) (follow_urls : list str)
    (urls_pending urls_read : list str) (entries : list FeedEntry.t)
    : M (list str * list str * list FeedEntry.t) :=
  url_read_finish_time <- monotonic ;;
  let urls_read := oset_add urls_read url in
  let log_msg := Parsed url (length selected_entries) (length follow_urls) in
  let entries := entries ++ selected_entries in
  let urls_pending :=
    oset_update urls_pending
      (List.filter (fun u => negb (bool_decide (u ∈ urls_read))) follow_urls) in
  (* Raise alert if no entries for URL *)
  (if truthy selected_entries then log_at DEBUG (log_msg false)
   else if alerts_empty feed_config then runtime_alert (log_msg true)
   else log_at WARNING (log_msg false)) ;;
  (* Sleep between URLs *)
  (if truthy urls_pending then
     now <- monotonic ;;
     let time_elapsed_since_url_read := now - url_read_finish_time in
     let sleep_time :=
       Z.max 0 (Config.SECONDS_BETWEEN_FEED_URLS cfg - time_elapsed_since_url_read) in
     if 0 <? sleep_time then sleep sleep_time else ret tt
   else ret tt) ;;
  ret (urls_pending, urls_read, entries).

(** The [while urls_pending:] loop of [_read_entries]. *)
Fixpoint read_loop (fuel : nat) (feed_config : Config.FeedConfig)
    (urls_pending urls_read : list str) (entries : list FeedEntry.t)
    : M (list FeedEntry.t * list str) :=
  match urls_pending with
  | [] => ret (entries, urls_read)
  | url :: rest =>
      match fuel with
      | O => diverge
      | S fuel' =>
          match read_url env url with
          | Ok (selected_entries, follow_urls) =>
              r <- read_one feed_config url selected_entries follow_urls
                            rest urls_read entries ;;
              read_loop fuel' feed_config r.1.1 r.1.2 r.2
          | Raise e => raise e
          | Diverge => diverge
          end
      end
  end.

(** [Feed._read_entries], from the loop on. The selection of the parser
    (lines 94-107), which raises on a parser configuration without
    ["select"], is not modelled: [read_url] stands for the fetch followed
    by the parser selected. *)
Definition _read_entries (fuel : nat) (channel name : str)
    (feed_config : Config.FeedConfig) (urls : list str)
    : M (list FeedEntry.t * nat) :=
  r <- read_loop fuel feed_config (OrderedSet urls) [] [] ;;
  ret (_process_entries channel name feed_config r.1, length r.2).

(** [Feed.__post_init__]: what [Feed(channel, name, ...)] builds. The two
    calls of [_patterns] (lines 57-58), which raise on a pattern that
    [re.compile] rejects, are not modelled: the lists are consulted through
    [Lib.blacklisted_pattern] and [Lib.whitelisted_pattern]. *)
Definition __post_init__ (fuel : nat) (channel name : str) : M FeedObject.t :=
  channel_feeds <- getitem (Config.feeds instance) channel ;;
  own_config <- getitem channel_feeds name ;;
  let feed_config := Config.merge (Config.defaults instance) own_config in
  urls <- getkey "url" (Config.url feed_config) ;;
  let min_channel_idle_time :=
    if default (Config.PERIOD_HOURS_DEFAULT cfg) (Config.period feed_config)
       >? Config.PERIOD_HOURS_MIN cfg
    then Config.MIN_CHANNEL_IDLE_TIME_DEFAULT cfg
    else 0 in
  r <- _read_entries fuel channel name feed_config urls ;;
  ret (FeedObject.mk channel name feed_config urls min_channel_idle_time
                     r.1 r.2 None None).

(** [Feed.unposted_entries], a [cachedproperty] of the held feed. *)
Definition unposted_entries : M (list FeedEntry.t) :=
  self <- gets feed ;;
  match FeedObject.unposted_entries_cache self with
  | Some cached => ret cached
  | None =>
      let entries := FeedObject.entries self in
      let long_urls := map FeedEntry.long_url entries in
      let dedup_strategy :=
        match Config.dedup (FeedObject.config self) with
        | Some (c :: d) => c :: d
        | _ => Config.DEDUP_STRATEGY_DEFAULT cfg
        end in
      long_urls <-
        (if bool_decide (dedup_strategy = of_string "channel")
         then db_select_unposted_for_channel
                (FeedObject.channel self) (FeedObject.name self) long_urls
         else
           if bool_decide (dedup_strategy = of_string "feed")
           then db_select_unposted_for_channel_feed
                  (FeedObject.channel self) (FeedObject.name self) long_urls
           else raise AssertionError) ;;
      let entries :=
        List.filter
          (fun entry => bool_decide (FeedEntry.long_url entry ∈ long_urls))
          entries in
      modify (fun s =>
                set_feed (FeedObject.set_unposted_entries_cache (Some entries) (feed s)) s) ;;
      ret entries
  end.

(** The loop [for index, entry in enumerate(entries):
    entry.short_url = short_urls[index]]. It gives new entries; in the
    source it writes into the entry objects, which [self.entries] and the
    cached unposted entries share, also when it ends in [IndexError]. That
    sharing is not modelled: the feed's entries and its unposted entries
    keep the [short_url] they had. *)
Fixpoint assign_short_urls (index : nat) (entries : list FeedEntry.t)
    (short_urls : list str) : outcome (list FeedEntry.t) :=
  match entries with
  | [] => Ok []
  | entry :: rest =>
      match short_urls !! index with
      | None => Raise IndexError
      | Some short_url =>
          match assign_short_urls (S index) rest short_urls with
          | Ok rest' => Ok (FeedEntry.set_short_url (Some short_url) entry :: rest')
          | other => other
          end
      end
  end.

(** [Feed.postable_entries], a [cachedproperty] of the held feed. *)
Definition postable_entries : M (list FeedEntry.t) :=
  self <- gets feed ;;
  match FeedObject.postable_entries_cache self with
  | Some cached => ret cached
  | None =>
      entries <- unposted_entries ;;
      (* Filter entries if new feed *)
      is_new <- db_is_new_feed (FeedObject.channel self) (FeedObject.name self) ;;
      entries <-
        (if is_new : bool then
           tag <- getkey "new" (Config.new (FeedObject.config self)) ;;
           max_posts <- getitem (Config.NEW_FEED_POSTS_MAX cfg) tag ;;
           ret (slice_to max_posts entries)
         else ret entries) ;;
      (* Shorten URLs *)
      entries <-
        (if truthy entries then
           shorten <- getkey "shorten" (Config.shorten (FeedObject.config self)) ;;
           if shorten : bool then
             let long_urls := map FeedEntry.long_url entries in
             match shorten_urls env long_urls with
             | Ok short_urls =>
                 match assign_short_urls 0 entries short_urls with
                 | Ok entries' => ret entries'
                 | Raise e => raise e
                 | Diverge => diverge
                 end
             | Raise e => raise e
             | Diverge => diverge
             end
           else ret entries
         else ret entries) ;;
      modify (fun s =>
                set_feed (FeedObject.set_postable_entries_cache (Some entries) (feed s)) s) ;;
      ret entries
  end.

End WithEnv.

End Feed.

(* ===================================================================== *)
(** * bot.py *)
(* ===================================================================== *)

Module Bot.

Import PyStr Py Machine Effects.

Section WithEnv.

Context (env : Env).

Let cfg : Config.t := config env.
Let instance : Config.Instance := Config.INSTANCE cfg.

(** The part of [Bot._setup_channels] that fills [CHANNEL_JOIN_EVENTS]: one
    unset event per configured channel, under the configured spelling.
    Queues, threads and barriers are not modelled. *)
Definition _setup_channels : M unit :=
  modify (set_CHANNEL_JOIN_EVENTS ((fun _ => false) <$> Config.feeds instance)).

(** The queues [Bot._setup_channels] creates, [CHANNEL_QUEUES]: one per
    configured channel, with room for twice the number of its feeds. Of a
    queue only [maxsize] is kept. *)
Definition channel_queues : gmap str nat :=
  (fun channel_config => size channel_config * 2)%nat <$> Config.feeds instance.

(** [barriers_parties] as [Bot._setup_channels] counts it: for every feed
    of every channel whose configuration has a non-empty [group],
    [barriers_parties[group] = barriers_parties.get(group, 0) + 1]. Each
    entry then becomes a [threading.Barrier(parties)]. The dictionaries are
    run through in the order of [map_to_list]; the count does not depend on
    the order. *)
Definition count_group (barriers_parties : gmap str nat)
    (feed_config : Config.FeedConfig) : gmap str nat :=
  match Config.group feed_config with
  | Some (c :: group) =>
      <[c :: group := (default 0 (barriers_parties !! (c :: group)) + 1)%nat]>
        barriers_parties
  | _ => barriers_parties
  end.

Definition barriers_parties : gmap str nat :=
  fold_left
    (fun barriers_parties channel_item =>
       fold_left
         (fun barriers_parties feed_item =>
            count_group barriers_parties (snd feed_item))
         (map_to_list (snd channel_item)) barriers_parties)
    (map_to_list (Config.feeds instance)) ∅.

(** [Bot.CHANNEL_JOIN_EVENTS[channel].wait()]: the call returns when the
    event is set; a worker taken alone never sees an unset event change. *)
Definition join_event_wait (channel : str) : M unit :=
  events <- gets CHANNEL_JOIN_EVENTS ;;
  is_set <- getitem events channel ;;
  if is_set : bool then ret tt else diverge.

(** The start of [Bot._msg_channel], up to its loop: the messenger looks up
    its queue and waits for the join of its channel and of the alerts
    channel. [queues] is [Bot.CHANNEL_QUEUES]. *)
Definition _msg_channel_start (queues : gmap str nat) (channel : str) : M nat :=
  channel_queue <- getitem queues channel ;;
  join_event_wait channel ;;
  join_event_wait (Config.alerts_channel instance) ;;
  ret channel_queue.

(** [sleep_time] of the idle gate (bot.py, lines 67 and 82-84). *)
Definition idle_gate_sleep_time (now last_incoming_msg_time : Z) : Z :=
  let min_channel_idle_time := Config.MIN_CHANNEL_IDLE_TIME cfg in
  let time_elapsed_since_last_ic_msg := now - last_incoming_msg_time in
  Z.max 0 (min_channel_idle_time - time_elapsed_since_last_ic_msg).

(** The inner [while True:] of [_msg_channel]: take the lock, and give it
    back to sleep while the channel is not idle. *)
Fixpoint idle_gate (fuel : nat) (channel : str) : M unit :=
  match fuel with
  | O => diverge
  | S fuel' =>
      acquired <- lock_acquire_nonblocking ;;
      (if acquired : bool then ret tt else lock_acquire) ;;
      d <- gets CHANNEL_LAST_INCOMING_MSG_TIMES ;;
      last_incoming_msg_time <- getitem d channel ;;
      now <- monotonic ;;
      let sleep_time := idle_gate_sleep_time now last_incoming_msg_time in
      if sleep_time =? 0 then ret tt
      else
        lock_release ;;
        sleep sleep_time ;;
        idle_gate fuel' channel
  end.

(** [while not irc.connected: time.sleep(5)]; the enclosing [if] tests the
    same condition. *)
Fixpoint wait_connected (fuel : nat) : M unit :=
  match fuel with
  | O => diverge
  | S fuel' =>
      connected <- irc_connected env ;;
      if connected : bool then ret tt
      else sleep 5 ;; wait_connected fuel'
  end.

(** The body of [for entry in feed.postable_entries:]. *)
Definition post_entry (channel feed_name : str) (entry : FeedEntry.t) : M unit :=
  let seconds_per_msg := Config.SECONDS_PER_MESSAGE cfg in
  let msg := Post feed_name (FeedEntry.title entry) (FeedEntry.post_url entry) in
  outgoing_msg_time <- monotonic ;;
  irc_msg env channel msg ;;
  now <- monotonic ;;
  sleep (Z.max 0 (outgoing_msg_time + seconds_per_msg - now)).

(** The body of [while True:] in [Bot._msg_channel], for the feed the worker
    has just dequeued (the held feed of the state). *)
Definition _msg_channel_iteration (fuel : nat) (channel : str) : M unit :=
  try_except
    (postable <- Feed.postable_entries env ;;
     (if truthy postable then
        try_finally
          (idle_gate fuel channel ;;
           wait_connected fuel ;;
           postable <- Feed.postable_entries env ;;
           self <- gets feed ;;
           for_each postable (post_entry channel (FeedObject.name self)))
          lock_release
      else ret tt) ;;
     unposted <- Feed.unposted_entries env ;;
     if truthy unposted then
       self <- gets feed ;;
       unposted <- Feed.unposted_entries env ;;
       db_insert_posted channel (FeedObject.name self)
                        (map FeedEntry.long_url unposted)
     else ret tt)
    (fun exc =>
       self <- gets feed ;;
       _alert env (ErrorProcessing (FeedObject.channel self) (FeedObject.name self) exc)
              EXCEPTION) ;;
  modify (fun s => set_tasks_done (S (tasks_done s)) s).

(** [_handle_join] *)
Definition _handle_join (hostmask : str * str * str) (args : list str) : M unit :=
  let '(user, ident, hostname) := hostmask in
  match args with
  | [] => raise IndexError
  | channel :: _ =>
      (* Ignore if not actionable *)
      if negb (bool_decide (user = Config.nick instance))
         || negb (bool_decide
                    (Lib.casefold (lib env) channel ∈ Config.channels_casefold instance))
      then ret tt
      else
        (* Update channel last message time *)
        events <- gets CHANNEL_JOIN_EVENTS ;;
        _ <- getitem events channel ;;
        modify (fun s =>
                  set_CHANNEL_JOIN_EVENTS (<[channel := true]> (CHANNEL_JOIN_EVENTS s)) s) ;;
        now <- monotonic ;;
        modify (fun s =>
                  set_CHANNEL_LAST_INCOMING_MSG_TIMES
                    (<[channel := now]> (CHANNEL_LAST_INCOMING_MSG_TIMES s)) s) ;;
        times <- gets CHANNEL_LAST_INCOMING_MSG_TIMES ;;
        _ <- getitem times channel ;;
        ret tt
  end.

(** [_handle_privmsg] *)
Definition _handle_privmsg (hostmask : str * str * str) (args : list str) : M unit :=
  match args with
  | [] => raise IndexError
  | channel :: _ =>
      if negb (bool_decide
                 (Lib.casefold (lib env) channel ∈ Config.channels_casefold instance))
      then
        if negb (bool_decide
                   (Lib.casefold (lib env) channel = Config.nick_casefold instance))
        then raise AssertionError
        else
          let '(user, ident, hostname) := hostmask in
          let msg := default [] (last args) in
          if negb (startswith (of_string ":") msg) then raise AssertionError
          else
            let msg := drop 1 msg in
            if negb (bool_decide (msg = [1%N] ++ of_string "VERSION" ++ [1%N]))
            then _alert env (IgnoredPrivmsg user ident hostname msg) WARNING
            else ret tt
      else
        now <- monotonic ;;
        modify (fun s =>
                  set_CHANNEL_LAST_INCOMING_MSG_TIMES
                    (<[channel := now]> (CHANNEL_LAST_INCOMING_MSG_TIMES s)) s)
  end.

End WithEnv.

End Bot.

(* ===================================================================== *)
(** * searchers/_base.py *)
(* ===================================================================== *)

Module Searcher.

Import PyStr.

(** [s.split()]: the maximal runs of characters that are not whitespace, in
    order; [word] is the run being read. *)
Fixpoint split_ws (word : str) (s : str) : list str :=
  match s with
  | [] => match word with [] => [] | _ :: _ => [word] end
  | c :: s' =>
      if is_space c
      then match word with
           | [] => split_ws [] s'
           | _ :: _ => word :: split_ws [] s'
           end
      else split_ws (word ++ [c]) s'
  end.

Definition split (s : str) : list str := split_ws [] s.

(** [sep.join(parts)] *)
Fixpoint join (sep : str) (parts : list str) : str :=
  match parts with
  | [] => []
  | part :: rest =>
      match rest with
      | [] => part
      | _ :: _ => part ++ sep ++ join sep rest
      end
  end.

(** [BaseSearcher.fix_query]: [" ".join(query.split())] *)
Definition fix_query (query : str) : str := join (of_string " ") (split query).

End Searcher.

(* ===================================================================== *)
(** * Vocabulary of the statements *)
(* ===================================================================== *)

(** What the theorems below say about states: the pure reading of what the
    cached properties compute, the relations "nothing changed but", and the
    messages of a run with the clock values at which they went out. *)
Module Frames.

Import PyStr Py Machine.

Definition cache_unposted (v : list FeedEntry.t) (s : State) : State :=
  set_feed (FeedObject.set_unposted_entries_cache (Some v) (feed s)) s.

Definition cache_postable (v : list FeedEntry.t) (s : State) : State :=
  set_feed (FeedObject.set_postable_entries_cache (Some v) (feed s)) s.

(** [f'] differs from [f] at most in the two cache slots. *)
Definition recached (f f' : FeedObject.t) : Prop :=
  FeedObject.channel f' = FeedObject.channel f
  /\ FeedObject.name f' = FeedObject.name f
  /\ FeedObject.config f' = FeedObject.config f
  /\ FeedObject.entries f' = FeedObject.entries f
  /\ FeedObject.min_channel_idle_time f' = FeedObject.min_channel_idle_time f.

(** [s'] differs from [s] at most in the cache slots of the held feed. *)
Definition feed_only (s s' : State) : Prop :=
  s' = set_feed (feed s') s /\ recached (feed s) (feed s').

(** [s'] differs from [s] at most in the lock and the clock. *)
Definition quiet (s s' : State) : Prop :=
  db s' = db s /\ db_inserts s' = db_inserts s /\ feed s' = feed s
  /\ irc_calls s' = irc_calls s /\ irc_sent s' = irc_sent s
  /\ log s' = log s /\ alerts s' = alerts s /\ tasks_done s' = tasks_done s
  /\ CHANNEL_LAST_INCOMING_MSG_TIMES s' = CHANNEL_LAST_INCOMING_MSG_TIMES s
  /\ CHANNEL_JOIN_EVENTS s' = CHANNEL_JOIN_EVENTS s
  /\ irc_sent_at s' = irc_sent_at s.

(** [s'] differs from [s] at most in the clock and in what the IRC client
    was handed. *)
Definition posting (s s' : State) : Prop :=
  db s' = db s /\ db_inserts s' = db_inserts s /\ feed s' = feed s
  /\ outgoing_msg_lock s' = outgoing_msg_lock s
  /\ log s' = log s /\ alerts s' = alerts s /\ tasks_done s' = tasks_done s
  /\ CHANNEL_LAST_INCOMING_MSG_TIMES s' = CHANNEL_LAST_INCOMING_MSG_TIMES s
  /\ CHANNEL_JOIN_EVENTS s' = CHANNEL_JOIN_EVENTS s.

(** The warnings and the errors in the log. *)
Definition warnings (s : State) : list (Level * Msg) :=
  List.filter (fun r => match r.1 with DEBUG => false | _ => true end) (log s).

(** The messages the IRC client was handed, oldest first, each with the
    clock value of the call. *)
Definition timeline (s : State) : list (Z * (str * Msg)) :=
  zip (irc_sent_at s) (irc_sent s).

(** A line posted for an entry of a feed, as opposed to an alert. *)
Definition is_post (line : str * Msg) : bool :=
  match line.2 with
  | Post _ _ _ => true
  | _ => false
  end.

(** The clock values in the window [[t, t + seconds_per_msg)] at which a
    message selected by [keep] went out. *)
Definition sent_in_window (keep : str * Msg -> bool) (seconds_per_msg t : Z)
    (s : State) : list Z :=
  map fst
      (List.filter
         (fun x => keep x.2 && (t <=? x.1) && (x.1 <? t + seconds_per_msg))
         (timeline s)).

(** In no window [[t, t + seconds_per_msg)] did more than one of the
    messages selected by [keep] go out. *)
Definition one_per_window (keep : str * Msg -> bool) (seconds_per_msg : Z)
    (s : State) : Prop :=
  forall t, (length (sent_in_window keep seconds_per_msg t s) <= 1)%nat.

(** The posts so far went out at least [seconds_per_msg] apart, the last
    of them at least as long ago, and every message has its clock value. *)
Definition paced (seconds_per_msg : Z) (s : State) : Prop :=
  length (irc_sent_at s) = length (irc_sent s)
  /\ (forall i j ti tj li lj,
        (i < j)%nat ->
        timeline s !! i = Some (ti, li) -> timeline s !! j = Some (tj, lj) ->
        is_post li = true -> is_post lj = true ->
        ti + seconds_per_msg <= tj)
  /\ (forall i ti li,
        timeline s !! i = Some (ti, li) -> is_post li = true ->
        ti + seconds_per_msg <= clock s).

(** Whatever [m] ends in, it leaves a state in which [P] holds when it
    started in one. *)
Definition keeps {A} (P : State -> Prop) (m : M A) : Prop :=
  forall s r s', m s = (r, s') -> P s -> P s'.

(** A word of a query: a non-empty run of characters none of which is
    whitespace. *)
Definition word (w : str) : Prop :=
  w <> [] /\ Forall (fun c => is_space c = false) w.

(** The line posted for an entry. *)
Definition post_line (channel feed_name : str) (entry : FeedEntry.t) : str * Msg :=
  (channel, Post feed_name (FeedEntry.title entry) (FeedEntry.post_url entry)).

Section WithEnv.

Context (env : Env).

(** The dedup scope [unposted_entries] settles on. *)
Definition dedup_strategy (self : FeedObject.t) : str :=
  match Config.dedup (FeedObject.config self) with
  | Some (c :: d) => c :: d
  | _ => Config.DEDUP_STRATEGY_DEFAULT (config env)
  end.

(** The URLs the store reports as unposted, in the scope [strategy]. *)
Definition selected_urls (strategy : str) (s : State) : list str :=
  let self := feed s in
  let long_urls := map FeedEntry.long_url (FeedObject.entries self) in
  if bool_decide (strategy = of_string "channel")
  then Database.select_unposted_for_channel
         (db s) (FeedObject.channel self) (FeedObject.name self) long_urls
  else Database.select_unposted_for_channel_feed
         (db s) (FeedObject.channel self) (FeedObject.name self) long_urls.

(** The entries of the held feed whose URL the store does not hold. *)
Definition unposted_list (s : State) : list FeedEntry.t :=
  List.filter
    (fun entry =>
       bool_decide (FeedEntry.long_url entry
                      ∈ selected_urls (dedup_strategy (feed s)) s))
    (FeedObject.entries (feed s)).

(** The entry gets past the feed's blacklist and whitelist, as far as they
    are configured. *)
Definition passes_lists (channel name : str) (feed_config : Config.FeedConfig)
    (entry : FeedEntry.t) : bool :=
  (negb (default false (Config.blacklist feed_config))
   || negb (bool_decide
              (is_Some (Lib.blacklisted_pattern (lib env) channel name entry))))
  && (negb (default false (Config.whitelist feed_config))
      || bool_decide
           (is_Some (Lib.whitelisted_pattern (lib env) channel name entry))).

(** The configurations of all configured feeds, channel by channel. *)
Definition configured_feeds : list Config.FeedConfig :=
  flat_map (fun channel_item => map snd (map_to_list (snd channel_item)))
           (map_to_list (Config.feeds (Config.INSTANCE (config env)))).

(** The feed belongs to the group. *)
Definition in_group (group : str) (feed_config : Config.FeedConfig) : bool :=
  bool_decide (Config.group feed_config = Some group).

(** The state in which the idle gate lets a batch through: the lock taken,
    and the clock moved on to the end of the idle time if need be. *)
Definition gate_exit (last : Z) (s : State) : State :=
  set_outgoing_msg_lock true
    (set_clock (Z.max (clock s)
                      (last + Config.MIN_CHANNEL_IDLE_TIME (config env))) s).

(** What the process does from one moment to the next, as far as its
    messages go: a channel messenger handles the feed it has dequeued
    ([feed = channel_queue.get()] and the body of the loop), a handler is
    called with a JOIN or a PRIVMSG, or time passes. *)
Inductive Step : Type :=
| Handles (channel : str) (held : FeedObject.t)
| Joins (hostmask : str * str * str) (args : list str)
| Says (hostmask : str * str * str) (args : list str)
| Passes (seconds : Z).

Definition step (fuel : nat) (st : Step) : M unit :=
  match st with
  | Handles channel held =>
      Machine.bind (modify (set_feed held))
                   (fun _ => Bot._msg_channel_iteration env fuel channel)
  | Joins hostmask args => Bot._handle_join env hostmask args
  | Says hostmask args => Bot._handle_privmsg env hostmask args
  | Passes seconds => Effects.sleep seconds
  end.

(** The state after the steps, taken one after another. A step that raises
    ends the thread it ran in, and one that does not end keeps its thread;
    the others go on from the state it leaves. *)
Definition run (fuel : nat) (steps : list Step) (s : State) : State :=
  fold_left (fun s st => (step fuel st s).2) steps s.

End WithEnv.

End Frames.

(* ===================================================================== *)
(** * A sample deployment *)
(* ===================================================================== *)

(** One channel [#news] with one feed [planet], and the alerts channel.
    The constants follow the shape of the spec's scenarios: a first-post cap
    of 5 under the tag ["5"], two seconds per message, a 15-minute idle time. *)
Module Samples.

Import PyStr Py Machine.

Definition lib : Lib.t :=
  Lib.mk casefold_ascii (fun _ _ v => v) (fun v => v) (fun _ => false)
         (fun v => v) (fun v _ => v) (fun _ _ _ => None) (fun _ _ _ => None)
         (fun _ _ => None) (fun _ _ => None).

Definition feed_config (period : Z) (shorten : bool) (alerts : option Config.Alerts)
    : Config.FeedConfig :=
  Config.mkFeedConfig
    (Some [of_string "http://example.org/feed"; of_string "http://example.org/more"])
    (Some period) (Some (of_string "5")) (Some shorten) None None alerts
    None None None None None.

Definition instance (fc : Config.FeedConfig) : Config.Instance :=
  Config.mkInstance
    (of_string "feedbot") (of_string "#alerts")
    {[ of_string "#news" := {[ of_string "planet" := fc ]};
       of_string "#alerts" := ∅ ]}
    Config.no_config
    [of_string "#news"; of_string "#alerts"]
    (of_string "feedbot") false.

Definition config (fc : Config.FeedConfig) : Config.t :=
  Config.mk (instance fc) 2 900 900 1 1 1 200 (of_string "feed")
            {[ of_string "5" := Some 5; of_string "none" := Some 0;
               of_string "all" := None ]}.

(** Entry number [n]: title [t] and URL [http://example.org/] followed by
    the [n]-th letter. *)
Definition entry (n : nat) : FeedEntry.t :=
  FeedEntry.mk (of_string "t" ++ [N.of_nat (97 + n)])
               (of_string "http://example.org/" ++ [N.of_nat (97 + n)])
               [] [] None None.

Definition entries12 : list FeedEntry.t := map entry (seq 0 12).

(** A shortener that keeps the last letter. *)
Definition shortener (urls : list str) : outcome (list str) :=
  Ok (map (fun u => of_string "https://j.mp/" ++ drop 19 u) urls).

(** The first URL of the feed yields no entry, the second twelve. *)
Definition web (url : str) : outcome (list FeedEntry.t * list str) :=
  if bool_decide (url = of_string "http://example.org/feed") then Ok ([], [])
  else Ok (entries12, []).

Definition env (fc : Config.FeedConfig) (irc_ok : nat -> bool) : Env :=
  mkEnv (config fc) lib irc_ok 0 shortener web.

Definition feed_object (fc : Config.FeedConfig) (min_channel_idle_time : Z)
    (entries : list FeedEntry.t) : FeedObject.t :=
  FeedObject.mk (of_string "#news") (of_string "planet") fc
                [of_string "http://example.org/feed"; of_string "http://example.org/more"]
                min_channel_idle_time entries 2 None None.

(** Both channels joined, the last message to [#news] seen at clock 100,
    the clock at [now], the lock free, an empty store, and [held] in the
    worker's hands. *)
Definition state (now : Z) (held : FeedObject.t) : State :=
  mkState ∅ []
          {[ of_string "#news" := true; of_string "#alerts" := true ]}
          {[ of_string "#news" := 100; of_string "#alerts" := 100 ]}
          false now 0 [] [] [] [] 0 held.

(** An entry with the given title. *)
Definition entry_of_title (title : str) : FeedEntry.t :=
  FeedEntry.mk title (of_string "http://example.org/a") [] [] None None.

(** A paged feed: the first page links to the second and to itself, the
    second links back to the first; nothing else can be fetched. *)
Definition paged_web (url : str) : outcome (list FeedEntry.t * list str) :=
  if bool_decide (url = of_string "http://example.org/feed")
  then Ok ([entry 0; entry 1],
           [of_string "http://example.org/more"; of_string "http://example.org/feed"])
  else if bool_decide (url = of_string "http://example.org/more")
  then Ok ([entry 2; entry 0], [of_string "http://example.org/feed"])
  else Raise FetchError.

Definition paged_env (fc : Config.FeedConfig) : Env :=
  mkEnv (config fc) lib (fun _ => true) 0 shortener paged_web.

(** A deployment whose shortener is out of order: [#news] has the feed
    [planet], which asks for short URLs, and the feed [comics], which does
    not. *)
Definition outage_config : Config.t :=
  Config.mk
    (Config.mkInstance
       (of_string "feedbot") (of_string "#alerts")
       {[ of_string "#news" := {[ of_string "planet" := feed_config 2 true None;
                                  of_string "comics" := feed_config 2 false None ]};
          of_string "#alerts" := ∅ ]}
       Config.no_config
       [of_string "#news"; of_string "#alerts"]
       (of_string "feedbot") false)
    2 900 900 1 1 1 200 (of_string "feed")
    {[ of_string "5" := Some 5; of_string "none" := Some 0;
       of_string "all" := None ]}.

Definition outage_env : Env :=
  mkEnv outage_config lib (fun _ => true) 0 (fun _ => Raise ShortenerError) web.

Definition planet (entries : list FeedEntry.t) : FeedObject.t :=
  feed_object (feed_config 2 true None) 900 entries.

Definition comics (entries : list FeedEntry.t) : FeedObject.t :=
  FeedObject.mk (of_string "#news") (of_string "comics") (feed_config 2 false None)
                [of_string "http://example.org/feed"; of_string "http://example.org/more"]
                900 entries 2 None None.

End Samples.

(* ===================================================================== *)
(** * Facts about the string helpers *)
(* ===================================================================== *)

Module PyStrFacts.

Import PyStr.

Lemma startswith_iff (p s : str) :
  startswith p s = true <-> exists post, s = p ++ post.
Proof.
  revert s. induction p as [|a p IH]; intros s; simpl.
  - split; [intros _; by exists s | done].
  - destruct s as [|b s].
    + split; [done | intros [post Hpost]; discriminate].
    + rewrite andb_true_iff, N.eqb_eq, IH. split.
      * intros [-> [post ->]]. by exists post.
      * intros [post Hpost]. injection Hpost as -> ->. eauto.
Qed.

(** [find] answers [None] exactly when there is no occurrence. *)
Lemma find_None_iff (sub s : str) :
  find sub s = None <-> ~ substring sub s.
Proof.
  induction s as [|c s IH]; simpl.
  - destruct (startswith sub []) eqn:Hsw.
    + apply startswith_iff in Hsw as [post Hpost]. split; [done|].
      intros Hno. exfalso. apply Hno. exists [], post. done.
    + split; [|done]. intros _ (pre & post & Heq).
      destruct pre; [|discriminate]. simpl in Heq.
      assert (startswith sub [] = true) by (apply startswith_iff; eauto).
      congruence.
  - destruct (startswith sub (c :: s)) eqn:Hsw.
    + apply startswith_iff in Hsw as [post Hpost]. split; [done|].
      intros Hno. exfalso. apply Hno. exists [], post. done.
    + destruct (find sub s) as [i|] eqn:Hf; simpl.
      * split; [done|]. intros Hno. exfalso.
        assert (Hnone : Some i = None); [|discriminate].
        apply (proj2 IH).
        intros (pre & post & ->). apply Hno. exists (c :: pre), post. done.
      * split; [|done]. intros _ (pre & post & Heq).
        destruct pre as [|c' pre]; simpl in Heq.
        -- assert (startswith sub (c :: s) = true) by (apply startswith_iff; eauto).
           congruence.
        -- injection Heq as -> ->. apply (proj1 IH); [done|]. by exists pre, post.
Qed.

(** A found index is an occurrence, and the leftmost one at that. *)
Lemma find_Some (sub s : str) (i : nat) :
  find sub s = Some i ->
  exists post, s = take i s ++ sub ++ post /\ drop (i + length sub) s = post.
Proof.
  revert i. induction s as [|c s IH]; intros i; simpl.
  - destruct (startswith sub []) eqn:Hsw; [|done].
    intros [= <-]. apply startswith_iff in Hsw as [post Hpost].
    exists post. simpl. split; [done|]. rewrite Hpost. by rewrite drop_app_length.
  - destruct (startswith sub (c :: s)) eqn:Hsw.
    + intros [= <-]. apply startswith_iff in Hsw as [post Hpost].
      exists post. simpl. split; [done|]. rewrite Hpost. by rewrite drop_app_length.
    + destruct (find sub s) as [j|] eqn:Hf; simpl; [|done].
      intros [= <-]. destruct (IH j eq_refl) as (post & Heq & Hdrop).
      exists post. simpl. split; [by rewrite <- Heq | done].
Qed.

(** [len(s.split(sep, maxsplit=1)) < 2] says that [sep] does not occur. *)
Lemma split1_short_iff (sep s : str) :
  (length (split1 sep s) <? 2)%nat = true <-> ~ substring sep s.
Proof.
  rewrite <- find_None_iff. unfold split1.
  destruct (find sep s); simpl; split; done.
Qed.

(** What [rstrip_by] returns: a prefix that does not end in a stripped
    character, the rest being stripped characters only. *)
Lemma rstrip_by_spec (p : N -> bool) (s : str) :
  exists suffix,
    s = rstrip_by p s ++ suffix
    /\ Forall (fun c => p c = true) suffix
    /\ (forall c, last (rstrip_by p s) = Some c -> p c = false).
Proof.
  induction s as [|c s (suffix & Heq & Hall & Hlast)]; simpl.
  - exists []. repeat split; [constructor | done].
  - destruct (rstrip_by p s) as [|d t] eqn:Hr.
    + destruct (p c) eqn:Hc.
      * exists (c :: s). repeat split; [|done].
        simpl in Heq. subst suffix. by constructor.
      * exists s. simpl in Heq. subst suffix. repeat split; [done|].
        simpl. intros c' [= <-]. done.
    + exists suffix. simpl in Heq. rewrite Heq at 1. repeat split; [done|].
      intros c' Hc'. apply Hlast. by rewrite last_cons_cons in Hc'.
Qed.

Lemma rstrip_by_no_match (p : N -> bool) (s : str) :
  (forall c, last s = Some c -> p c = false) -> rstrip_by p s = s.
Proof.
  induction s as [|c s IH]; [done|]. intros Hlast. simpl.
  destruct s as [|d s].
  - simpl. specialize (Hlast c eq_refl). by rewrite Hlast.
  - rewrite IH; [done|]. intros c' Hc'. apply Hlast. by rewrite last_cons_cons.
Qed.

Lemma rstrip_by_idem (p : N -> bool) (s : str) :
  rstrip_by p (rstrip_by p s) = rstrip_by p s.
Proof.
  apply rstrip_by_no_match.
  destruct (rstrip_by_spec p s) as (? & ? & ? & H). exact H.
Qed.

End PyStrFacts.

(* ===================================================================== *)
(** * util/hashlib.py: Int8Hash *)
(* ===================================================================== *)

Module KeccakFacts.

Import Keccak.

Lemma round_length (st : list N) (rc : N) : length (round st rc) = 25%nat.
Proof.
  unfold round, iota, chi.
  destruct (map _ coords) as [|a l] eqn:Hm;
    apply (f_equal (@length N)) in Hm; rewrite length_map in Hm;
    simpl in Hm; [discriminate|]. simpl. lia.
Qed.

Lemma keccak_f_length (st : list N) : length (keccak_f st) = 25%nat.
Proof. unfold keccak_f, RC. cbn [fold_left]. apply round_length. Qed.

Lemma absorb_length (blocks : list (list byte)) (st : list N) :
  length st = 25%nat -> length (fold_left absorb_block blocks st) = 25%nat.
Proof.
  revert st. induction blocks as [|b blocks IH]; intros st Hst; [done|].
  cbn [fold_left]. apply IH. unfold absorb_block. apply keccak_f_length.
Qed.

Lemma bytes_of_lane_length (n : nat) (x : N) : length (bytes_of_lane n x) = n.
Proof. revert x. induction n as [|n IH]; intros x; simpl; [done|]. by rewrite IH. Qed.

Lemma lanes_bytes_length (st : list N) :
  length (flat_map (bytes_of_lane 8) st) = (8 * length st)%nat.
Proof.
  induction st as [|a st IH]; [done|].
  cbn [flat_map]. rewrite length_app, bytes_of_lane_length, IH. simpl. lia.
Qed.

Lemma squeeze_block_length (st : list N) :
  length st = 25%nat -> length (squeeze_block st) = rate.
Proof.
  intros Hst. unfold squeeze_block.
  rewrite length_take, lanes_bytes_length, Hst. reflexivity.
Qed.

Lemma squeeze_length (blocks : nat) (st : list N) :
  length st = 25%nat -> length (squeeze blocks st) = (blocks * rate)%nat.
Proof.
  revert st. induction blocks as [|b IH]; intros st Hst; [done|].
  cbn [squeeze]. rewrite length_app, squeeze_block_length by done.
  rewrite IH by apply keccak_f_length. lia.
Qed.

(** [digest(n)] has [n] bytes. *)
Lemma shake_128_length (msg : list byte) (n : nat) :
  length (shake_128 msg n) = n.
Proof.
  unfold shake_128. rewrite length_take, squeeze_length.
  - pose proof (Nat.div_mod_eq n rate) as Hdm.
    assert (n mod rate < rate)%nat by (apply Nat.mod_upper_bound; done).
    lia.
  - apply absorb_length. by rewrite repeat_length.
Qed.

(** SHAKE is an extendable-output function: a shorter digest is a prefix of
    a longer one. In particular [digest(8)] is the first 8 bytes of any
    longer digest. *)
Lemma shake_128_prefix (msg : list byte) (n m : nat) :
  (n <= m)%nat -> (n <= rate)%nat ->
  shake_128 msg n = take n (shake_128 msg m).
Proof.
  intros Hnm Hn. unfold shake_128.
  set (st := fold_left absorb_block _ _).
  assert (Hst : length st = 25%nat).
  { apply absorb_length. by rewrite repeat_length. }
  rewrite take_take, Nat.min_l by done.
  cbn [squeeze].
  rewrite !take_app_le; [done| |]; rewrite squeeze_block_length; done.
Qed.

End KeccakFacts.

Module Int8HashFacts.

Import Py Int8Hash.

Lemma from_bytes_fold_bounds (bs : list byte) (acc : Z) :
  0 <= acc ->
  acc * 256 ^ Z.of_nat (length bs)
  <= fold_left (fun acc b => acc * 256 + Z.of_N (Byte.to_N b)) bs acc
  < (acc + 1) * 256 ^ Z.of_nat (length bs).
Proof.
  revert acc. induction bs as [|b bs IH]; intros acc Hacc.
  - simpl. lia.
  - cbn [fold_left length]. rewrite Nat2Z.inj_succ, Z.pow_succ_r by lia.
    pose proof (Byte.to_N_bounded b) as Hb.
    specialize (IH (acc * 256 + Z.of_N (Byte.to_N b)) ltac:(lia)).
    assert (0 < 256 ^ Z.of_nat (length bs)) by (apply Z.pow_pos_nonneg; lia).
    nia.
Qed.

(** The unsigned value of [n] bytes is below [256 ^ n]. *)
Lemma from_bytes_big_range (bs : list byte) :
  0 <= from_bytes_big bs < 256 ^ Z.of_nat (length bs).
Proof.
  pose proof (from_bytes_fold_bounds bs 0 ltac:(lia)) as H.
  unfold from_bytes_big. lia.
Qed.

(** The signed value of 8 bytes is a 64-bit two's complement number. *)
Lemma from_bytes_big_signed_range (bs : list byte) :
  length bs = 8%nat ->
  - 2 ^ 63 <= from_bytes_big_signed bs <= 2 ^ 63 - 1.
Proof.
  intros Hlen. unfold from_bytes_big_signed.
  pose proof (from_bytes_big_range bs) as Hu. rewrite Hlen in *.
  change (8 * Z.of_nat 8) with 64. change (64 - 1) with 63.
  change (256 ^ Z.of_nat 8) with (2 ^ 64) in Hu.
  set (u := from_bytes_big bs) in *.
  rewrite Z.testbit_odd, Z.shiftr_div_pow2 by lia.
  assert (Hq : 0 <= u / 2 ^ 63 < 2).
  { split; [apply Z.div_pos; lia | apply Z.div_lt_upper_bound; lia]. }
  pose proof (Z.div_mod u (2 ^ 63) ltac:(lia)) as Hdm.
  pose proof (Z.mod_pos_bound u (2 ^ 63) ltac:(lia)) as Hm.
  destruct (Z.odd (u / 2 ^ 63)) eqn:Hodd.
  - assert (u / 2 ^ 63 = 1).
    { destruct (Z.eq_dec (u / 2 ^ 63) 0) as [E|]; [rewrite E in Hodd; discriminate | lia]. }
    lia.
  - assert (u / 2 ^ 63 = 0).
    { destruct (Z.eq_dec (u / 2 ^ 63) 1) as [E|]; [rewrite E in Hodd; discriminate | lia]. }
    lia.
Qed.

Lemma MIN_value : MIN = - 2 ^ 63.
Proof. reflexivity. Qed.

Lemma MAX_value : MAX = 2 ^ 63 - 1.
Proof. reflexivity. Qed.

(** A string has a UTF-8 encoding as soon as it holds no lone surrogate
    (and no number beyond U+10FFFF, which a [str] cannot hold). *)
Lemma encode_total (text : PyStr.str) :
  Forall (fun c => PyStr.encodable c = true) text ->
  exists seed, PyStr.encode text = Some seed.
Proof.
  induction 1 as [|c text Hc _ [seed IH]]; simpl; [by eexists|].
  rewrite Hc, IH. by eexists.
Qed.

(** C10, as the code has it. For every string that has a UTF-8 encoding,
    [Int8Hash.as_int] returns the 8-byte SHAKE-128 digest of that encoding
    read as a big-endian signed integer; the digest is the first 8 bytes of
    every longer SHAKE-128 output; the assertion of the source never fails
    and the result lies in [-2^63, 2^63 - 1]. *)
Theorem as_int_encodable (text : PyStr.str) (seed : list byte) :
  PyStr.encode text = Some seed ->
  as_int text = Ok (from_bytes_big_signed (Keccak.shake_128 seed 8))
  /\ (forall m, (8 <= m)%nat ->
        Keccak.shake_128 seed 8 = take 8 (Keccak.shake_128 seed m))
  /\ MIN = - 2 ^ 63 /\ MAX = 2 ^ 63 - 1
  /\ MIN <= from_bytes_big_signed (Keccak.shake_128 seed 8) <= MAX.
Proof.
  intros Henc.
  pose proof (from_bytes_big_signed_range (Keccak.shake_128 seed 8)
                (KeccakFacts.shake_128_length seed 8)) as Hrange.
  rewrite <- MIN_value, <- MAX_value in Hrange.
  repeat split; try lia.
  - unfold as_int. rewrite Henc. change BYTES with 8%nat.
    destruct Hrange as [Hlo Hhi].
    apply Z.leb_le in Hlo, Hhi. by rewrite Hlo, Hhi.
  - intros m Hm. apply KeccakFacts.shake_128_prefix; [done|].
    unfold Keccak.rate. lia.
Qed.

(** The theorem at the empty string, whose encoding is empty. *)
Lemma as_int_encodable_witness :
  PyStr.encode [] = Some []
  /\ as_int [] = Ok (from_bytes_big_signed (Keccak.shake_128 [] 8))
  /\ MIN <= from_bytes_big_signed (Keccak.shake_128 [] 8) <= MAX.
Proof.
  pose proof (as_int_encodable [] [] eq_refl) as (H1 & _ & _ & _ & H2).
  split; [reflexivity | split; [exact H1 | exact H2]].
Defined.

(** C10, where it fails. A [str] may hold a lone surrogate; [text.encode()]
    then raises [UnicodeEncodeError] and [as_int] returns no integer. *)
Lemma as_int_lone_surrogate :
  as_int [55296%N] = Raise UnicodeEncodeError
  /\ ~ (exists h, as_int [55296%N] = Ok h /\ MIN <= h <= MAX).
Proof.
  split; [reflexivity|]. intros (h & Hh & _). discriminate.
Qed.

(** Test vectors, from [hashlib.shake_128(...).digest(8)]; the first is
    [7f9c2ba4e88f827d]. *)
Example as_int_empty : as_int [] = Ok 9195272526460060285.
Proof. vm_compute. reflexivity. Qed.

Example as_int_fox :
  as_int (PyStr.of_string "The quick brown fox jumps over the lazy dog")
  = Ok (-855633092485646056).
Proof. vm_compute. reflexivity. Qed.

Example as_int_non_ascii :
  as_int [8220%N; 233%N; 128512%N] = Ok 5969204915478750431.
Proof. vm_compute. reflexivity. Qed.

End Int8HashFacts.

(* ===================================================================== *)
(** * feed.py: the title stages of the entry pipeline *)
(* ===================================================================== *)

Module TitleStages.

Import PyStr Feed.

(** The stages change titles only, entry by entry. *)
Lemma stage_remove_trailing_period_lookup (entries : list FeedEntry.t) (i : nat) :
  stage_remove_trailing_period entries !! i
  = (fun entry =>
       FeedEntry.set_title (remove_trailing_period (FeedEntry.title entry)) entry)
      <$> entries !! i.
Proof. unfold stage_remove_trailing_period. apply list_lookup_fmap. Qed.

Lemma stage_strip_unicode_quotes_lookup (entries : list FeedEntry.t) (i : nat) :
  stage_strip_unicode_quotes entries !! i
  = (fun entry =>
       FeedEntry.set_title (strip_unicode_quotes (FeedEntry.title entry)) entry)
      <$> entries !! i.
Proof. unfold stage_strip_unicode_quotes. apply list_lookup_fmap. Qed.

(** C6. For every entry of the list the trailing-period stage works on, the
    stage keeps every field but the title, and the new title is the old one
    when the right-stripped title contains [". "], and otherwise the old
    title right-stripped of whitespace and then of trailing ['.']. The
    source's test [len(... .split(". ", maxsplit=1)) < 2] is that
    substring test. *)
Theorem remove_trailing_period_stage
    (entries : list FeedEntry.t) (i : nat) (entry : FeedEntry.t) :
  entries !! i = Some entry ->
  exists entry',
    stage_remove_trailing_period entries !! i = Some entry'
    /\ FeedEntry.long_url entry' = FeedEntry.long_url entry
    /\ FeedEntry.summary entry' = FeedEntry.summary entry
    /\ FeedEntry.categories entry' = FeedEntry.categories entry
    /\ FeedEntry.short_url entry' = FeedEntry.short_url entry
    /\ (substring (of_string ". ") (rstrip (FeedEntry.title entry)) ->
        FeedEntry.title entry' = FeedEntry.title entry)
    /\ (~ substring (of_string ". ") (rstrip (FeedEntry.title entry)) ->
        FeedEntry.title entry'
        = rstrip_chars (of_string ".") (rstrip (FeedEntry.title entry)))
    /\ length (stage_remove_trailing_period entries) = length entries.
Proof.
  intros Hi. eexists. rewrite stage_remove_trailing_period_lookup, Hi.
  split; [reflexivity|].
  change (FeedEntry.title (FeedEntry.set_title ?v ?e)) with v.
  repeat split.
  - intros Hsub. unfold remove_trailing_period.
    destruct (length (split1 _ _) <? 2)%nat eqn:Hlen; [|done].
    apply PyStrFacts.split1_short_iff in Hlen. done.
  - intros Hno. unfold remove_trailing_period.
    apply PyStrFacts.split1_short_iff in Hno. by rewrite Hno.
  - unfold stage_remove_trailing_period. apply length_map.
Qed.

(** The theorem on a PubMed-style title, ["Results. "] with a trailing
    blank: no [". "] is left after the right-strip, so the period goes. *)
Lemma remove_trailing_period_stage_witness :
  exists entry',
    stage_remove_trailing_period [Samples.entry_of_title (of_string "Results. ")] !! 0%nat
    = Some entry'
    /\ FeedEntry.title entry' = of_string "Results".
Proof.
  destruct (remove_trailing_period_stage
              [Samples.entry_of_title (of_string "Results. ")] 0
              (Samples.entry_of_title (of_string "Results. ")) eq_refl)
    as (entry' & Hlookup & _ & _ & _ & _ & _ & Hstrip & _).
  exists entry'. split; [exact Hlookup|].
  rewrite Hstrip; [reflexivity|].
  apply PyStrFacts.find_None_iff. reflexivity.
Defined.

Example remove_trailing_period_two_sentences :
  remove_trailing_period (of_string "One. Two.") = of_string "One. Two.".
Proof. reflexivity. Qed.

Example remove_trailing_period_leaves_blank :
  remove_trailing_period (of_string "a .") = of_string "a ".
Proof. reflexivity. Qed.

(** [title[1:-1]] of a title with an enclosing pair is its interior. *)
Lemma inner_slice (a b : N) (inner : str) :
  take (length (a :: inner ++ [b]) - 2) (drop 1 (a :: inner ++ [b])) = inner.
Proof.
  cbn [length drop]. rewrite length_app. cbn [length].
  replace (S (length inner + 1) - 2)%nat with (length inner) by lia.
  unfold drop. cbn [skipn]. apply take_app_length.
Qed.

(** C7, as the code has it. A title of more than two characters that
    starts with U+201C, ends with U+201D and has neither quote in between
    loses the enclosing pair. *)
Theorem strip_unicode_quotes_stage
    (entries : list FeedEntry.t) (i : nat) (entry : FeedEntry.t) (inner : str) :
  entries !! i = Some entry ->
  FeedEntry.title entry = quote_begin :: inner ++ [quote_end] ->
  inner <> [] ->
  quote_begin ∉ inner ->
  quote_end ∉ inner ->
  stage_strip_unicode_quotes entries !! i = Some (FeedEntry.set_title inner entry).
Proof.
  intros Hi Htitle Hne Hb He.
  rewrite stage_strip_unicode_quotes_lookup, Hi. simpl. f_equal. f_equal.
  unfold strip_unicode_quotes. rewrite Htitle.
  assert (Hlen : (2 <? length (quote_begin :: inner ++ [quote_end]))%nat = true).
  { apply Nat.ltb_lt. destruct inner; [done|]. simpl. rewrite length_app. simpl. lia. }
  rewrite Hlen.
  assert (Hlast : last (quote_begin :: inner ++ [quote_end]) = Some quote_end).
  { change (quote_begin :: inner ++ [quote_end])
      with ((quote_begin :: inner) ++ [quote_end]).
    apply last_snoc. }
  rewrite Hlast.
  rewrite (bool_decide_eq_true_2 _
             (eq_refl : (quote_begin :: inner ++ [quote_end]) !! 0%nat = Some quote_begin)).
  rewrite (bool_decide_eq_true_2 (Some quote_end = Some quote_end) eq_refl).
  cbn [andb]. rewrite inner_slice. unfold contains_char.
  rewrite !bool_decide_eq_false_2 by done. reflexivity.
Qed.

(** The theorem on the title [“Sleep and memory”]. *)
Lemma strip_unicode_quotes_stage_witness :
  stage_strip_unicode_quotes
    [Samples.entry_of_title (quote_begin :: of_string "Sleep and memory" ++ [quote_end])]
    !! 0%nat
  = Some (Samples.entry_of_title (of_string "Sleep and memory")).
Proof.
  apply (strip_unicode_quotes_stage
           [Samples.entry_of_title (quote_begin :: of_string "Sleep and memory" ++ [quote_end])]
           0 _ (of_string "Sleep and memory") eq_refl eq_refl).
  - discriminate.
  - apply (bool_decide_eq_false_1 _). reflexivity.
  - apply (bool_decide_eq_false_1 _). reflexivity.
Defined.

(** C7, where it fails. The two-character title made of the pair alone has
    U+201C first, U+201D last and an empty interior, yet the stage leaves it
    as it is: the source asks for [len(title) > 2]. *)
Lemma strip_unicode_quotes_bare_pair :
  FeedEntry.title (Samples.entry_of_title [quote_begin; quote_end])
  = quote_begin :: [] ++ [quote_end]
  /\ stage_strip_unicode_quotes [Samples.entry_of_title [quote_begin; quote_end]]
     = [Samples.entry_of_title [quote_begin; quote_end]]
  /\ ~ ((stage_strip_unicode_quotes [Samples.entry_of_title [quote_begin; quote_end]] !! 0%nat)
        = Some (FeedEntry.set_title [] (Samples.entry_of_title [quote_begin; quote_end]))).
Proof. repeat split. intros H. discriminate. Qed.

(** Outside the case of the theorem the stage changes nothing: a title is
    either stripped of an enclosing pair or kept. *)
Lemma strip_unicode_quotes_cases (title : str) :
  strip_unicode_quotes title = title
  \/ (exists inner,
        title = quote_begin :: inner ++ [quote_end]
        /\ inner <> [] /\ (quote_begin ∉ inner) /\ (quote_end ∉ inner)
        /\ strip_unicode_quotes title = inner).
Proof.
  unfold strip_unicode_quotes.
  destruct (2 <? length title)%nat eqn:Hlen; [|by left].
  destruct (bool_decide (title !! 0%nat = Some quote_begin)) eqn:Hb; [|by left].
  destruct (bool_decide (last title = Some quote_end)) eqn:He; [|by left].
  simpl "&&". unfold contains_char.
  destruct (bool_decide (quote_begin ∈ _)) eqn:H1; [by left|].
  destruct (bool_decide (quote_end ∈ _)) eqn:H2; [by left|].
  right. simpl.
  apply bool_decide_eq_true_1 in Hb, He.
  apply bool_decide_eq_false_1 in H1, H2.
  apply Nat.ltb_lt in Hlen.
  destruct title as [|c title]; [done|]. simpl in Hb. injection Hb as ->.
  induction title as [|d inner _] using rev_ind.
  - simpl in Hlen. lia.
  - change (quote_begin :: inner ++ [d]) with ((quote_begin :: inner) ++ [d]) in He.
    rewrite last_snoc in He. injection He as ->.
    rewrite inner_slice in *. exists inner. repeat split; try done.
    intros ->. simpl in Hlen. lia.
Qed.

End TitleStages.

(* ===================================================================== *)
(** * feed.py: unposted and postable entries *)
(* ===================================================================== *)

Module FeedFacts.

Import PyStr Py Machine Effects Frames.

(** Unfold one layer of the monad. *)
Ltac mstep :=
  repeat progress
    (unfold bind, gets, ret, raise, diverge, modify, getkey, getitem,
            db_is_new_feed, db_select_unposted_for_channel,
            db_select_unposted_for_channel_feed, db_insert_posted;
     cbn beta iota).

(** ** Entries are distinct by URL *)

Lemma dedupe_step_NoDup (entries acc : list FeedEntry.t) :
  NoDup (map FeedEntry.long_url acc) ->
  NoDup (map FeedEntry.long_url
           (fold_left
              (fun acc e =>
                 if bool_decide (FeedEntry.long_url e ∈ map FeedEntry.long_url acc)
                 then acc else acc ++ [e])
              entries acc)).
Proof.
  revert acc. induction entries as [|e entries IH]; intros acc Hacc; [done|].
  cbn [fold_left]. apply IH. case_bool_decide as Hin; [done|].
  rewrite map_app. apply NoDup_app. split; [done|]. split.
  - intros u Hu [->|[]%elem_of_nil]%elem_of_cons. done.
  - apply NoDup_singleton.
Qed.

(** [_dedupe_entries] returns entries with pairwise distinct [long_url]s. *)
Lemma dedupe_entries_NoDup (entries : list FeedEntry.t) :
  NoDup (map FeedEntry.long_url (Feed._dedupe_entries entries)).
Proof. apply dedupe_step_NoDup. constructor. Qed.

Lemma dedupe_step_keeps (entries acc : list FeedEntry.t) (u : str) :
  u ∈ map FeedEntry.long_url acc \/ u ∈ map FeedEntry.long_url entries ->
  u ∈ map FeedEntry.long_url
        (fold_left
           (fun acc e =>
              if bool_decide (FeedEntry.long_url e ∈ map FeedEntry.long_url acc)
              then acc else acc ++ [e])
           entries acc).
Proof.
  revert acc. induction entries as [|e entries IH]; intros acc Hu.
  - destruct Hu as [Hu|Hu]; [done | by apply elem_of_nil in Hu].
  - cbn [fold_left]. apply IH. cbn [map] in Hu.
    destruct Hu as [Hu|[->|Hu]%elem_of_cons].
    + left. case_bool_decide; [done|]. rewrite map_app. apply elem_of_app. by left.
    + left. case_bool_decide; [done|]. rewrite map_app. apply elem_of_app.
      right. by left.
    + by right.
Qed.

(** ... and drops no URL. *)
Lemma dedupe_entries_keeps (entries : list FeedEntry.t) (u : str) :
  u ∈ map FeedEntry.long_url entries ->
  u ∈ map FeedEntry.long_url (Feed._dedupe_entries entries).
Proof. intros Hu. apply dedupe_step_keeps. by right. Qed.

(** The entries a [Feed] object is built with are distinct by URL: every
    path through [_process_entries] ends in [_dedupe_entries] or returns
    the empty list. *)
Lemma process_entries_NoDup (env : Env) (channel name : str)
    (feed_config : Config.FeedConfig) (entries : list FeedEntry.t) :
  NoDup (map FeedEntry.long_url
           (Feed._process_entries env channel name feed_config entries)).
Proof.
  unfold Feed._process_entries. cbv zeta.
  repeat match goal with
         | |- context [if ?b && negb (truthy ?l) then _ else _] =>
             let Hb := fresh "Hb" in
             destruct (b && negb (truthy l)) eqn:Hb;
             [apply andb_true_iff in Hb as [_ Hb];
              destruct l; [constructor | discriminate] |]
         end.
  apply dedupe_entries_NoDup.
Qed.

Lemma filter_map_NoDup (p : FeedEntry.t -> bool) (entries : list FeedEntry.t) :
  NoDup (map FeedEntry.long_url entries) ->
  NoDup (map FeedEntry.long_url (List.filter p entries)).
Proof.
  induction entries as [|e entries IH]; [done|].
  cbn [map List.filter]. intros [Hnot Hnd]%NoDup_cons.
  destruct (p e); [|by apply IH].
  cbn [map]. apply NoDup_cons. split; [|by apply IH].
  intros (e' & Heq & He')%list_elem_of_fmap. apply Hnot.
  apply list_elem_of_fmap. exists e'. split; [done|].
  apply list_elem_of_In, filter_In in He' as [He' _]. by apply list_elem_of_In.
Qed.

Lemma take_map_NoDup (n : nat) (entries : list FeedEntry.t) :
  NoDup (map FeedEntry.long_url entries) ->
  NoDup (map FeedEntry.long_url (take n entries)).
Proof.
  intros Hnd. rewrite <- (take_drop n entries), map_app in Hnd.
  by apply NoDup_app in Hnd as [Hnd _].
Qed.

Section WithEnv.

Context (env : Env).

Lemma unposted_entries_cached (s : State) (cached : list FeedEntry.t) :
  FeedObject.unposted_entries_cache (feed s) = Some cached ->
  Feed.unposted_entries env s = (Ok cached, s).
Proof. intros H. unfold Feed.unposted_entries. mstep. by rewrite H. Qed.

Lemma unposted_entries_fresh (s : State) :
  FeedObject.unposted_entries_cache (feed s) = None ->
  dedup_strategy env (feed s) = of_string "channel"
  \/ dedup_strategy env (feed s) = of_string "feed" ->
  Feed.unposted_entries env s
  = (Ok (unposted_list env s), cache_unposted (unposted_list env s) s).
Proof.
  intros Hc Hs. unfold Feed.unposted_entries. mstep. rewrite Hc.
  fold (dedup_strategy env (feed s)).
  unfold unposted_list, selected_urls.
  destruct Hs as [Hs|Hs]; rewrite Hs.
  - rewrite bool_decide_eq_true_2 by done. reflexivity.
  - rewrite (bool_decide_eq_false_2 (of_string "feed" = of_string "channel")) by done.
    rewrite bool_decide_eq_true_2 by done. reflexivity.
Qed.

(** Whatever it returns, [unposted_entries] touches nothing but its own
    cache slot. *)
Lemma unposted_entries_state (s s' : State) (r : outcome (list FeedEntry.t)) :
  Feed.unposted_entries env s = (r, s') ->
  exists c, s' = set_feed (FeedObject.set_unposted_entries_cache c (feed s)) s.
Proof.
  unfold Feed.unposted_entries. mstep.
  destruct (FeedObject.unposted_entries_cache (feed s)) as [cached|] eqn:Hc.
  - intros [= <- <-]. exists (Some cached).
    destruct s as [? ? ? ? ? ? ? ? ? ? ? ? f]. destruct f. simpl in *. by subst.
  - repeat case_bool_decide; intros [= <- <-]; try (eexists; reflexivity).
    exists None. destruct s as [? ? ? ? ? ? ? ? ? ? ? ? f]. destruct f. simpl in *. by subst.
Qed.

(** The unposted entries of a feed with distinct URLs have distinct URLs,
    and none of them has a row under this channel and feed. *)
Lemma unposted_list_NoDup (s : State) :
  NoDup (map FeedEntry.long_url (FeedObject.entries (feed s))) ->
  NoDup (map FeedEntry.long_url (unposted_list env s)).
Proof. apply filter_map_NoDup. Qed.

Lemma unposted_list_new (s : State) (u : str) :
  u ∈ map FeedEntry.long_url (unposted_list env s) ->
  (FeedObject.channel (feed s), FeedObject.name (feed s), u) ∉ db s.
Proof.
  intros (e & -> & He)%list_elem_of_fmap.
  apply list_elem_of_In, filter_In in He as [_ He].
  apply bool_decide_eq_true_1 in He.
  unfold selected_urls in He. case_bool_decide.
  - unfold Database.select_unposted_for_channel in He.
    apply list_elem_of_filter in He as [Hall _].
    intros Hrow. apply (Hall _ Hrow). done.
  - unfold Database.select_unposted_for_channel_feed in He.
    by apply list_elem_of_filter in He as [Hnot _].
Qed.

(** What the loop over [enumerate(entries)] leaves: entry [i] gets element
    [index + i] of the shortener's output, and nothing else changes. *)
Lemma assign_short_urls_spec
    (entries : list FeedEntry.t) (short_urls : list str) (index : nat) :
  (index + length entries <= length short_urls)%nat ->
  exists entries',
    Feed.assign_short_urls index entries short_urls = Ok entries'
    /\ length entries' = length entries
    /\ forall i entry,
         entries !! i = Some entry ->
         entries' !! i
         = Some (FeedEntry.set_short_url (short_urls !! (index + i)%nat) entry).
Proof.
  revert index. induction entries as [|e entries IH]; intros index Hlen.
  - exists []. repeat split. intros i entry Hi. done.
  - cbn [length] in Hlen. cbn [Feed.assign_short_urls].
    destruct (short_urls !! index) as [u|] eqn:Hu.
    2:{ apply lookup_ge_None in Hu. lia. }
    destruct (IH (S index) ltac:(lia)) as (rest' & Hrest & Hlen' & Hlook).
    rewrite Hrest. eexists. split; [reflexivity|]. split; [simpl; lia|].
    intros [|i] entry Hi; simpl in Hi.
    + injection Hi as <-. simpl. by rewrite Nat.add_0_r, Hu.
    + simpl. rewrite (Hlook i entry Hi). do 2 f_equal. f_equal. lia.
Qed.

(** With fewer short URLs than entries the loop raises [IndexError]. *)
Lemma assign_short_urls_short
    (entries : list FeedEntry.t) (short_urls : list str) (index : nat) :
  (index <= length short_urls)%nat ->
  (length short_urls < index + length entries)%nat ->
  Feed.assign_short_urls index entries short_urls = Raise IndexError.
Proof.
  revert index. induction entries as [|e entries IH]; intros index Hle Hlen.
  - simpl in Hlen. lia.
  - cbn [length] in Hlen. cbn [Feed.assign_short_urls].
    destruct (short_urls !! index) as [u|] eqn:Hu; [|done].
    apply lookup_lt_Some in Hu.
    rewrite IH; [done | lia | lia].
Qed.

Lemma feed_only_refl (s : State) : feed_only s s.
Proof. split; [by destruct s | by repeat split]. Qed.

Lemma feed_only_trans (s1 s2 s3 : State) :
  feed_only s1 s2 -> feed_only s2 s3 -> feed_only s1 s3.
Proof.
  intros [H1 R1] [H2 R2]. split.
  - rewrite H2 at 1. rewrite H1. reflexivity.
  - unfold recached in *. destruct_and!. repeat split; congruence.
Qed.

Lemma feed_only_set (s : State) (f : FeedObject.t) :
  recached (feed s) f -> feed_only s (set_feed f s).
Proof. intros H. split; [reflexivity | exact H]. Qed.

Lemma unposted_entries_feed_only (s s' : State) (r : outcome (list FeedEntry.t)) :
  Feed.unposted_entries env s = (r, s') -> feed_only s s'.
Proof.
  intros H. destruct (unposted_entries_state _ _ _ H) as [c ->].
  apply feed_only_set. by repeat split.
Qed.

Lemma postable_entries_cached (s : State) (cached : list FeedEntry.t) :
  FeedObject.postable_entries_cache (feed s) = Some cached ->
  Feed.postable_entries env s = (Ok cached, s).
Proof. intros H. unfold Feed.postable_entries. mstep. by rewrite H. Qed.

(** Whatever it returns, [postable_entries] touches nothing but the cache
    slots of the held feed; and what it returns normally it has cached. *)
Lemma postable_entries_effect (s s' : State) (r : outcome (list FeedEntry.t)) :
  Feed.postable_entries env s = (r, s') ->
  feed_only s s'
  /\ (forall postable, r = Ok postable ->
        FeedObject.postable_entries_cache (feed s') = Some postable).
Proof.
  unfold Feed.postable_entries. unfold bind at 1. unfold gets at 1. cbn beta iota.
  destruct (FeedObject.postable_entries_cache (feed s)) as [cached|] eqn:Hc.
  { intros [= <- <-]. split; [apply feed_only_refl|]. by intros ? [= <-]. }
  unfold bind at 1.
  destruct (Feed.unposted_entries env s) as [ru s0] eqn:Hun.
  pose proof (unposted_entries_feed_only _ _ _ Hun) as Hfo.
  destruct ru as [entries|e|].
  2,3: intros [= <- <-]; split; [exact Hfo | by intros ? [=]].
  assert (Hfin : forall (entries' : list FeedEntry.t),
    feed_only s (cache_postable entries' s0)
    /\ (forall postable, Ok entries' = Ok postable ->
          FeedObject.postable_entries_cache (feed (cache_postable entries' s0))
          = Some postable)).
  { intros entries'. split.
    - eapply feed_only_trans; [exact Hfo|]. apply feed_only_set. by repeat split.
    - by intros ? [= <-]. }
  mstep.
  repeat match goal with
         | |- context [match ?x with _ => _ end] =>
             lazymatch x with
             | context [match _ with _ => _ end] => fail
             | _ => destruct x eqn:?
             end
         end;
    intros [= <- <-]; try apply Hfin; (split; [exact Hfo | by intros ? [=]]).
Qed.

(** On a feed as the reader hands it over, with both slots empty, a normal
    return of [postable_entries] leaves in the other slot the unposted
    entries as the store had them. *)
Lemma postable_entries_fresh_unposted (s s1 : State) (postable : list FeedEntry.t) :
  FeedObject.postable_entries_cache (feed s) = None ->
  FeedObject.unposted_entries_cache (feed s) = None ->
  dedup_strategy env (feed s) = of_string "channel"
  \/ dedup_strategy env (feed s) = of_string "feed" ->
  Feed.postable_entries env s = (Ok postable, s1) ->
  FeedObject.unposted_entries_cache (feed s1) = Some (unposted_list env s).
Proof.
  intros Hp Hu Hs.
  unfold Feed.postable_entries. unfold bind at 1. unfold gets at 1. cbn beta iota.
  rewrite Hp. unfold bind at 1.
  rewrite (unposted_entries_fresh s Hu Hs).
  mstep.
  repeat match goal with
         | |- context [match ?x with _ => _ end] =>
             lazymatch x with
             | context [match _ with _ => _ end] => fail
             | _ => destruct x eqn:?
             end
         end;
    intros [= <- <-]; reflexivity.
Qed.

(** C5. Read on a feed whose [postable_entries] slot is still empty, and
    with [unposted] what [unposted_entries] returns: [postable_entries]
    returns [unposted] cut to its first [NEW_FEED_POSTS_MAX[config["new"]]]
    entries when the store has no row for [(channel, feed)], and [unposted]
    itself otherwise (and caches what it returns, leaving the store alone).
    If the result is non-empty and [shorten] is set, entry [i] of the result
    is entry [i] of that list with [short_url] set to element [i] of what
    the shortener returned for the list of their [long_url]s; otherwise the
    entries are returned as they are. The cap is a count, [0 <= n]. *)
Theorem postable_entries_spec (s s1 : State) (unposted : list FeedEntry.t)
    (tag : str) (n : Z) (b : bool) (short_urls : list str) :
  let self := feed s in
  let is_new :=
    Database.is_new_feed (db s) (FeedObject.channel self) (FeedObject.name self) in
  let base := if is_new then take (Z.to_nat n) unposted else unposted in
  FeedObject.postable_entries_cache self = None ->
  Feed.unposted_entries env s = (Ok unposted, s1) ->
  (is_new = true ->
   Config.new (FeedObject.config self) = Some tag
   /\ Config.NEW_FEED_POSTS_MAX (config env) !! tag = Some (Some n)
   /\ 0 <= n) ->
  (base <> [] ->
   Config.shorten (FeedObject.config self) = Some b
   /\ (b = true ->
       shorten_urls env (map FeedEntry.long_url base) = Ok short_urls
       /\ (length base <= length short_urls)%nat)) ->
  exists postable s',
    Feed.postable_entries env s = (Ok postable, s')
    /\ s' = cache_postable postable s1
    /\ db s' = db s
    /\ length postable = length base
    /\ (base = [] \/ b = false -> postable = base)
    /\ (base <> [] -> b = true ->
        forall i entry,
          base !! i = Some entry ->
          postable !! i = Some (FeedEntry.set_short_url (short_urls !! i) entry)).
Proof.
  intros self is_new base Hcache Hun Hnew Hshort.
  destruct (unposted_entries_state _ _ _ Hun) as [c Hs1].
  assert (Hdb1 : db s1 = db s) by (by subst s1).
  unfold Feed.postable_entries.
  unfold bind at 1. unfold gets at 1. cbn beta iota.
  fold self. rewrite Hcache.
  unfold bind at 1. rewrite Hun.
  unfold bind at 1. unfold db_is_new_feed, gets. cbn beta iota.
  rewrite Hdb1. fold is_new.
  assert (Hbase :
    (if is_new
     then tag0 <- getkey "new" (Config.new (FeedObject.config self)) ;;
          max_posts <- getitem (Config.NEW_FEED_POSTS_MAX (config env)) tag0 ;;
          ret (slice_to max_posts unposted)
     else ret unposted) s1 = (Ok base, s1)).
  { subst base. destruct is_new eqn:Hn; [|reflexivity].
    destruct (Hnew eq_refl) as (Htag & Hmax & Hn0).
    rewrite Htag. mstep. rewrite Hmax. unfold slice_to.
    destruct (n <? 0) eqn:Hneg; [lia | reflexivity]. }
  unfold bind at 1. rewrite Hbase.
  destruct base as [|e0 base'] eqn:Hb.
  - exists [], (cache_postable [] s1). mstep. cbn [truthy].
    repeat split; try done.
  - destruct (Hshort ltac:(done)) as [Hsh Hurls].
    cbn [truthy]. rewrite Hsh. destruct b.
    + destruct (Hurls eq_refl) as [Hok Hlen].
      destruct (assign_short_urls_spec (e0 :: base') short_urls 0 Hlen)
        as (entries' & Hassign & Hlen' & Hlook).
      exists entries', (cache_postable entries' s1).
      mstep. rewrite Hok, Hassign.
      repeat split; try done.
      intros [H|H]; done.
    + exists (e0 :: base'), (cache_postable (e0 :: base') s1).
      mstep. repeat split; try done.
Qed.

End WithEnv.

(** The theorem on the sample feed: new, twelve unposted entries, a cap of
    5, shortening on. Five entries come back, and the third carries the
    third short URL. *)
Lemma postable_entries_spec_witness :
  let fc := Samples.feed_config 2 true None in
  let e := Samples.env fc (fun _ => true) in
  let s := Samples.state 2000 (Samples.feed_object fc 900 Samples.entries12) in
  exists postable s',
    Feed.postable_entries e s = (Ok postable, s')
    /\ length postable = 5%nat
    /\ postable !! 2%nat
       = Some (FeedEntry.set_short_url (Some (of_string "https://j.mp/c"))
                                       (Samples.entry 2)).
Proof.
  intros fc e s.
  destruct (postable_entries_spec e s
              (cache_unposted Samples.entries12 s) Samples.entries12
              (of_string "5") 5 true
              (map (fun u => of_string "https://j.mp/" ++ drop 19 u)
                   (map FeedEntry.long_url (take 5 Samples.entries12))))
    as (postable & s' & Hrun & _ & _ & Hlen & _ & Hlook).
  - reflexivity.
  - vm_compute. reflexivity.
  - intros _. split; [reflexivity | split; [vm_compute; reflexivity | lia]].
  - intros _. split; [reflexivity|]. intros _.
    split; [vm_compute; reflexivity | vm_compute; lia].
  - exists postable, s'. split; [exact Hrun|]. split; [exact Hlen|].
    apply (Hlook ltac:(discriminate) eq_refl 2%nat (Samples.entry 2)).
    reflexivity.
Defined.

End FeedFacts.

(* ===================================================================== *)
(** * feed.py: reading the URLs of a feed *)
(* ===================================================================== *)

Module ReadFacts.

Import PyStr Py Machine Effects.

Lemma oset_add_keeps (s : list str) (x u : str) : u ∈ s -> u ∈ Feed.oset_add s x.
Proof.
  intros Hu. unfold Feed.oset_add. case_bool_decide; [done|].
  apply elem_of_app. by left.
Qed.

Lemma oset_update_keeps (xs s : list str) (u : str) :
  u ∈ s -> u ∈ Feed.oset_update s xs.
Proof.
  revert s. induction xs as [|x xs IH]; intros s Hu; [done|].
  unfold Feed.oset_update. cbn [fold_left]. apply IH. by apply oset_add_keeps.
Qed.

(** [alerts.empty] decides, and an absent key counts as true. *)
Lemma alerts_empty_setting (feed_config : Config.FeedConfig) :
  (forall b, Config.alerts feed_config = Some (Config.mkAlerts (Some b)) ->
             Feed.alerts_empty feed_config = b)
  /\ (Config.alerts feed_config = None -> Feed.alerts_empty feed_config = true)
  /\ (Config.alerts feed_config = Some (Config.mkAlerts None) ->
      Feed.alerts_empty feed_config = true).
Proof.
  unfold Feed.alerts_empty.
  split; [|split]; [intros b H | intros H | intros H]; rewrite H; reflexivity.
Qed.

Section WithEnv.

Context (env : Env).

(** C8. A URL whose parse yields no entry never stops the poll: the step
    returns normally, every URL that was pending is still pending, and the
    loop goes on from there. What it leaves behind is one alert if
    [alerts.empty] is true, which it is when the configuration says so or
    says nothing, and one warning in the log if the configuration says
    false; never both. *)
Theorem empty_parse_alerts_and_reads_on
    (fuel : nat) (feed_config : Config.FeedConfig) (url : str)
    (rest urls_read : list str) (entries : list FeedEntry.t)
    (follow_urls : list str) (s : State) :
  read_url env url = Ok ([], follow_urls) ->
  exists s1 urls_pending,
    Feed.read_one env feed_config url [] follow_urls rest urls_read entries s
    = (Ok (urls_pending, Feed.oset_add urls_read url, entries ++ []), s1)
    /\ (forall u, u ∈ rest -> u ∈ urls_pending)
    /\ Feed.read_loop env (S fuel) feed_config (url :: rest) urls_read entries s
       = Feed.read_loop env fuel feed_config urls_pending
                        (Feed.oset_add urls_read url) (entries ++ []) s1
    /\ (Feed.alerts_empty feed_config = true ->
        alerts s1 = alerts s ++ [Parsed url 0 (length follow_urls) true]
        /\ log s1 = log s)
    /\ (Feed.alerts_empty feed_config = false ->
        alerts s1 = alerts s
        /\ log s1 = log s ++ [(WARNING, Parsed url 0 (length follow_urls) false)])
    /\ (forall b, Config.alerts feed_config = Some (Config.mkAlerts (Some b)) ->
                  Feed.alerts_empty feed_config = b)
    /\ (Config.alerts feed_config = None
        \/ Config.alerts feed_config = Some (Config.mkAlerts None) ->
        Feed.alerts_empty feed_config = true).
Proof.
  intros Hread.
  set (pending :=
         Feed.oset_update rest
           (List.filter
              (fun u => negb (bool_decide (u ∈ Feed.oset_add urls_read url)))
              follow_urls)).
  assert (Hstep : exists s1,
    Feed.read_one env feed_config url [] follow_urls rest urls_read entries s
    = (Ok (pending, Feed.oset_add urls_read url, entries ++ []), s1)
    /\ (Feed.alerts_empty feed_config = true ->
        alerts s1 = alerts s ++ [Parsed url 0 (length follow_urls) true]
        /\ log s1 = log s)
    /\ (Feed.alerts_empty feed_config = false ->
        alerts s1 = alerts s
        /\ log s1 = log s ++ [(WARNING, Parsed url 0 (length follow_urls) false)])).
  { unfold Feed.read_one. fold pending. cbn [truthy length].
    unfold monotonic, runtime_alert, log_at, sleep.
    destruct (Feed.alerts_empty feed_config) eqn:Ha;
      destruct (truthy pending) eqn:Hp;
      FeedFacts.mstep; cbn [clock set_alerts set_log];
      try (match goal with
           | |- context [if 0 <? ?d then _ else _] =>
               destruct (0 <? d) eqn:Hs;
               [destruct (d <? 0) eqn:Hneg; [lia|]|]
           end);
      FeedFacts.mstep;
      eexists; (split; [reflexivity|]);
      (split; intros Hx; try discriminate); split; reflexivity. }
  destruct Hstep as (s1 & Hone & Halert & Hwarn).
  exists s1, pending. split; [exact Hone|].
  split; [intros u Hu; by apply oset_update_keeps|].
  split.
  { cbn [Feed.read_loop]. rewrite Hread. unfold bind at 1. rewrite Hone.
    reflexivity. }
  split; [exact Halert|]. split; [exact Hwarn|].
  destruct (alerts_empty_setting feed_config) as (H1 & H2 & H3).
  split; [exact H1|]. intros [H|H]; auto.
Qed.

End WithEnv.

(** The theorem on the sample feed, whose first URL parses to nothing: with
    no [alerts] key in the configuration the poll raises one alert, reads
    the second URL all the same, and ends with twelve entries from two URLs. *)
Lemma empty_parse_alerts_and_reads_on_witness :
  let fc := Samples.feed_config 2 false None in
  let e := Samples.env fc (fun _ => true) in
  let s := Samples.state 2000 (Samples.feed_object fc 900 []) in
  exists s1 s2 entries,
    alerts s1 = [Parsed (of_string "http://example.org/feed") 0 0 true]
    /\ log s1 = []
    /\ Feed.read_loop e 2 fc
         [of_string "http://example.org/feed"; of_string "http://example.org/more"]
         [] [] s
       = Feed.read_loop e 1 fc [of_string "http://example.org/more"]
           [of_string "http://example.org/feed"] [] s1
    /\ Feed._read_entries e 2 (of_string "#news") (of_string "planet") fc
         [of_string "http://example.org/feed"; of_string "http://example.org/more"] s
       = (Ok (entries, 2%nat), s2)
    /\ length entries = 12%nat
    /\ alerts s2 = [Parsed (of_string "http://example.org/feed") 0 0 true].
Proof.
  intros fc e s.
  destruct (empty_parse_alerts_and_reads_on e 1 fc
              (of_string "http://example.org/feed")
              [of_string "http://example.org/more"] [] [] [] s eq_refl)
    as (s1 & pending & Hone & _ & Hloop & Halert & _ & _ & _).
  destruct (Halert eq_refl) as [Ha Hl].
  injection Hone as Hpending Hs1.
  exists s1. eexists. eexists.
  split; [exact Ha|]. split; [exact Hl|].
  split; [rewrite Hloop, <- Hpending; reflexivity|].
  split; [vm_compute; reflexivity|].
  split; vm_compute; reflexivity.
Defined.

End ReadFacts.

(* ===================================================================== *)
(** * bot.py: the channel messenger *)
(* ===================================================================== *)

Module BotFacts.

Import PyStr Py Machine Effects Frames.

Lemma quiet_refl (s : State) : quiet s s.
Proof. by repeat split. Qed.

Lemma quiet_trans (s1 s2 s3 : State) : quiet s1 s2 -> quiet s2 s3 -> quiet s1 s3.
Proof.
  unfold quiet. intros H1 H2. destruct_and!. repeat split; congruence.
Qed.

Lemma state_eta (s : State) :
  s = mkState (db s) (db_inserts s) (CHANNEL_JOIN_EVENTS s)
              (CHANNEL_LAST_INCOMING_MSG_TIMES s) (outgoing_msg_lock s) (clock s)
              (irc_calls s) (irc_sent s) (irc_sent_at s) (log s) (alerts s)
              (tasks_done s) (feed s).
Proof. by destruct s. Qed.

Section WithEnv.

Context (env : Env).

(** Alone on the lock and with no new message arriving, the gate sleeps at
    most once. *)
Lemma idle_gate_passes (fuel : nat) (channel : str) (s : State) (last : Z) :
  (2 <= fuel)%nat ->
  outgoing_msg_lock s = false ->
  CHANNEL_LAST_INCOMING_MSG_TIMES s !! channel = Some last ->
  Bot.idle_gate env fuel channel s = (Ok tt, gate_exit env last s).
Proof.
  intros Hfuel Hlock Hlast.
  destruct fuel as [|[|fuel]]; [lia | lia |].
  cbn [Bot.idle_gate].
  unfold lock_acquire_nonblocking, lock_release, sleep, monotonic,
         Bot.idle_gate_sleep_time, gate_exit.
  FeedFacts.mstep. rewrite Hlock. cbn [CHANNEL_LAST_INCOMING_MSG_TIMES
    set_outgoing_msg_lock set_clock clock outgoing_msg_lock].
  rewrite Hlast. FeedFacts.mstep.
  cbn [CHANNEL_LAST_INCOMING_MSG_TIMES set_outgoing_msg_lock set_clock clock
       outgoing_msg_lock].
  set (M := Config.MIN_CHANNEL_IDLE_TIME (config env)).
  destruct (Z.max 0 (M - (clock s - last)) =? 0) eqn:H0.
  - apply Z.eqb_eq in H0. f_equal. rewrite (state_eta s) at 1.
    unfold set_outgoing_msg_lock, set_clock. simpl. f_equal. lia.
  - apply Z.eqb_neq in H0.
    destruct (Z.max 0 (M - (clock s - last)) <? 0) eqn:Hneg; [lia|].
    FeedFacts.mstep.
    cbn [CHANNEL_LAST_INCOMING_MSG_TIMES set_outgoing_msg_lock set_clock clock
         outgoing_msg_lock].
    rewrite Hlast. FeedFacts.mstep.
    cbn [CHANNEL_LAST_INCOMING_MSG_TIMES set_outgoing_msg_lock set_clock clock
         outgoing_msg_lock].
    replace (Z.max 0 (M - (clock s + Z.max 0 (M - (clock s - last)) - last)) =? 0)
      with true by (symmetry; apply Z.eqb_eq; lia).
    f_equal. unfold set_outgoing_msg_lock, set_clock. simpl. f_equal. lia.
Qed.

(** Whatever the gate ends in, it touches the lock and the clock only. *)
Lemma idle_gate_quiet (fuel : nat) (channel : str) (s s' : State) (r : outcome unit) :
  Bot.idle_gate env fuel channel s = (r, s') -> quiet s s'.
Proof.
  revert s. induction fuel as [|fuel IH]; intros s.
  - cbn [Bot.idle_gate]. intros [= <- <-]. apply quiet_refl.
  - cbn [Bot.idle_gate].
    unfold lock_acquire_nonblocking, lock_acquire, lock_release, sleep, monotonic.
    FeedFacts.mstep.
    destruct (outgoing_msg_lock s) eqn:Hlock; FeedFacts.mstep.
    + rewrite Hlock. intros [= <- <-]. apply quiet_refl.
    + cbn [CHANNEL_LAST_INCOMING_MSG_TIMES set_outgoing_msg_lock set_clock clock
           outgoing_msg_lock].
      destruct (CHANNEL_LAST_INCOMING_MSG_TIMES s !! channel) as [last|];
        FeedFacts.mstep.
      2:{ intros [= <- <-]. by repeat split. }
      cbn [CHANNEL_LAST_INCOMING_MSG_TIMES set_outgoing_msg_lock set_clock clock
           outgoing_msg_lock].
      destruct (Bot.idle_gate_sleep_time env (clock s) last =? 0).
      { intros [= <- <-]. by repeat split. }
      destruct (Bot.idle_gate_sleep_time env (clock s) last <? 0).
      { intros [= <- <-]. by repeat split. }
      FeedFacts.mstep. intros Hrec. apply IH in Hrec.
      eapply quiet_trans; [|exact Hrec]. by repeat split.
Qed.

(** The client is back after a number of 5-second waits. *)
Lemma wait_connected_returns (fuel : nat) (s : State) :
  (1 <= fuel)%nat ->
  reconnect_at env <= clock s + 5 * (Z.of_nat fuel - 1) ->
  exists k : nat,
    Bot.wait_connected env fuel s
    = (Ok tt, set_clock (clock s + 5 * Z.of_nat k) s).
Proof.
  revert s. induction fuel as [|fuel IH]; intros s Hfuel Hre; [lia|].
  cbn [Bot.wait_connected]. unfold irc_connected, sleep. FeedFacts.mstep.
  destruct (reconnect_at env <=? clock s) eqn:Hc.
  - exists 0%nat. f_equal. rewrite (state_eta s) at 1.
    unfold set_clock. f_equal. lia.
  - apply Z.leb_gt in Hc. change (5 <? 0) with false. FeedFacts.mstep.
    destruct (IH (set_clock (clock s + 5) s)) as [k Hk].
    + lia.
    + cbn [clock set_clock]. lia.
    + exists (S k). rewrite Hk. f_equal. unfold set_clock. cbn. f_equal. lia.
Qed.

Lemma wait_connected_quiet (fuel : nat) (s s' : State) (r : outcome unit) :
  Bot.wait_connected env fuel s = (r, s') -> quiet s s'.
Proof.
  revert s. induction fuel as [|fuel IH]; intros s.
  - cbn [Bot.wait_connected]. intros [= <- <-]. apply quiet_refl.
  - cbn [Bot.wait_connected]. unfold irc_connected, sleep. FeedFacts.mstep.
    destruct (reconnect_at env <=? clock s).
    + intros [= <- <-]. apply quiet_refl.
    + change (5 <? 0) with false. FeedFacts.mstep. intros Hrec.
      apply IH in Hrec. eapply quiet_trans; [|exact Hrec]. by repeat split.
Qed.

(** One entry whose send goes through. *)
Lemma post_entry_sent (channel feed_name : str) (entry : FeedEntry.t) (s : State) :
  irc_ok env (irc_calls s) = true ->
  exists s',
    Bot.post_entry env channel feed_name entry s = (Ok tt, s')
    /\ posting s s'
    /\ irc_calls s' = S (irc_calls s)
    /\ irc_sent s' = irc_sent s ++ [post_line channel feed_name entry]
    /\ clock s' = clock s + Z.max 0 (Config.SECONDS_PER_MESSAGE (config env)).
Proof.
  intros Hok. unfold Bot.post_entry, monotonic, irc_msg, sleep.
  FeedFacts.mstep. rewrite Hok. cbn [clock set_irc].
  destruct (Z.max 0 _ <? 0) eqn:Hneg; [lia|].
  eexists. split; [reflexivity|]. cbn.
  repeat split. f_equal. lia.
Qed.

(** One entry whose send raises: nothing is recorded as sent. *)
Lemma post_entry_raises (channel feed_name : str) (entry : FeedEntry.t) (s : State) :
  irc_ok env (irc_calls s) = false ->
  exists s',
    Bot.post_entry env channel feed_name entry s = (Raise TransportError, s')
    /\ posting s s' /\ irc_sent s' = irc_sent s.
Proof.
  intros Hok. unfold Bot.post_entry, monotonic, irc_msg, sleep.
  FeedFacts.mstep. rewrite Hok.
  eexists. split; [reflexivity|]. by repeat split.
Qed.

Lemma posting_trans (s1 s2 s3 : State) :
  posting s1 s2 -> posting s2 s3 -> posting s1 s3.
Proof.
  unfold posting. intros H1 H2. destruct_and!. repeat split; congruence.
Qed.

(** A batch all of whose sends go through: one line per entry, in order,
    and [SECONDS_PER_MESSAGE] of clock per line. *)
Lemma post_all_sent (channel feed_name : str) (entries : list FeedEntry.t) (s : State) :
  (forall k, (k < length entries)%nat -> irc_ok env (irc_calls s + k) = true) ->
  exists s',
    for_each entries (Bot.post_entry env channel feed_name) s = (Ok tt, s')
    /\ posting s s'
    /\ irc_calls s' = (irc_calls s + length entries)%nat
    /\ irc_sent s' = irc_sent s ++ map (post_line channel feed_name) entries
    /\ clock s'
       = clock s + Z.of_nat (length entries)
                   * Z.max 0 (Config.SECONDS_PER_MESSAGE (config env)).
Proof.
  revert s. induction entries as [|e entries IH]; intros s Hok.
  - exists s. cbn [for_each map length]. unfold ret.
    rewrite app_nil_r, Nat.add_0_r. repeat split. lia.
  - cbn [for_each].
    destruct (post_entry_sent channel feed_name e s) as (s1 & H1 & Hp1 & Hc1 & Hs1 & Ht1).
    { specialize (Hok 0%nat). rewrite Nat.add_0_r in Hok. apply Hok. simpl. lia. }
    destruct (IH s1) as (s2 & H2 & Hp2 & Hc2 & Hs2 & Ht2).
    { intros k Hk. rewrite Hc1.
      replace (S (irc_calls s) + k)%nat with (irc_calls s + S k)%nat by lia.
      apply Hok. simpl. lia. }
    exists s2. unfold bind. rewrite H1, H2.
    split; [reflexivity|]. split; [by eapply posting_trans|].
    split; [rewrite Hc2, Hc1; simpl; lia|].
    split; [rewrite Hs2, Hs1; cbn [map]; by rewrite <- app_assoc|].
    rewrite Ht2, Ht1. cbn [length]. lia.
Qed.

(** A batch one of whose sends raises: the loop ends in that exception. *)
Lemma post_some_raises (channel feed_name : str) (entries : list FeedEntry.t)
    (s : State) (k : nat) :
  (k < length entries)%nat ->
  irc_ok env (irc_calls s + k) = false ->
  exists s',
    for_each entries (Bot.post_entry env channel feed_name) s
    = (Raise TransportError, s')
    /\ posting s s'.
Proof.
  revert s k. induction entries as [|e entries IH]; intros s k Hk Hfail.
  - simpl in Hk. lia.
  - cbn [for_each]. unfold bind.
    destruct (irc_ok env (irc_calls s)) eqn:H0.
    + destruct (post_entry_sent channel feed_name e s H0)
        as (s1 & H1 & Hp1 & Hc1 & _).
      rewrite H1. destruct k as [|k].
      { rewrite Nat.add_0_r in Hfail. congruence. }
      destruct (IH s1 k) as (s2 & H2 & Hp2).
      { simpl in Hk. lia. }
      { rewrite Hc1. replace (S (irc_calls s) + k)%nat
          with (irc_calls s + S k)%nat by lia. exact Hfail. }
      exists s2. rewrite H2. split; [reflexivity | by eapply posting_trans].
    + destruct (post_entry_raises channel feed_name e s H0) as (s1 & H1 & Hp1 & _).
      exists s1. rewrite H1. by split.
Qed.

(** The rows [insert_posted] adds are new when the URLs are. *)
Lemma insert_posted_size (db0 : gset Database.Row) (channel feed_name : str)
    (urls : list str) :
  NoDup urls ->
  (forall u, u ∈ urls -> (channel, feed_name, u) ∉ db0) ->
  size (Database.insert_posted db0 channel feed_name urls)
  = (size db0 + length urls)%nat.
Proof.
  unfold Database.insert_posted.
  induction urls as [|u urls IH]; intros Hnd Hnew.
  - cbn [map list_to_set length]. rewrite union_empty_r_L. lia.
  - apply NoDup_cons in Hnd as [Hu Hnd].
    cbn [map list_to_set length].
    assert (Hfresh : (channel, feed_name, u)
                       ∉ db0 ∪ list_to_set (map (fun u0 => (channel, feed_name, u0)) urls)).
    { intros [Hin|Hin]%elem_of_union.
      - apply (Hnew u); [left | exact Hin].
      - apply elem_of_list_to_set, list_elem_of_fmap in Hin as (u' & [= ->] & Hu').
        done. }
    rewrite (assoc_L (∪) db0), (comm_L (∪) db0), <- (assoc_L (∪)).
    rewrite size_union by (by apply disjoint_singleton_l).
    rewrite size_singleton, IH; [lia | exact Hnd |].
    intros u' Hu'. apply Hnew. by right.
Qed.

Lemma insert_posted_elem (db0 : gset Database.Row) (channel feed_name : str)
    (urls : list str) (u : str) :
  u ∈ urls -> (channel, feed_name, u) ∈ Database.insert_posted db0 channel feed_name urls.
Proof.
  intros Hu. unfold Database.insert_posted. apply elem_of_union. right.
  apply elem_of_list_to_set, list_elem_of_fmap. by exists u.
Qed.

(** C1. Take the feed the messenger has dequeued, with [postable] and
    [unposted] what its two properties hold. If every send of the batch goes
    through (the lock being free, the channel having a last-message time and
    the client being back within the fuel given), then the iteration ends
    normally, one line per postable entry has gone to the channel, in order,
    and [insert_posted] has been called once with the [long_url] of every
    unposted entry, postable or not: each of them is in the store afterwards,
    and the store has grown by as many rows as there are unposted entries
    when their URLs are distinct and new. *)
Theorem msg_channel_records_all_unposted
    (fuel : nat) (channel : str) (s s1 : State)
    (postable unposted : list FeedEntry.t) (last : Z) :
  let feed_name := FeedObject.name (feed s) in
  let urls := map FeedEntry.long_url unposted in
  Feed.postable_entries env s = (Ok postable, s1) ->
  FeedObject.unposted_entries_cache (feed s1) = Some unposted ->
  (forall k, (k < length postable)%nat -> irc_ok env (irc_calls s + k) = true) ->
  outgoing_msg_lock s = false ->
  CHANNEL_LAST_INCOMING_MSG_TIMES s !! channel = Some last ->
  (2 <= fuel)%nat ->
  reconnect_at env
  <= Z.max (clock s) (last + Config.MIN_CHANNEL_IDLE_TIME (config env))
     + 5 * (Z.of_nat fuel - 1) ->
  exists s',
    Bot._msg_channel_iteration env fuel channel s = (Ok tt, s')
    /\ irc_sent s' = irc_sent s ++ map (post_line channel feed_name) postable
    /\ length (map (post_line channel feed_name) postable) = length postable
    /\ db s' = Database.insert_posted (db s) channel feed_name urls
    /\ db_inserts s'
       = db_inserts s ++ (if truthy unposted then [(channel, feed_name, urls)] else [])
    /\ (forall entry, entry ∈ unposted ->
          (channel, feed_name, FeedEntry.long_url entry) ∈ db s')
    /\ (NoDup urls ->
        (forall u, u ∈ urls -> (channel, feed_name, u) ∉ db s) ->
        size (db s') = (size (db s) + length unposted)%nat)
    /\ outgoing_msg_lock s' = false
    /\ log s' = log s
    /\ tasks_done s' = S (tasks_done s).
Proof.
  intros feed_name urls Hpost Hun Hok Hlock Hlast Hfuel Hre.
  destruct (FeedFacts.postable_entries_effect env _ _ _ Hpost) as [[Hs1 Hrec] Hcache].
  specialize (Hcache postable eq_refl).
  destruct Hrec as (_ & Hname & _).
  assert (Hdb1 : db s1 = db s) by (by rewrite Hs1).
  assert (Hins1 : db_inserts s1 = db_inserts s) by (by rewrite Hs1).
  assert (Hlog1 : log s1 = log s) by (by rewrite Hs1).
  assert (Htd1 : tasks_done s1 = tasks_done s) by (by rewrite Hs1).
  assert (Hsent1 : irc_sent s1 = irc_sent s) by (by rewrite Hs1).
  assert (Hcalls1 : irc_calls s1 = irc_calls s) by (by rewrite Hs1).
  assert (Hclock1 : clock s1 = clock s) by (by rewrite Hs1).
  (* the batch *)
  assert (Hbatch : exists s3,
    (if truthy postable then
       try_finally
         (Bot.idle_gate env fuel channel ;;
          Bot.wait_connected env fuel ;;
          postable0 <- Feed.postable_entries env ;;
          self <- gets feed ;;
          for_each postable0 (Bot.post_entry env channel (FeedObject.name self)))
         lock_release
     else ret tt) s1 = (Ok tt, s3)
    /\ db s3 = db s /\ db_inserts s3 = db_inserts s /\ feed s3 = feed s1
    /\ outgoing_msg_lock s3 = false /\ log s3 = log s
    /\ tasks_done s3 = tasks_done s
    /\ irc_sent s3 = irc_sent s ++ map (post_line channel feed_name) postable).
  { destruct (truthy postable) eqn:Htruthy.
    - assert (Hlock1 : outgoing_msg_lock s1 = false) by (by rewrite Hs1).
      assert (Hlast1 : CHANNEL_LAST_INCOMING_MSG_TIMES s1 !! channel = Some last)
        by (by rewrite Hs1).
      pose proof (idle_gate_passes fuel channel s1 last Hfuel Hlock1 Hlast1) as Hgate.
      destruct (wait_connected_returns fuel (gate_exit env last s1)) as [k Hwait].
      { lia. }
      { unfold gate_exit. cbn [clock set_outgoing_msg_lock set_clock].
        rewrite Hclock1. exact Hre. }
      set (w := set_clock (clock (gate_exit env last s1) + 5 * Z.of_nat k)
                          (gate_exit env last s1)) in *.
      assert (Hfeedw : feed w = feed s1) by reflexivity.
      pose proof (FeedFacts.postable_entries_cached env w postable
                    ltac:(by rewrite Hfeedw)) as Hpost2.
      destruct (post_all_sent channel (FeedObject.name (feed w)) postable w)
        as (s2 & Hloop & Hposting & _ & Hsent & _).
      { intros j Hj. replace (irc_calls w) with (irc_calls s)
          by (unfold w, gate_exit; cbn; by rewrite Hcalls1).
        by apply Hok. }
      destruct Hposting as (Hdb2 & Hins2 & Hfeed2 & Hlock2 & Hlog2 & _ & Htd2 & _).
      exists (set_outgoing_msg_lock false s2).
      split.
      { unfold try_finally, bind. rewrite Hgate, Hwait. fold w.
        rewrite Hpost2. unfold gets. rewrite Hloop.
        unfold lock_release. rewrite Hlock2. reflexivity. }
      cbn [db db_inserts feed outgoing_msg_lock log tasks_done irc_sent
           set_outgoing_msg_lock].
      rewrite Hdb2, Hins2, Hfeed2, Hlog2, Htd2, Hsent.
      rewrite Hfeedw, Hname. unfold w, gate_exit. cbn.
      by rewrite Hdb1, Hins1, Hlog1, Htd1, Hsent1.
    - destruct postable; [|discriminate].
      exists s1. split; [reflexivity|]. cbn [map].
      rewrite app_nil_r, Hdb1, Hins1, Hlog1, Htd1, Hsent1.
      assert (outgoing_msg_lock s1 = false) by (by rewrite Hs1).
      by repeat split. }
  destruct Hbatch as (s3 & Hrun3 & Hdb3 & Hins3 & Hfeed3 & Hlock3 & Hlog3 & Htd3 & Hsent3).
  pose proof (FeedFacts.unposted_entries_cached env s3 unposted
                ltac:(by rewrite Hfeed3)) as Hun3.
  (* the record *)
  set (s4 := if truthy unposted
             then set_db (Database.insert_posted (db s3) channel feed_name urls)
                         (db_inserts s3 ++ [(channel, feed_name, urls)]) s3
             else s3).
  exists (set_tasks_done (S (tasks_done s4)) s4).
  split.
  { unfold Bot._msg_channel_iteration.
    unfold bind at 1. unfold try_except.
    unfold bind at 1. rewrite Hpost.
    unfold bind at 1. rewrite Hrun3.
    unfold bind at 1. rewrite Hun3.
    unfold s4. destruct (truthy unposted).
    - unfold bind at 1. unfold gets at 1. cbn beta iota.
      unfold bind at 1. rewrite Hun3.
      unfold db_insert_posted, modify. rewrite Hfeed3, Hname. reflexivity.
    - reflexivity. }
  assert (Hdb4 : db s4 = Database.insert_posted (db s) channel feed_name urls).
  { unfold s4. destruct unposted as [|e0 unposted'] eqn:Hu; cbn [truthy].
    - rewrite Hdb3. unfold Database.insert_posted, urls. cbn.
      by rewrite union_empty_r_L.
    - cbn [db set_db]. by rewrite Hdb3. }
  cbn [irc_sent db db_inserts outgoing_msg_lock log tasks_done set_tasks_done].
  rewrite Hdb4.
  replace (irc_sent s4) with (irc_sent s3) by (unfold s4; by destruct (truthy unposted)).
  replace (outgoing_msg_lock s4) with (outgoing_msg_lock s3)
    by (unfold s4; by destruct (truthy unposted)).
  replace (log s4) with (log s3) by (unfold s4; by destruct (truthy unposted)).
  replace (tasks_done s4) with (tasks_done s3)
    by (unfold s4; by destruct (truthy unposted)).
  repeat split; try done.
  - apply length_map.
  - unfold s4. destruct (truthy unposted); cbn [db_inserts set_db].
    + by rewrite Hins3.
    + by rewrite Hins3, app_nil_r.
  - intros entry Hentry. apply insert_posted_elem.
    apply list_elem_of_fmap. by exists entry.
  - intros Hnd Hnew. rewrite insert_posted_size by done.
    unfold urls. by rewrite length_map.
  - by rewrite Htd3.
Qed.

(** The part of the iteration under [try ... finally], for a batch one of
    whose sends raises: it does not end normally, and it leaves the store,
    the log and the held feed as they were. *)
Lemma batch_fails (fuel : nat) (channel : str) (s1 : State)
    (postable : list FeedEntry.t) (k : nat) :
  FeedObject.postable_entries_cache (feed s1) = Some postable ->
  (k < length postable)%nat ->
  irc_ok env (irc_calls s1 + k) = false ->
  exists r s3,
    try_finally
      (Bot.idle_gate env fuel channel ;;
       Bot.wait_connected env fuel ;;
       postable0 <- Feed.postable_entries env ;;
       self <- gets feed ;;
       for_each postable0 (Bot.post_entry env channel (FeedObject.name self)))
      lock_release s1 = (r, s3)
    /\ r <> Ok tt
    /\ db s3 = db s1 /\ db_inserts s3 = db_inserts s1
    /\ log s3 = log s1 /\ feed s3 = feed s1.
Proof.
  intros Hcache Hk Hfail.
  assert (Hinner : exists r s2,
    (Bot.idle_gate env fuel channel ;;
     Bot.wait_connected env fuel ;;
     postable0 <- Feed.postable_entries env ;;
     self <- gets feed ;;
     for_each postable0 (Bot.post_entry env channel (FeedObject.name self))) s1
    = (r, s2)
    /\ r <> Ok tt
    /\ db s2 = db s1 /\ db_inserts s2 = db_inserts s1
    /\ log s2 = log s1 /\ feed s2 = feed s1).
  { unfold bind at 1.
    destruct (Bot.idle_gate env fuel channel s1) as [rg sg] eqn:Hg.
    pose proof (idle_gate_quiet _ _ _ _ _ Hg)
      as (Hdbg & Hinsg & Hfeedg & Hcallsg & _ & Hlogg & _).
    destruct rg as [[]|e|]; [| by repeat eexists | by repeat eexists].
    unfold bind at 1.
    destruct (Bot.wait_connected env fuel sg) as [rw sw] eqn:Hw.
    pose proof (wait_connected_quiet _ _ _ _ Hw)
      as (Hdbw & Hinsw & Hfeedw & Hcallsw & _ & Hlogw & _).
    destruct rw as [[]|e|];
      [| eexists _, _; repeat split; [done | congruence ..]
       | eexists _, _; repeat split; [done | congruence ..]].
    unfold bind at 1.
    rewrite (FeedFacts.postable_entries_cached env sw postable)
      by (by rewrite Hfeedw, Hfeedg).
    unfold bind at 1. unfold gets at 1. cbn beta iota.
    destruct (post_some_raises channel (FeedObject.name (feed sw)) postable sw k Hk)
      as (s2 & Hloop & Hposting).
    { by rewrite Hcallsw, Hcallsg. }
    destruct Hposting as (Hdb2 & Hins2 & Hfeed2 & _ & Hlog2 & _).
    exists (Raise TransportError), s2. rewrite Hloop.
    repeat split; [done | congruence ..]. }
  destruct Hinner as (r & s2 & Hrun & Hr & Hdb & Hins & Hlog & Hfeed).
  unfold try_finally. rewrite Hrun. unfold lock_release.
  destruct r as [[]|e|]; [done | |].
  - destruct (outgoing_msg_lock s2); eexists _, _; by repeat split.
  - eexists _, _. by repeat split.
Qed.

(** C3. If a send of the batch raises, the iteration leaves the store
    alone, whatever else happens: no row is written, [insert_posted] is not
    called, and a feed read against the store afterwards finds unposted
    exactly what it would have found before, so every entry of the batch is
    still eligible. When the gate lets the batch through, the exception is
    the one caught and reported: the log gains the error record of this
    feed. *)
Theorem send_failure_keeps_store
    (fuel : nat) (channel : str) (s s1 : State)
    (postable : list FeedEntry.t) (k : nat) :
  Feed.postable_entries env s = (Ok postable, s1) ->
  (k < length postable)%nat ->
  irc_ok env (irc_calls s + k) = false ->
  exists r s',
    Bot._msg_channel_iteration env fuel channel s = (r, s')
    /\ db s' = db s
    /\ db_inserts s' = db_inserts s
    /\ (forall held,
          unposted_list env (set_feed held s')
          = unposted_list env (set_feed held s))
    /\ (forall last,
          outgoing_msg_lock s = false ->
          CHANNEL_LAST_INCOMING_MSG_TIMES s !! channel = Some last ->
          (2 <= fuel)%nat ->
          reconnect_at env
          <= Z.max (clock s) (last + Config.MIN_CHANNEL_IDLE_TIME (config env))
             + 5 * (Z.of_nat fuel - 1) ->
          log s' = log s ++ [(EXCEPTION,
                              ErrorProcessing (FeedObject.channel (feed s))
                                              (FeedObject.name (feed s))
                                              TransportError)]).
Proof.
  intros Hpost Hk Hfail.
  destruct (FeedFacts.postable_entries_effect env _ _ _ Hpost) as [[Hs1 Hrec] Hcache].
  specialize (Hcache postable eq_refl).
  destruct Hrec as (Hchan & Hname & _).
  assert (Hdb1 : db s1 = db s) by (by rewrite Hs1).
  assert (Hins1 : db_inserts s1 = db_inserts s) by (by rewrite Hs1).
  assert (Hlog1 : log s1 = log s) by (by rewrite Hs1).
  assert (Hcalls1 : irc_calls s1 = irc_calls s) by (by rewrite Hs1).
  assert (Htruthy : truthy postable = true) by (destruct postable; [simpl in Hk; lia | done]).
  destruct (batch_fails fuel channel s1 postable k Hcache Hk)
    as (r3 & s3 & Hrun3 & Hr3 & Hdb3 & Hins3 & Hlog3 & Hfeed3).
  { by rewrite Hcalls1. }
  (* the iteration, by what the batch ended in *)
  assert (Hiter : exists r s',
    Bot._msg_channel_iteration env fuel channel s = (r, s')
    /\ db s' = db s /\ db_inserts s' = db_inserts s
    /\ (r3 = Raise TransportError ->
        log s' = log s ++ [(EXCEPTION,
                            ErrorProcessing (FeedObject.channel (feed s))
                                            (FeedObject.name (feed s))
                                            TransportError)])).
  { unfold Bot._msg_channel_iteration.
    unfold bind at 1. unfold try_except.
    unfold bind at 1. rewrite Hpost. rewrite Htruthy.
    unfold bind at 1. rewrite Hrun3.
    destruct r3 as [[]|e|]; [done | |].
    - unfold _alert, log_at, irc_msg. FeedFacts.mstep.
      cbn [irc_calls set_log feed]. rewrite Hfeed3, Hchan, Hname.
      destruct (irc_ok env (irc_calls s3));
        eexists _, _; (split; [reflexivity|]); cbn;
        rewrite Hdb3, Hdb1, Hins3, Hins1, Hlog3, Hlog1;
        (repeat split; [by intros [= ->]]).
    - eexists _, _. split; [reflexivity|]. rewrite Hdb3, Hins3.
      repeat split; [done | done | by intros [=]]. }
  destruct Hiter as (r & s' & Hrun & Hdb & Hins & Hlogged).
  exists r, s'. split; [exact Hrun|]. split; [exact Hdb|]. split; [exact Hins|].
  split.
  - intros held. unfold unposted_list, selected_urls.
    cbn [feed db set_feed]. by rewrite Hdb.
  - intros last Hlock Hlast Hfuel Hre. apply Hlogged.
    (* with the gate open the batch ran up to the failing send *)
    assert (Hlock1 : outgoing_msg_lock s1 = false) by (by rewrite Hs1).
    assert (Hlast1 : CHANNEL_LAST_INCOMING_MSG_TIMES s1 !! channel = Some last)
      by (by rewrite Hs1).
    assert (Hclock1 : clock s1 = clock s) by (by rewrite Hs1).
    pose proof (idle_gate_passes fuel channel s1 last Hfuel Hlock1 Hlast1) as Hgate.
    destruct (wait_connected_returns fuel (gate_exit env last s1)) as [j Hwait].
    { lia. }
    { unfold gate_exit. cbn [clock set_outgoing_msg_lock set_clock].
      rewrite Hclock1. exact Hre. }
    set (w := set_clock (clock (gate_exit env last s1) + 5 * Z.of_nat j)
                        (gate_exit env last s1)) in *.
    destruct (post_some_raises channel (FeedObject.name (feed w)) postable w k Hk)
      as (s2 & Hloop & Hposting).
    { replace (irc_calls w) with (irc_calls s)
        by (unfold w, gate_exit; cbn; by rewrite Hcalls1).
      exact Hfail. }
    destruct Hposting as (_ & _ & _ & Hlock2 & _).
    revert Hrun3. unfold try_finally, bind. rewrite Hgate, Hwait. fold w.
    rewrite (FeedFacts.postable_entries_cached env w postable) by exact Hcache.
    unfold gets. rewrite Hloop. unfold lock_release. rewrite Hlock2.
    by intros [= <- _].
Qed.

End WithEnv.

(** The theorem on scenario S3: a new feed, twelve unposted entries, a
    first-post cap of 5, every send going through. Five lines go out and one
    [insert_posted] call brings the empty store to twelve rows. *)
Lemma msg_channel_records_all_unposted_witness :
  let fc := Samples.feed_config 2 false None in
  let e := Samples.env fc (fun _ => true) in
  let s := Samples.state 2000 (Samples.feed_object fc 900 Samples.entries12) in
  exists s',
    Bot._msg_channel_iteration e 2 (of_string "#news") s = (Ok tt, s')
    /\ length (irc_sent s') = 5%nat
    /\ size (db s') = 12%nat
    /\ db_inserts s'
       = [(of_string "#news", of_string "planet",
           map FeedEntry.long_url Samples.entries12)]
    /\ length (map FeedEntry.long_url Samples.entries12) = 12%nat.
Proof.
  intros fc e s.
  destruct (msg_channel_records_all_unposted e 2 (of_string "#news") s
              (cache_postable (take 5 Samples.entries12)
                 (cache_unposted Samples.entries12 s))
              (take 5 Samples.entries12) Samples.entries12 100)
    as (s' & Hrun & Hsent & Hlen & _ & Hins & _ & Hsize & _).
  - vm_compute. reflexivity.
  - reflexivity.
  - intros k _. reflexivity.
  - reflexivity.
  - reflexivity.
  - lia.
  - vm_compute. discriminate.
  - exists s'. split; [exact Hrun|].
    split; [rewrite Hsent; reflexivity|].
    split.
    { rewrite Hsize; [reflexivity | |].
      - refine (bool_decide_unpack _ _). vm_compute. exact I.
      - intros u _. apply not_elem_of_empty. }
    split; [exact Hins | reflexivity].
Defined.

(** The theorem on the sample feed when the third send raises: two lines
    have gone to the channel and the alert to the alerts channel, the store
    is still empty, and all twelve entries are unposted for the next read. *)
Lemma send_failure_keeps_store_witness :
  let fc := Samples.feed_config 2 false None in
  let e := Samples.env fc (fun n => negb (n =? 2)%nat) in
  let s := Samples.state 2000 (Samples.feed_object fc 900 Samples.entries12) in
  exists s',
    Bot._msg_channel_iteration e 2 (of_string "#news") s = (Ok tt, s')
    /\ db s' = ∅
    /\ db_inserts s' = []
    /\ map fst (irc_sent s')
       = [of_string "#news"; of_string "#news"; of_string "#alerts"]
    /\ log s' = [(EXCEPTION,
                  ErrorProcessing (of_string "#news") (of_string "planet")
                                  TransportError)]
    /\ unposted_list e
         (set_feed (Samples.feed_object fc 900 Samples.entries12) s')
       = Samples.entries12.
Proof.
  intros fc e s.
  destruct (send_failure_keeps_store e 2 (of_string "#news") s
              (cache_postable (take 5 Samples.entries12)
                 (cache_unposted Samples.entries12 s))
              (take 5 Samples.entries12) 2)
    as (r & s' & Hrun & Hdb & Hins & Helig & Hlog).
  - vm_compute. reflexivity.
  - vm_compute. lia.
  - reflexivity.
  - assert (Hr : r = Ok tt).
    { apply (f_equal fst) in Hrun. vm_compute in Hrun. congruence. }
    assert (Hsent : map fst (irc_sent s')
                    = [of_string "#news"; of_string "#news"; of_string "#alerts"]).
    { apply (f_equal (fun p => map fst (irc_sent p.2))) in Hrun.
      vm_compute in Hrun. vm_compute. congruence. }
    exists s'. subst r. split; [exact Hrun|].
    split; [exact Hdb|]. split; [exact Hins|]. split; [exact Hsent|].
    split.
    + apply (Hlog 100); [reflexivity | reflexivity | lia | vm_compute; discriminate].
    + rewrite Helig. vm_compute. reflexivity.
Defined.

Section Handlers.

Context (env : Env).

Let instance : Config.Instance := Config.INSTANCE (config env).

(** The JOIN handler leaves the state alone unless the user is the
    configured nick and the channel casefolds to a configured channel. *)
Lemma handle_join_ignored (user ident hostname channel : str) (args : list str)
    (s : State) :
  user <> Config.nick instance
  \/ Lib.casefold (lib env) channel ∉ Config.channels_casefold instance ->
  Bot._handle_join env (user, ident, hostname) (channel :: args) s = (Ok tt, s).
Proof.
  intros H. unfold Bot._handle_join. fold instance.
  destruct H as [H|H].
  - by rewrite (bool_decide_eq_false_2 _ H).
  - rewrite (bool_decide_eq_false_2 _ H). by rewrite orb_true_r.
Qed.

(** A join under a spelling that [CHANNEL_JOIN_EVENTS] has: the event is
    set and the last-message time is the clock. *)
Lemma handle_join_known (ident hostname channel : str) (args : list str)
    (s : State) (event : bool) :
  Lib.casefold (lib env) channel ∈ Config.channels_casefold instance ->
  CHANNEL_JOIN_EVENTS s !! channel = Some event ->
  Bot._handle_join env (Config.nick instance, ident, hostname) (channel :: args) s
  = (Ok tt,
     set_CHANNEL_LAST_INCOMING_MSG_TIMES
       (<[channel := clock s]> (CHANNEL_LAST_INCOMING_MSG_TIMES s))
       (set_CHANNEL_JOIN_EVENTS (<[channel := true]> (CHANNEL_JOIN_EVENTS s)) s)).
Proof.
  intros Hin Hev. unfold Bot._handle_join. fold instance.
  rewrite !bool_decide_eq_true_2 by done. cbn [negb orb].
  unfold monotonic. FeedFacts.mstep. rewrite Hev. FeedFacts.mstep.
  cbn [CHANNEL_LAST_INCOMING_MSG_TIMES set_CHANNEL_LAST_INCOMING_MSG_TIMES
       set_CHANNEL_JOIN_EVENTS clock].
  by rewrite lookup_insert_eq.
Qed.

(** A join that passes the casefolded check under a spelling that
    [CHANNEL_JOIN_EVENTS] does not have raises [KeyError] and changes
    nothing. *)
Lemma handle_join_other_spelling (ident hostname channel : str) (args : list str)
    (s : State) :
  Lib.casefold (lib env) channel ∈ Config.channels_casefold instance ->
  CHANNEL_JOIN_EVENTS s !! channel = None ->
  Bot._handle_join env (Config.nick instance, ident, hostname) (channel :: args) s
  = (Raise (KeyError channel), s).
Proof.
  intros Hin Hev. unfold Bot._handle_join. fold instance.
  rewrite !bool_decide_eq_true_2 by done. cbn [negb orb].
  FeedFacts.mstep. by rewrite Hev.
Qed.

(** [Feed.__post_init__] sets the feed's own idle time from its period. *)
Lemma post_init_min_channel_idle_time (fuel : nat) (channel name : str)
    (s s' : State) (held : FeedObject.t) :
  Feed.__post_init__ env fuel channel name s = (Ok held, s') ->
  FeedObject.min_channel_idle_time held
  = if default (Config.PERIOD_HOURS_DEFAULT (config env))
               (Config.period (FeedObject.config held))
       >? Config.PERIOD_HOURS_MIN (config env)
    then Config.MIN_CHANNEL_IDLE_TIME_DEFAULT (config env)
    else 0.
Proof.
  unfold Feed.__post_init__. FeedFacts.mstep.
  destruct (Config.feeds _ !! channel) as [channel_feeds|]; [|done].
  destruct (channel_feeds !! name) as [own|]; [|done].
  destruct (Config.url _) as [urls|]; [|done].
  destruct (Feed._read_entries _ _ _ _ _ _ _) as [[r| |] s1]; [|done|done].
  by intros [= <- _].
Qed.

End Handlers.

(** C2, where the code departs from it. The sample feed has a period that
    is not greater than [PERIOD_HOURS_MIN], so the feed object the reader
    builds has [min_channel_idle_time = 0], and ten seconds after the last
    message the sleep of the claim is [max(0, 0 - 10) = 0]. The messenger
    computes its sleep from [config.MIN_CHANNEL_IDLE_TIME] instead: 890, and
    it holds the batch back until the clock reads 1000. *)
Theorem idle_gate_ignores_feed_idle_time :
  let fc := Samples.feed_config 1 false None in
  let e := Samples.env fc (fun _ => true) in
  let s0 := Samples.state 109 (Samples.feed_object fc 900 []) in
  exists held s1 s2,
    Feed.__post_init__ e 2 (of_string "#news") (of_string "planet") s0
    = (Ok held, s1)
    /\ Config.period (FeedObject.config held) = Some 1
    /\ Config.PERIOD_HOURS_MIN (config e) = 1
    /\ FeedObject.min_channel_idle_time held = 0
    /\ clock s1 = 110
    /\ CHANNEL_LAST_INCOMING_MSG_TIMES s1 !! of_string "#news" = Some 100
    /\ Z.max 0 (FeedObject.min_channel_idle_time held - (clock s1 - 100)) = 0
    /\ Bot.idle_gate_sleep_time e (clock s1) 100 = 890
    /\ Bot.idle_gate e 2 (of_string "#news") (set_feed held s1) = (Ok tt, s2)
    /\ clock s2 = 1000.
Proof.
  intros fc e s0.
  set (run := Feed.__post_init__ e 2 (of_string "#news") (of_string "planet") s0).
  set (held := match run.1 with
               | Ok f => f
               | _ => Samples.feed_object fc 900 []
               end).
  exists held, run.2, (gate_exit e 100 (set_feed held run.2)).
  split; [vm_compute; reflexivity|].
  split; [vm_compute; reflexivity|].
  split; [reflexivity|].
  split; [vm_compute; reflexivity|].
  split; [vm_compute; reflexivity|].
  split; [vm_compute; reflexivity|].
  split; [vm_compute; reflexivity|].
  split; [vm_compute; reflexivity|].
  split.
  - apply idle_gate_passes; [lia | vm_compute; reflexivity | vm_compute; reflexivity].
  - vm_compute. reflexivity.
Qed.

(** C9, where the code departs from it. The sample deployment configures
    [#news]; the server reports the bot's own join as [#News]. The
    casefolded check lets the join through, and the handler then looks
    [CHANNEL_JOIN_EVENTS] up under [#News], which [_setup_channels] never
    stored: [KeyError], and neither map is updated. Under the configured
    spelling the same join sets the event. *)
Theorem handle_join_other_spelling_raises :
  let fc := Samples.feed_config 2 false None in
  let e := Samples.env fc (fun _ => true) in
  let s0 := Samples.state 110 (Samples.feed_object fc 900 []) in
  let hostmask :=
    (of_string "feedbot", of_string "~feedbot", of_string "example.org") in
  exists s1 s2,
    Bot._setup_channels e s0 = (Ok tt, s1)
    /\ CHANNEL_JOIN_EVENTS s1 !! of_string "#news" = Some false
    /\ of_string "feedbot" = Config.nick (Config.INSTANCE (config e))
    /\ Lib.casefold (lib e) (of_string "#News")
       ∈ Config.channels_casefold (Config.INSTANCE (config e))
    /\ Bot._handle_join e hostmask [of_string "#News"] s1
       = (Raise (KeyError (of_string "#News")), s1)
    /\ Bot._handle_join e hostmask [of_string "#news"] s1 = (Ok tt, s2)
    /\ CHANNEL_JOIN_EVENTS s2 !! of_string "#news" = Some true.
Proof.
  intros fc e s0 hostmask.
  eexists. eexists.
  split; [reflexivity|].
  split; [vm_compute; reflexivity|].
  split; [reflexivity|].
  assert (Hin : Lib.casefold (lib e) (of_string "#News")
                ∈ Config.channels_casefold (Config.INSTANCE (config e))).
  { refine (bool_decide_unpack _ _). vm_compute. exact I. }
  split; [exact Hin|].
  split.
  { apply (handle_join_other_spelling e); [exact Hin | vm_compute; reflexivity]. }
  split.
  { apply (handle_join_known e _ _ _ _ _ false).
    - refine (bool_decide_unpack _ _). vm_compute. exact I.
    - vm_compute. reflexivity. }
  cbn [CHANNEL_JOIN_EVENTS set_CHANNEL_LAST_INCOMING_MSG_TIMES set_CHANNEL_JOIN_EVENTS].
  apply lookup_insert_eq.
Qed.

End BotFacts.

(* ===================================================================== *)
(** * bot.py: the pace of the posts *)
(* ===================================================================== *)

Module PacingFacts.

Import PyStr Py Machine Effects Frames.

(** ** Computations that keep a property of the state *)

Lemma keeps_ret {A} (P : State -> Prop) (a : A) : keeps P (ret a).
Proof. by intros s r s' [= <- <-]. Qed.

Lemma keeps_raise {A} (P : State -> Prop) (e : exn) : keeps P (@raise A e).
Proof. by intros s r s' [= <- <-]. Qed.

Lemma keeps_diverge {A} (P : State -> Prop) : keeps P (@diverge A).
Proof. by intros s r s' [= <- <-]. Qed.

Lemma keeps_gets {A} (P : State -> Prop) (f : State -> A) : keeps P (gets f).
Proof. by intros s r s' [= <- <-]. Qed.

Lemma keeps_modify (P : State -> Prop) (f : State -> State) :
  (forall s, P s -> P (f s)) -> keeps P (modify f).
Proof. intros Hf s r s' [= <- <-]. apply Hf. Qed.

Lemma keeps_bind {A B} (P : State -> Prop) (m : M A) (k : A -> M B) :
  keeps P m -> (forall a, keeps P (k a)) -> keeps P (bind m k).
Proof.
  intros Hm Hk s r s'. unfold bind.
  destruct (m s) as [[a| |] s1] eqn:H1.
  - intros H2 HP. eapply Hk; [exact H2|]. by eapply Hm.
  - intros [= <- <-]. by eapply Hm.
  - intros [= <- <-]. by eapply Hm.
Qed.

Lemma keeps_try_except {A} (P : State -> Prop) (body : M A) (handler : exn -> M A) :
  keeps P body -> (forall e, keeps P (handler e)) -> keeps P (try_except body handler).
Proof.
  intros Hb Hh s r s'. unfold try_except.
  destruct (body s) as [[a|e|] s1] eqn:H1.
  - intros [= <- <-]. by eapply Hb.
  - intros H2 HP. eapply Hh; [exact H2|]. by eapply Hb.
  - intros [= <- <-]. by eapply Hb.
Qed.

Lemma keeps_try_finally {A} (P : State -> Prop) (body : M A) (final : M unit) :
  keeps P body -> keeps P final -> keeps P (try_finally body final).
Proof.
  intros Hb Hf s r s'. unfold try_finally.
  destruct (body s) as [[a|e|] s1] eqn:H1.
  - destruct (final s1) as [[[]|e'|] s2] eqn:H2;
      intros [= <- <-] HP; (eapply Hf; [exact H2|]); by eapply Hb.
  - destruct (final s1) as [[[]|e'|] s2] eqn:H2;
      intros [= <- <-] HP; (eapply Hf; [exact H2|]); by eapply Hb.
  - intros [= <- <-]. by eapply Hb.
Qed.

Lemma keeps_for_each {A} (P : State -> Prop) (l : list A) (body : A -> M unit) :
  (forall x, keeps P (body x)) -> keeps P (for_each l body).
Proof.
  intros Hb. induction l as [|x l IH]; cbn [for_each].
  - apply keeps_ret.
  - apply keeps_bind; [apply Hb | intros _; exact IH].
Qed.

Lemma keeps_getitem {V} (P : State -> Prop) (d : gmap str V) (k : str) :
  keeps P (getitem d k).
Proof. unfold getitem. destruct (d !! k); [apply keeps_ret | apply keeps_raise]. Qed.

(** ** Lists *)

Lemma one_selected {A} (f : A -> bool) (l : list A) :
  (1 <= length (List.filter f l))%nat ->
  exists i x, l !! i = Some x /\ f x = true.
Proof.
  induction l as [|a l IH]; cbn [List.filter]; [simpl; lia|].
  destruct (f a) eqn:Ha.
  - intros _. by exists 0%nat, a.
  - intros Hlen. destruct (IH Hlen) as (i & x & Hi & Hx). by exists (S i), x.
Qed.

Lemma two_selected {A} (f : A -> bool) (l : list A) :
  (2 <= length (List.filter f l))%nat ->
  exists i j x y,
    (i < j)%nat /\ l !! i = Some x /\ l !! j = Some y /\ f x = true /\ f y = true.
Proof.
  induction l as [|a l IH]; cbn [List.filter]; [simpl; lia|].
  destruct (f a) eqn:Ha.
  - cbn [length]. intros Hlen.
    destruct (one_selected f l) as (j & y & Hj & Hy); [lia|].
    exists 0%nat, (S j), a, y. repeat split; try done. lia.
  - intros Hlen. destruct (IH Hlen) as (i & j & x & y & Hij & Hi & Hj & Hx & Hy).
    exists (S i), (S j), x, y. repeat split; try done. lia.
Qed.

Section WithEnv.

Context (env : Env).

Let spm : Z := Config.SECONDS_PER_MESSAGE (config env).

(** ** What keeps the pace *)

Lemma paced_still (s s' : State) :
  irc_sent s' = irc_sent s -> irc_sent_at s' = irc_sent_at s ->
  clock s <= clock s' -> paced spm s -> paced spm s'.
Proof.
  intros Hsent Hat Hclock (Hlen & Hgap & Hlast).
  unfold paced, timeline in *. rewrite Hsent, Hat.
  split; [exact Hlen|]. split; [exact Hgap|].
  intros i ti li Hi Hp. specialize (Hlast i ti li Hi Hp). lia.
Qed.

Lemma timeline_sent (s : State) (target : str) (msg : Msg) :
  length (irc_sent_at s) = length (irc_sent s) ->
  zip (irc_sent_at s ++ [clock s]) (irc_sent s ++ [(target, msg)])
  = timeline s ++ [(clock s, (target, msg))].
Proof.
  intros Hlen. unfold timeline. by rewrite zip_with_app.
Qed.

Lemma timeline_length (s : State) :
  length (irc_sent_at s) = length (irc_sent s) ->
  length (timeline s) = length (irc_sent s).
Proof. intros Hlen. unfold timeline. rewrite length_zip_with. lia. Qed.

(** A message that is not a post can go out at any time. *)
Lemma keeps_alert (target : str) (msg : Msg) :
  is_post (target, msg) = false -> keeps (paced spm) (irc_msg env target msg).
Proof.
  intros Hmsg s r s'. unfold irc_msg.
  destruct (irc_ok env (irc_calls s)); intros [= <- <-] Hs.
  - destruct Hs as (Hlen & Hgap & Hlast). unfold paced, timeline.
    cbn [irc_sent irc_sent_at clock set_irc].
    rewrite (timeline_sent _ _ _ Hlen).
    assert (Hsize := timeline_length s Hlen).
    split; [rewrite !length_app; simpl; lia|].
    split.
    + intros i j ti tj li lj Hij Hi Hj Hpi Hpj.
      destruct (decide (j < length (timeline s))%nat) as [Hlt|Hge].
      * rewrite lookup_app_l in Hi by lia. rewrite lookup_app_l in Hj by lia.
        by apply (Hgap i j ti tj li lj).
      * rewrite lookup_app_r in Hj by lia.
        destruct (j - length (timeline s))%nat; [|done].
        injection Hj as <- <-. congruence.
    + intros i ti li Hi Hpi.
      destruct (decide (i < length (timeline s))%nat) as [Hlt|Hge].
      * rewrite lookup_app_l in Hi by lia. by apply (Hlast i ti li).
      * rewrite lookup_app_r in Hi by lia.
        destruct (i - length (timeline s))%nat; [|done].
        injection Hi as <- <-. congruence.
  - by apply (paced_still s).
Qed.

(** A post goes out no sooner than [SECONDS_PER_MESSAGE] after the last
    one, and the messenger then sleeps that long. *)
Lemma keeps_post_entry (channel feed_name : str) (entry : FeedEntry.t) :
  keeps (paced spm) (Bot.post_entry env channel feed_name entry).
Proof.
  intros s r s'. unfold Bot.post_entry, monotonic, irc_msg, sleep.
  FeedFacts.mstep. fold spm.
  destruct (irc_ok env (irc_calls s)).
  - cbn [clock set_irc].
    destruct (Z.max 0 (clock s + spm - clock s) <? 0) eqn:Hneg; [lia|].
    FeedFacts.mstep. intros [= <- <-] (Hlen & Hgap & Hlast). unfold paced, timeline.
    cbn [irc_sent irc_sent_at clock set_irc set_clock].
    rewrite (timeline_sent _ _ _ Hlen).
    assert (Hsize := timeline_length s Hlen).
    split; [rewrite !length_app; simpl; lia|].
    split.
    + intros i j ti tj li lj Hij Hi Hj Hpi Hpj.
      destruct (decide (j < length (timeline s))%nat) as [Hlt|Hge].
      * rewrite lookup_app_l in Hi by lia. rewrite lookup_app_l in Hj by lia.
        by apply (Hgap i j ti tj li lj).
      * rewrite lookup_app_r in Hj by lia.
        destruct (j - length (timeline s))%nat eqn:Hj0; [|done].
        injection Hj as <- <-.
        rewrite lookup_app_l in Hi by lia.
        by apply (Hlast i ti li).
    + intros i ti li Hi Hpi.
      destruct (decide (i < length (timeline s))%nat) as [Hlt|Hge].
      * rewrite lookup_app_l in Hi by lia.
        specialize (Hlast i ti li Hi Hpi). lia.
      * rewrite lookup_app_r in Hi by lia.
        destruct (i - length (timeline s))%nat; [|done].
        injection Hi as <- <-. lia.
  - intros [= <- <-]. by apply (paced_still s).
Qed.

Lemma keeps_sleep (d : Z) : keeps (paced spm) (sleep d).
Proof.
  intros s r s'. unfold sleep. destruct (d <? 0) eqn:Hd.
  - by intros [= <- <-].
  - intros [= <- <-]. apply (paced_still s); cbn; try done. lia.
Qed.

Lemma keeps_lock_acquire_nonblocking : keeps (paced spm) lock_acquire_nonblocking.
Proof.
  intros s r s'. unfold lock_acquire_nonblocking.
  destruct (outgoing_msg_lock s); intros [= <- <-]; [done|].
  by apply (paced_still s).
Qed.

Lemma keeps_lock_acquire : keeps (paced spm) lock_acquire.
Proof.
  intros s r s'. unfold lock_acquire.
  destruct (outgoing_msg_lock s); intros [= <- <-]; [done|].
  by apply (paced_still s).
Qed.

Lemma keeps_lock_release : keeps (paced spm) lock_release.
Proof.
  intros s r s'. unfold lock_release.
  destruct (outgoing_msg_lock s); intros [= <- <-]; [|done].
  by apply (paced_still s).
Qed.

Lemma keeps_log_at (level : Level) (msg : Msg) : keeps (paced spm) (log_at level msg).
Proof. apply keeps_modify. intros s. by apply (paced_still s). Qed.

Lemma keeps_idle_gate (fuel : nat) (channel : str) :
  keeps (paced spm) (Bot.idle_gate env fuel channel).
Proof.
  induction fuel as [|fuel IH]; cbn [Bot.idle_gate]; [apply keeps_diverge|].
  apply keeps_bind; [apply keeps_lock_acquire_nonblocking|]. intros acquired.
  apply keeps_bind.
  { destruct acquired; [apply keeps_ret | apply keeps_lock_acquire]. }
  intros _. apply keeps_bind; [apply keeps_gets|]. intros d.
  apply keeps_bind; [apply keeps_getitem|]. intros last.
  apply keeps_bind; [apply keeps_gets|]. intros now.
  destruct (_ =? 0); [apply keeps_ret|].
  apply keeps_bind; [apply keeps_lock_release|]. intros _.
  apply keeps_bind; [apply keeps_sleep|]. intros _. exact IH.
Qed.

Lemma keeps_wait_connected (fuel : nat) :
  keeps (paced spm) (Bot.wait_connected env fuel).
Proof.
  induction fuel as [|fuel IH]; cbn [Bot.wait_connected]; [apply keeps_diverge|].
  apply keeps_bind; [apply keeps_gets|]. intros connected.
  destruct connected; [apply keeps_ret|].
  apply keeps_bind; [apply keeps_sleep|]. intros _. exact IH.
Qed.

(** The cached properties send nothing and do not sleep. *)
Lemma keeps_postable_entries : keeps (paced spm) (Feed.postable_entries env).
Proof.
  intros s r s' Hrun.
  pose proof (FeedFacts.postable_entries_effect env _ _ _ Hrun) as [[Hs' _] _].
  apply paced_still; rewrite Hs'; cbn; done.
Qed.

Lemma keeps_unposted_entries : keeps (paced spm) (Feed.unposted_entries env).
Proof.
  intros s r s' Hrun.
  pose proof (FeedFacts.unposted_entries_feed_only env _ _ _ Hrun) as [Hs' _].
  apply paced_still; rewrite Hs'; cbn; done.
Qed.

Lemma keeps_msg_channel_iteration (fuel : nat) (channel : str) :
  keeps (paced spm) (Bot._msg_channel_iteration env fuel channel).
Proof.
  unfold Bot._msg_channel_iteration.
  apply keeps_bind.
  - apply keeps_try_except.
    + apply keeps_bind; [apply keeps_postable_entries|]. intros postable.
      apply keeps_bind.
      { destruct (truthy postable); [|apply keeps_ret].
        apply keeps_try_finally; [|apply keeps_lock_release].
        apply keeps_bind; [apply keeps_idle_gate|]. intros _.
        apply keeps_bind; [apply keeps_wait_connected|]. intros _.
        apply keeps_bind; [apply keeps_postable_entries|]. intros postable'.
        apply keeps_bind; [apply keeps_gets|]. intros self.
        apply keeps_for_each. intros entry. apply keeps_post_entry. }
      intros _. apply keeps_bind; [apply keeps_unposted_entries|]. intros unposted.
      destruct (truthy unposted); [|apply keeps_ret].
      apply keeps_bind; [apply keeps_gets|]. intros self.
      apply keeps_bind; [apply keeps_unposted_entries|]. intros unposted'.
      apply keeps_modify. intros s. by apply (paced_still s).
    + intros exc. apply keeps_bind; [apply keeps_gets|]. intros self.
      unfold _alert. apply keeps_bind; [apply keeps_log_at|]. intros _.
      by apply keeps_alert.
  - intros _. apply keeps_modify. intros s. by apply (paced_still s).
Qed.

Lemma keeps_handle_join (hostmask : str * str * str) (args : list str) :
  keeps (paced spm) (Bot._handle_join env hostmask args).
Proof.
  unfold Bot._handle_join. destruct hostmask as [[user ident] hostname].
  destruct args as [|channel args]; [apply keeps_raise|].
  destruct (_ || _); [apply keeps_ret|].
  apply keeps_bind; [apply keeps_gets|]. intros events.
  apply keeps_bind; [apply keeps_getitem|]. intros _.
  apply keeps_bind; [apply keeps_modify; intros s; by apply (paced_still s)|].
  intros _. apply keeps_bind; [apply keeps_gets|]. intros now.
  apply keeps_bind; [apply keeps_modify; intros s; by apply (paced_still s)|].
  intros _. apply keeps_bind; [apply keeps_gets|]. intros times.
  apply keeps_bind; [apply keeps_getitem|]. intros _. apply keeps_ret.
Qed.

Lemma keeps_handle_privmsg (hostmask : str * str * str) (args : list str) :
  keeps (paced spm) (Bot._handle_privmsg env hostmask args).
Proof.
  unfold Bot._handle_privmsg.
  destruct args as [|channel args]; [apply keeps_raise|].
  destruct (negb (bool_decide (_ ∈ _))).
  - destruct (negb (bool_decide (_ = _))); [apply keeps_raise|].
    destruct hostmask as [[user ident] hostname].
    destruct (negb (startswith _ _)); [apply keeps_raise|].
    destruct (negb (bool_decide _)); [|apply keeps_ret].
    unfold _alert. apply keeps_bind; [apply keeps_log_at|]. intros _.
    by apply keeps_alert.
  - apply keeps_bind; [apply keeps_gets|]. intros now.
    apply keeps_modify. intros s. by apply (paced_still s).
Qed.

Lemma keeps_step (fuel : nat) (st : Step) : keeps (paced spm) (step env fuel st).
Proof.
  destruct st as [channel held|hostmask args|hostmask args|seconds]; cbn [step].
  - apply keeps_bind; [|intros _; apply keeps_msg_channel_iteration].
    apply keeps_modify. intros s. by apply (paced_still s).
  - apply keeps_handle_join.
  - apply keeps_handle_privmsg.
  - apply keeps_sleep.
Qed.

Lemma run_paced (fuel : nat) (steps : list Step) (s : State) :
  paced spm s -> paced spm (run env fuel steps s).
Proof.
  revert s. induction steps as [|st steps IH]; intros s Hs; [exact Hs|].
  unfold run. cbn [fold_left]. apply IH.
  destruct (step env fuel st s) as [r s1] eqn:Hstep. by apply (keeps_step _ _ _ _ _ Hstep).
Qed.

(** A paced state has at most one post in each window. *)
Lemma paced_one_per_window (s : State) : paced spm s -> one_per_window is_post spm s.
Proof.
  intros (_ & Hgap & _) t. unfold sent_in_window. rewrite length_map.
  set (in_window := fun x : Z * (str * Msg) =>
                      is_post x.2 && (t <=? x.1) && (x.1 <? t + spm)).
  destruct (decide (length (List.filter in_window (timeline s)) <= 1)%nat)
    as [Hle|Hgt]; [exact Hle|].
  exfalso.
  destruct (two_selected in_window (timeline s) ltac:(lia))
    as (i & j & [ti li] & [tj lj] & Hij & Hi & Hj & Hfi & Hfj).
  subst in_window. cbn [fst snd] in Hfi, Hfj.
  apply andb_prop in Hfi as [[Hpi Hi1]%andb_prop Hi2].
  apply andb_prop in Hfj as [[Hpj Hj1]%andb_prop Hj2].
  specialize (Hgap i j ti tj li lj Hij Hi Hj Hpi Hpj). lia.
Qed.


End WithEnv.



End PacingFacts.

(* ===================================================================== *)
(** * util/hashlib.py: hashing lists of texts *)
(* ===================================================================== *)

Module HashlibFacts.

Import Py Int8Hash.

(** What [as_int] ends in, by whether the text has a UTF-8 encoding. *)
Lemma as_int_by_encoding (text : PyStr.str) :
  match PyStr.encode text with
  | None => as_int text = Raise UnicodeEncodeError
  | Some seed =>
      as_int text = Ok (from_bytes_big_signed (Keccak.shake_128 seed 8))
      /\ MIN <= from_bytes_big_signed (Keccak.shake_128 seed 8) <= MAX
  end.
Proof.
  unfold as_int. destruct (PyStr.encode text) as [seed|]; [|reflexivity].
  pose proof (Int8HashFacts.from_bytes_big_signed_range (Keccak.shake_128 seed 8)
                (KeccakFacts.shake_128_length seed 8)) as Hrange.
  rewrite <- Int8HashFacts.MIN_value, <- Int8HashFacts.MAX_value in Hrange.
  split; [|exact Hrange]. change BYTES with 8%nat.
  destruct Hrange as [Hlo Hhi]. apply Z.leb_le in Hlo, Hhi. by rewrite Hlo, Hhi.
Qed.

Lemma as_int_cases (text : PyStr.str) :
  (exists h, as_int text = Ok h /\ MIN <= h <= MAX)
  \/ (as_int text = Raise UnicodeEncodeError /\ PyStr.encode text = None).
Proof.
  pose proof (as_int_by_encoding text) as H.
  destruct (PyStr.encode text) as [seed|].
  - left. destruct H as [H1 H2]. eauto.
  - right. done.
Qed.

(** X1. [Int8Hash.as_list] either returns one hash per text, in the order of
    the texts and each in [MIN, MAX], or raises [UnicodeEncodeError] because
    one of the texts has no UTF-8 encoding. Nothing else happens: the
    assertion of [as_int] never fails. *)
Theorem as_list_outcome (texts : list PyStr.str) :
  (exists hs,
      as_list texts = Ok hs
      /\ Forall2 (fun text h => as_int text = Ok h /\ MIN <= h <= MAX) texts hs)
  \/ (as_list texts = Raise UnicodeEncodeError
      /\ exists text, text ∈ texts /\ PyStr.encode text = None).
Proof.
  induction texts as [|text texts IH]; cbn [as_list].
  - left. exists []. split; [reflexivity | constructor].
  - destruct (as_int_cases text) as [(h & Hh & Hrange)|[Hraise Henc]].
    + rewrite Hh. destruct IH as [(hs & Hhs & Hall)|(Hraise & t & Ht & Henc)].
      * left. exists (h :: hs). rewrite Hhs. split; [reflexivity|].
        constructor; [by split | exact Hall].
      * right. rewrite Hraise. split; [reflexivity|].
        exists t. split; [by right | exact Henc].
    + right. rewrite Hraise. split; [reflexivity|].
      exists text. split; [by left | exact Henc].
Qed.

(** The step of the comprehension of [as_dict]. *)
Lemma as_dict_step (texts : list PyStr.str) (d0 : gmap Z PyStr.str) :
  let run :=
    fold_left
      (fun acc text =>
         match acc with
         | Ok d =>
             match as_int text with
             | Ok h => Ok (<[h := text]> d)
             | Raise e => Raise e
             | Diverge => Diverge
             end
         | Raise e => Raise e
         | Diverge => Diverge
         end)
      texts (Ok d0) in
  (exists d,
      run = Ok d
      /\ (forall h text, d !! h = Some text ->
            d0 !! h = Some text \/ (text ∈ texts /\ as_int text = Ok h))
      /\ (forall h, is_Some (d0 !! h) -> is_Some (d !! h))
      /\ (forall text, text ∈ texts ->
            exists h, as_int text = Ok h /\ is_Some (d !! h))
      /\ (forall h, (forall t, t ∈ texts -> as_int t <> Ok h) -> d !! h = d0 !! h)
      /\ (forall i text h,
            texts !! i = Some text -> as_int text = Ok h ->
            (forall j t, (i < j)%nat -> texts !! j = Some t -> as_int t <> Ok h) ->
            d !! h = Some text)
      /\ (size d <= size d0 + length texts)%nat)
  \/ (run = Raise UnicodeEncodeError
      /\ exists text, text ∈ texts /\ PyStr.encode text = None).
Proof.
  revert d0. induction texts as [|text texts IH]; intros d0; cbn [fold_left].
  - left. exists d0. split; [reflexivity|]. split; [by left|].
    split; [done|]. split; [by intros text Hin%elem_of_nil|].
    split; [done|]. split; [intros i text h Hi; done | simpl; lia].
  - destruct (as_int_cases text) as [(h & Hh & _)|[Hraise Henc]].
    + rewrite Hh.
      destruct (IH (<[h := text]> d0))
        as [(d & Hd & Hfrom & Hmono & Hall & Hkeep & Hlast & Hsize)
           |(Hraise & t & Ht & Henc)].
      * left. exists d. split; [exact Hd|].
        split; [|split; [|split; [|split; [|split]]]].
        -- intros h' text' Hlook.
           destruct (Hfrom h' text' Hlook) as [Hold|[Hin Hhash]].
           ++ destruct (decide (h' = h)) as [->|Hne].
              ** rewrite lookup_insert_eq in Hold. injection Hold as <-.
                 right. split; [by left | exact Hh].
              ** rewrite lookup_insert_ne in Hold by done. by left.
           ++ right. split; [by right | exact Hhash].
        -- intros h' Hsome. apply Hmono.
           destruct (decide (h' = h)) as [->|Hne].
           ++ rewrite lookup_insert_eq. by eexists.
           ++ by rewrite lookup_insert_ne.
        -- intros text' [->|Hin]%elem_of_cons.
           ++ exists h. split; [exact Hh|]. apply Hmono.
              rewrite lookup_insert_eq. by eexists.
           ++ by apply Hall.
        -- intros h' Hnone. rewrite Hkeep.
           ++ apply lookup_insert_ne. intros ->. apply (Hnone text); [by left | exact Hh].
           ++ intros t Ht. apply Hnone. by right.
        -- intros [|i] text' h' Hi Hhash Hlater.
           ++ injection Hi as <-. assert (h' = h) as -> by congruence.
              rewrite Hkeep; [apply lookup_insert_eq|].
              intros t Ht. apply list_elem_of_lookup in Ht as [j Hj].
              apply (Hlater (S j) t); [lia | exact Hj].
           ++ apply (Hlast i text' h' Hi Hhash).
              intros j t Hij Hj. apply (Hlater (S j) t); [lia | exact Hj].
        -- cbn [length].
           rewrite map_size_insert in Hsize.
           destruct (d0 !! h); unfold id in Hsize; lia.
      * right. split; [exact Hraise|]. exists t. split; [by right | exact Henc].
    + right. rewrite Hraise. split.
      * clear. induction texts as [|t texts IH]; [reflexivity | exact IH].
      * exists text. split; [by left | exact Henc].
Qed.

(** X2. [Int8Hash.as_dict] either returns a dictionary in which every key
    is the hash of its value and every value is one of the texts, which has
    a key for the hash of every text, and in which, of the texts that share
    a hash, the last one is the value; or it raises [UnicodeEncodeError]
    because one of the texts has no UTF-8 encoding. *)
Theorem as_dict_outcome (texts : list PyStr.str) :
  (exists d,
      as_dict texts = Ok d
      /\ (forall h text, d !! h = Some text -> text ∈ texts /\ as_int text = Ok h)
      /\ (forall text, text ∈ texts ->
            exists h, as_int text = Ok h /\ is_Some (d !! h))
      /\ (forall i text h,
            texts !! i = Some text -> as_int text = Ok h ->
            (forall j t, (i < j)%nat -> texts !! j = Some t -> as_int t <> Ok h) ->
            d !! h = Some text)
      /\ (size d <= length texts)%nat)
  \/ (as_dict texts = Raise UnicodeEncodeError
      /\ exists text, text ∈ texts /\ PyStr.encode text = None).
Proof.
  destruct (as_dict_step texts ∅)
    as [(d & Hd & Hfrom & _ & Hall & _ & Hlast & Hsize)|Hraise]; [left | by right].
  exists d. split; [exact Hd|]. split; [|split; [|split]].
  - intros h text Hlook. destruct (Hfrom h text Hlook) as [Hold|H]; [|exact H].
    by rewrite lookup_empty in Hold.
  - exact Hall.
  - exact Hlast.
  - rewrite map_size_empty in Hsize. lia.
Qed.

End HashlibFacts.

(* ===================================================================== *)
(** * searchers/_base.py: fix_query *)
(* ===================================================================== *)

Module SearcherFacts.

Import PyStr Searcher.

Import Frames.

Lemma split_ws_words (s acc : str) :
  Forall (fun c => is_space c = false) acc ->
  Forall word (split_ws acc s).
Proof.
  revert acc. induction s as [|c s IH]; intros acc Hacc; cbn [split_ws].
  - destruct acc; [constructor|]. constructor; [by split | constructor].
  - destruct (is_space c) eqn:Hc.
    + destruct acc as [|a acc]; [apply IH; constructor|].
      constructor; [by split | apply IH; constructor].
    + apply IH. apply Forall_app. split; [exact Hacc|]. by constructor.
Qed.

Lemma split_words (s : str) : Forall word (split s).
Proof. apply split_ws_words. constructor. Qed.

Lemma split_ws_app (w s acc : str) :
  Forall (fun c => is_space c = false) w ->
  split_ws acc (w ++ s) = split_ws (acc ++ w) s.
Proof.
  revert acc. induction w as [|c w IH]; intros acc Hw.
  - by rewrite app_nil_r.
  - apply Forall_cons in Hw as [Hc Hw]. cbn [app split_ws]. rewrite Hc.
    rewrite IH by exact Hw. by rewrite <- app_assoc.
Qed.

(** Splitting what [join] has put together gives the words back. *)
Lemma split_join (ws : list str) :
  Forall word ws -> split (join (of_string " ") ws) = ws.
Proof.
  induction 1 as [|w ws [Hne Hw] Hws IH]; [reflexivity|].
  cbn [join]. destruct ws as [|w2 ws].
  - unfold split. rewrite <- (app_nil_r w) at 1. rewrite split_ws_app by exact Hw.
    cbn [app split_ws]. by destruct w.
  - unfold split. rewrite split_ws_app by exact Hw. cbn [app].
    change (of_string " " ++ ?l) with (32%N :: l).
    cbn [split_ws]. change (is_space 32) with true. cbn iota.
    destruct w as [|c w]; [done|]. f_equal. exact IH.
Qed.

(** The characters of a joined list of words: those of the words, and the
    separator. *)
Lemma join_elem (ws : list str) (c : N) :
  c ∈ join (of_string " ") ws -> c = 32%N \/ exists w, w ∈ ws /\ c ∈ w.
Proof.
  induction ws as [|w ws IH]; cbn [join]; [by intros H%elem_of_nil|].
  destruct ws as [|w2 ws].
  - intros Hc. right. exists w. split; [by left | exact Hc].
  - intros [Hc|[Hc|Hc]%elem_of_app]%elem_of_app.
    + right. exists w. split; [by left | exact Hc].
    + left. by apply list_elem_of_singleton in Hc.
    + destruct (IH Hc) as [->|(w' & Hw' & Hcw)]; [by left|].
      right. exists w'. split; [by right | exact Hcw].
Qed.

Lemma join_head (ws : list str) (c : N) :
  Forall word ws -> head (join (of_string " ") ws) = Some c -> is_space c = false.
Proof.
  intros Hws. destruct Hws as [|w ws [Hne Hw] Hws]; [done|].
  cbn [join]. destruct w as [|a w]; [done|].
  apply Forall_cons in Hw as [Ha _].
  destruct ws; cbn; intros [= <-]; exact Ha.
Qed.

Lemma join_last (ws : list str) (c : N) :
  Forall word ws -> last (join (of_string " ") ws) = Some c -> is_space c = false.
Proof.
  induction 1 as [|w ws [Hne Hw] Hws IH]; [done|].
  cbn [join]. destruct ws as [|w2 ws].
  - intros Hlast. apply last_Some_elem_of in Hlast.
    by apply (proj1 (Forall_forall _ _) Hw).
  - rewrite app_assoc, last_app.
    destruct (last (join (of_string " ") (w2 :: ws))) as [d|] eqn:Hd.
    + intros [= <-]. by apply IH.
    + apply last_None in Hd. apply Forall_cons in Hws as [[Hne2 _] _].
      cbn [join] in Hd. destruct w2; [done|]. destruct ws; discriminate.
Qed.

Lemma join_no_double_space (ws : list str) (pre post : str) :
  Forall word ws ->
  join (of_string " ") ws <> pre ++ of_string "  " ++ post.
Proof.
  change (of_string "  " ++ post) with (32%N :: 32%N :: post).
  intros Hws. revert pre.
  induction Hws as [|w ws [Hne Hw] Hws IH]; intros pre; cbn [join].
  - by destruct pre.
  - assert (Hnot : 32%N ∉ w).
    { intros Hin. by apply (proj1 (Forall_forall _ _) Hw) in Hin. }
    destruct ws as [|w2 ws].
    + intros ->. apply Hnot. apply elem_of_app. right. by left.
    + change (of_string " " ++ ?l) with (32%N :: l).
      set (J := join (of_string " ") (w2 :: ws)) in *.
      assert (HJ : forall l, J <> 32%N :: l).
      { intros l HJ. pose proof (join_head (w2 :: ws) 32%N Hws) as Hh.
        fold J in Hh. rewrite HJ in Hh. by specialize (Hh eq_refl). }
      intros Heq. apply app_eq_inv in Heq as [(k & Hk1 & Hk2)|(k & Hk1 & Hk2)].
      * destruct k as [|a k].
        -- injection Hk2 as Hk2. by apply (HJ post).
        -- injection Hk2 as <- _. apply Hnot. rewrite Hk1.
           apply elem_of_app. right. by left.
      * destruct k as [|a k].
        -- injection Hk2 as Hk2. by apply (HJ post).
        -- injection Hk2 as _ Hk2. by apply (IH k).
Qed.

(** X3. What [fix_query] returns is in normal form: its only whitespace
    characters are single blanks (U+0020) between words; it neither starts
    nor ends with whitespace and holds no two blanks in a row. *)
Theorem fix_query_normal_form (query : str) :
  (forall c, c ∈ fix_query query -> is_space c = true -> c = 32%N)
  /\ (forall c, head (fix_query query) = Some c -> is_space c = false)
  /\ (forall c, last (fix_query query) = Some c -> is_space c = false)
  /\ ~ substring (of_string "  ") (fix_query query).
Proof.
  unfold fix_query. pose proof (split_words query) as Hws.
  split; [|split; [|split]].
  - intros c Hc Hsp. destruct (join_elem _ _ Hc) as [->|(w & Hw & Hcw)]; [done|].
    apply (proj1 (Forall_forall _ _) Hws) in Hw as [_ Hw].
    apply (proj1 (Forall_forall _ _) Hw) in Hcw. congruence.
  - intros c. by apply join_head.
  - intros c. by apply join_last.
  - intros (pre & post & Heq). by apply (join_no_double_space _ pre post Hws).
Qed.

(** X4. [fix_query] keeps the words of the query, in order, and changes
    nothing in a query it has already fixed; a query of whitespace alone
    becomes the empty string. *)
Theorem fix_query_keeps_words (query : str) :
  split (fix_query query) = split query
  /\ fix_query (fix_query query) = fix_query query
  /\ (Forall (fun c => is_space c = true) query -> fix_query query = []).
Proof.
  assert (H : split (fix_query query) = split query).
  { unfold fix_query. apply split_join, split_words. }
  split; [exact H|]. split.
  - unfold fix_query at 1. rewrite H. reflexivity.
  - intros Hall. clear H. unfold fix_query, split.
    replace (split_ws [] query) with (@nil str); [reflexivity|].
    induction Hall as [|c s Hc _ IH]; [reflexivity|].
    cbn [split_ws]. rewrite Hc. exact IH.
Qed.

End SearcherFacts.

(* ===================================================================== *)
(** * feed.py: what the entry pipeline returns *)
(* ===================================================================== *)

Module EntryFacts.

Import PyStr Py Machine Feed.

(** The loop of [dict.fromkeys], from any point on: what it adds to [acc]
    is a sub-list of what is left to read, each time the first entry with
    its [long_url]. *)
Lemma dedupe_step_first (entries acc : list FeedEntry.t) :
  exists kept,
    fold_left
      (fun acc e =>
         if bool_decide (FeedEntry.long_url e ∈ map FeedEntry.long_url acc)
         then acc else acc ++ [e])
      entries acc
    = acc ++ kept
    /\ kept `sublist_of` entries
    /\ forall e, e ∈ kept ->
         (FeedEntry.long_url e ∉ map FeedEntry.long_url acc)
         /\ exists i,
              entries !! i = Some e
              /\ forall j e', (j < i)%nat -> entries !! j = Some e' ->
                              FeedEntry.long_url e' <> FeedEntry.long_url e.
Proof.
  revert acc. induction entries as [|e entries IH]; intros acc; cbn [fold_left].
  - exists []. rewrite app_nil_r. split; [done|]. split; [constructor|].
    by intros e Hin%elem_of_nil.
  - case_bool_decide as Hin.
    + destruct (IH acc) as (kept & Heq & Hsub & Hfirst).
      exists kept. split; [exact Heq|]. split; [by apply sublist_cons|].
      intros e0 He0. destruct (Hfirst e0 He0) as (Hnew & i & Hi & Hbefore).
      split; [exact Hnew|]. exists (S i). split; [exact Hi|].
      intros [|j] e' Hj Hlook.
      * injection Hlook as <-. intros Heq'. apply Hnew. by rewrite <- Heq'.
      * apply (Hbefore j e'); [lia | exact Hlook].
    + destruct (IH (acc ++ [e])) as (kept & Heq & Hsub & Hfirst).
      exists (e :: kept). rewrite Heq, <- app_assoc. split; [done|].
      split; [by apply sublist_skip|].
      intros e0 [->|He0]%elem_of_cons.
      * split; [exact Hin|]. exists 0%nat. split; [done|]. intros j e' Hj. lia.
      * destruct (Hfirst e0 He0) as (Hnew & i & Hi & Hbefore).
        rewrite map_app in Hnew. apply not_elem_of_app in Hnew as [Hnew Hne].
        split; [exact Hnew|]. exists (S i). split; [exact Hi|].
        intros [|j] e' Hj Hlook.
        -- injection Hlook as <-. intros Heq'. apply Hne. rewrite <- Heq'.
           cbn. by left.
        -- apply (Hbefore j e'); [lia | exact Hlook].
Qed.

Lemma dedupe_entries_sublist (entries : list FeedEntry.t) :
  _dedupe_entries entries `sublist_of` entries.
Proof.
  unfold _dedupe_entries.
  destruct (dedupe_step_first entries []) as (kept & -> & Hsub & _). exact Hsub.
Qed.

(** A list with distinct URLs passes through unchanged. *)
Lemma dedupe_step_distinct (entries acc : list FeedEntry.t) :
  NoDup (map FeedEntry.long_url (acc ++ entries)) ->
  fold_left
    (fun acc e =>
       if bool_decide (FeedEntry.long_url e ∈ map FeedEntry.long_url acc)
       then acc else acc ++ [e])
    entries acc
  = acc ++ entries.
Proof.
  revert acc. induction entries as [|e entries IH]; intros acc Hnd; cbn [fold_left].
  - by rewrite app_nil_r.
  - rewrite bool_decide_eq_false_2.
    + rewrite IH; rewrite <- app_assoc; [done | exact Hnd].
    + rewrite map_app in Hnd. apply NoDup_app in Hnd as (_ & Hdisj & _).
      intros Hin. apply (Hdisj _ Hin). by left.
Qed.

(** X5. [Feed._dedupe_entries] keeps, for every [long_url], the first entry
    that has it and drops the later ones: the result is a sub-list of the
    input in the input's order, its URLs are pairwise distinct, every URL of
    the input is still there, and deduplicating again changes nothing. *)
Theorem dedupe_entries_first_occurrence (entries : list FeedEntry.t) :
  let deduped := _dedupe_entries entries in
  NoDup (map FeedEntry.long_url deduped)
  /\ deduped `sublist_of` entries
  /\ (forall u, u ∈ map FeedEntry.long_url entries ->
                u ∈ map FeedEntry.long_url deduped)
  /\ (forall e, e ∈ deduped ->
        exists i,
          entries !! i = Some e
          /\ forall j e', (j < i)%nat -> entries !! j = Some e' ->
                          FeedEntry.long_url e' <> FeedEntry.long_url e)
  /\ _dedupe_entries deduped = deduped.
Proof.
  intros deduped.
  pose proof (FeedFacts.dedupe_entries_NoDup entries) as Hnd. fold deduped in Hnd.
  split; [exact Hnd|]. split; [apply dedupe_entries_sublist|].
  split; [apply FeedFacts.dedupe_entries_keeps|]. split.
  - intros e He. subst deduped. unfold _dedupe_entries in He.
    destruct (dedupe_step_first entries []) as (kept & Heq & _ & Hfirst).
    rewrite Heq in He. by apply Hfirst in He as [_ He].
  - unfold _dedupe_entries at 1. by rewrite dedupe_step_distinct.
Qed.

(** ** The whole pipeline *)

Lemma escape_spaces_no_blank (s : str) : 32%N ∉ escape_spaces s.
Proof.
  unfold escape_spaces. intros Hin.
  apply list_elem_of_In, in_flat_map in Hin as (c & _ & Hc).
  apply list_elem_of_In in Hc.
  destruct (c =? 32)%N eqn:E.
  - apply (bool_decide_eq_false_1 (32%N ∈ of_string "%20")); [reflexivity | exact Hc].
  - apply list_elem_of_singleton in Hc. apply N.eqb_neq in E. congruence.
Qed.

Lemma Forall_map_same_url (P : str -> Prop) (f : FeedEntry.t -> FeedEntry.t)
    (entries : list FeedEntry.t) :
  (forall e, FeedEntry.long_url (f e) = FeedEntry.long_url e) ->
  Forall (fun e => P (FeedEntry.long_url e)) entries ->
  Forall (fun e => P (FeedEntry.long_url e)) (map f entries).
Proof.
  intros Hf Hall. apply Forall_map. eapply Forall_impl; [exact Hall|].
  intros e He. cbn. by rewrite Hf.
Qed.

Lemma filter_all {A} (p : A -> bool) (l : list A) :
  (forall x, p x = true) -> List.filter p l = l.
Proof.
  intros Hp. induction l as [|x l IH]; [done|]. cbn [List.filter].
  by rewrite Hp, IH.
Qed.

(** A loop that keeps at most one item for each element that passes [q]
    keeps no more items than elements pass. *)
Lemma flat_map_filter_length {A B} (f : A -> list B) (p q : A -> bool) (l : list A) :
  (forall x, length (f x) <= if q x then 1 else 0)%nat ->
  (length (flat_map f (List.filter p l))
   <= length (List.filter (fun x => p x && q x) l))%nat.
Proof.
  intros Hf. induction l as [|x l IH]; [done|]. cbn [List.filter].
  destruct (p x); cbn [andb]; [|exact IH].
  cbn [flat_map]. rewrite length_app. specialize (Hf x).
  destruct (q x); cbn [length] in *; lia.
Qed.

(** X6. Whatever the configuration and the library functions, the entries
    [Feed._process_entries] returns have pairwise distinct [long_url]s, none
    of which holds a blank; there are no more of them than entries got past
    the blacklist and the whitelist, and so never more than went in. If no
    entry gets past the lists, nothing is returned. *)
Theorem process_entries_output (env : Env) (channel name : str)
    (feed_config : Config.FeedConfig) (entries : list FeedEntry.t) :
  let out := _process_entries env channel name feed_config entries in
  let passed :=
    List.filter (Frames.passes_lists env channel name feed_config) entries in
  NoDup (map FeedEntry.long_url out)
  /\ Forall (fun e => 32%N ∉ FeedEntry.long_url e) out
  /\ (length out <= length passed)%nat
  /\ (length out <= length entries)%nat
  /\ (passed = [] -> out = []).
Proof.
  intros out passed.
  split; [apply FeedFacts.process_entries_NoDup|].
  assert (Hpassed : (length passed <= length entries)%nat).
  { subst passed. apply List.filter_length_le. }
  cut (Forall (fun e => 32%N ∉ FeedEntry.long_url e) out
       /\ (length out <= length passed)%nat).
  { intros [Hall Hlen]. split; [exact Hall|]. split; [exact Hlen|].
    split; [lia|]. intros Hnil. rewrite Hnil in Hlen.
    destruct out; [done | cbn in Hlen; lia]. }
  clear Hpassed.
  subst out passed. unfold _process_entries, Frames.passes_lists. cbv zeta.
  set (blacklisting := default false (Config.blacklist feed_config)).
  set (whitelisting := default false (Config.whitelist feed_config)).
  set (clean := fun entry : FeedEntry.t =>
         negb (bool_decide
                 (is_Some (Lib.blacklisted_pattern (lib env) channel name entry)))).
  set (wanted := fun entry : FeedEntry.t =>
         bool_decide
           (is_Some (Lib.whitelisted_pattern (lib env) channel name entry))).
  set (listed := if blacklisting then List.filter clean entries else entries).
  assert (Hlisted : listed
                    = List.filter (fun e => negb blacklisting || clean e) entries).
  { subst listed. destruct blacklisting; cbn [negb orb]; [done|].
    by rewrite filter_all. }
  set (chosen := if whitelisting then flat_map _ listed else listed).
  assert (Hchosen :
    (length chosen
     <= length (List.filter
                  (fun e => (negb blacklisting || clean e)
                            && (negb whitelisting || wanted e)) entries))%nat).
  { subst chosen. rewrite Hlisted. destruct whitelisting; cbn [negb orb].
    - apply flat_map_filter_length. intros e. subst wanted. cbn beta.
      destruct (Lib.whitelisted_pattern _ _ _ e) as [[key pattern]|].
      + rewrite (bool_decide_eq_true_2 (is_Some (Some (key, pattern))))
          by (by eexists).
        case_bool_decide; cbn [length]; lia.
      + rewrite (bool_decide_eq_false_2 (is_Some (@None (str * str))))
          by (by intros [? ?]).
        cbn [length]. lia.
    - apply Nat.eq_le_incl. f_equal. apply List.filter_ext. intros e.
      by rewrite andb_true_r. }
  destruct (blacklisting && negb (truthy listed)) eqn:Hb.
  { apply andb_true_iff in Hb as [_ Hb]. destruct listed; [|discriminate].
    split; [constructor | simpl; lia]. }
  clearbody listed.
  destruct (whitelisting && negb (truthy chosen)) eqn:Hw.
  { apply andb_true_iff in Hw as [_ Hw]. destruct chosen; [|discriminate].
    split; [constructor | simpl; lia]. }
  clearbody chosen.
  match goal with
  | |- context [_dedupe_entries ?l] => set (processed := l)
  end.
  split.
  - assert (Hall : Forall (fun e => 32%N ∉ FeedEntry.long_url e) processed).
    { subst processed.
      unfold stage_remove_trailing_period, stage_strip_unicode_quotes.
      repeat (apply (Forall_map_same_url (fun u => 32%N ∉ u));
              [intros e; repeat case_match; reflexivity|]).
      apply Forall_map, Forall_forall. intros e _. cbn.
      apply escape_spaces_no_blank. }
    apply Forall_forall. intros e He. apply (proj1 (Forall_forall _ _) Hall).
    eapply elem_of_sublist; [exact He | apply dedupe_entries_sublist].
  - etrans; [apply sublist_length, dedupe_entries_sublist|].
    etrans; [|exact Hchosen].
    subst processed.
    unfold stage_remove_trailing_period, stage_strip_unicode_quotes.
    rewrite !length_map.
    repeat (case_match; rewrite ?length_map); lia.
Qed.

(** X7. The smart-quote stage changes titles only, and only by taking an
    enclosing pair off: entry by entry, the new title is the old one, or
    the old title is the new one between U+201C and U+201D, the new one
    being non-empty and free of both quote characters. *)
Theorem strip_unicode_quotes_stage_only_strips_pairs (entries : list FeedEntry.t) :
  Forall2
    (fun entry entry' =>
       entry' = FeedEntry.set_title (FeedEntry.title entry') entry
       /\ (FeedEntry.title entry' = FeedEntry.title entry
           \/ (FeedEntry.title entry
               = quote_begin :: FeedEntry.title entry' ++ [quote_end]
               /\ FeedEntry.title entry' <> []
               /\ (quote_begin ∉ FeedEntry.title entry')
               /\ (quote_end ∉ FeedEntry.title entry'))))
    entries (stage_strip_unicode_quotes entries).
Proof.
  unfold stage_strip_unicode_quotes.
  induction entries as [|entry entries IH]; cbn [map]; constructor; [|exact IH].
  change (FeedEntry.title (FeedEntry.set_title ?v ?e)) with v.
  split; [reflexivity|].
  destruct (TitleStages.strip_unicode_quotes_cases (FeedEntry.title entry))
    as [Hsame|(inner & Htitle & Hne & Hb & He & Hinner)].
  - left. exact Hsame.
  - right. rewrite Hinner. done.
Qed.

(** X8. The trailing-period stage only trims: the new title is the old one
    with a (possibly empty) run of whitespace and periods taken off its
    end, and a title that it changes no longer ends in a period. *)
Theorem remove_trailing_period_trims (title : str) :
  exists suffix,
    title = remove_trailing_period title ++ suffix
    /\ Forall (fun c => is_space c = true \/ c = 46%N) suffix
    /\ (remove_trailing_period title <> title ->
        suffix <> []
        /\ forall c, last (remove_trailing_period title) = Some c -> c <> 46%N).
Proof.
  unfold remove_trailing_period.
  destruct (length (split1 _ _) <? 2)%nat.
  - destruct (PyStrFacts.rstrip_by_spec is_space title) as (s1 & H1 & Hs1 & _).
    destruct (PyStrFacts.rstrip_by_spec
                (fun c => bool_decide (c ∈ of_string ".")) (rstrip title))
      as (s2 & H2 & Hs2 & Hlast).
    fold (rstrip title) in H1. fold (rstrip_chars (of_string ".") (rstrip title)) in *.
    exists (s2 ++ s1). split; [|split].
    + rewrite app_assoc, <- H2. exact H1.
    + apply Forall_app. split.
      * eapply Forall_impl; [exact Hs2|]. intros c Hc. right.
        apply bool_decide_eq_true_1 in Hc. by apply list_elem_of_singleton in Hc.
      * eapply Forall_impl; [exact Hs1|]. intros c Hc. by left.
    + intros Hne. split.
      * intros Hnil. apply Hne.
        apply app_eq_nil in Hnil as [-> ->]. rewrite app_nil_r in H1, H2. congruence.
      * intros c Hc ->. apply Hlast in Hc.
        apply bool_decide_eq_false_1 in Hc. apply Hc. by left.
  - exists []. rewrite app_nil_r. split; [done|]. split; [constructor | done].
Qed.

End EntryFacts.

(* ===================================================================== *)
(** * feed.py: the reading loop and the construction of a feed *)
(* ===================================================================== *)

Module ReadLoopFacts.

Import PyStr Py Machine Effects Frames Feed.

(** ** [OrderedSet] *)

Lemma elem_of_oset_add (s : list str) (x u : str) :
  u ∈ oset_add s x <-> u ∈ s \/ u = x.
Proof.
  unfold oset_add. case_bool_decide as Hin.
  - split; [by left | by intros [H| ->]].
  - rewrite elem_of_app, list_elem_of_singleton. done.
Qed.

Lemma oset_add_fresh (s : list str) (x : str) : x ∉ s -> oset_add s x = s ++ [x].
Proof. intros H. unfold oset_add. by rewrite bool_decide_eq_false_2. Qed.

Lemma oset_add_NoDup (s : list str) (x : str) : NoDup s -> NoDup (oset_add s x).
Proof.
  intros Hnd. unfold oset_add. case_bool_decide as Hin; [done|].
  apply NoDup_app. split; [done|]. split; [|apply NoDup_singleton].
  intros u Hu ->%list_elem_of_singleton. done.
Qed.

Lemma elem_of_oset_update (xs s : list str) (u : str) :
  u ∈ oset_update s xs <-> u ∈ s \/ u ∈ xs.
Proof.
  revert s. induction xs as [|x xs IH]; intros s; unfold oset_update; cbn [fold_left].
  - rewrite elem_of_nil. tauto.
  - fold (oset_update (oset_add s x) xs). rewrite IH, elem_of_oset_add, elem_of_cons.
    tauto.
Qed.

Lemma oset_update_NoDup (xs s : list str) : NoDup s -> NoDup (oset_update s xs).
Proof.
  revert s. induction xs as [|x xs IH]; intros s Hnd; [done|].
  unfold oset_update. cbn [fold_left]. apply IH. by apply oset_add_NoDup.
Qed.

Lemma elem_of_unread (urls_read follow_urls : list str) (v : str) :
  v ∈ List.filter (fun u => negb (bool_decide (u ∈ urls_read))) follow_urls
  <-> v ∈ follow_urls /\ v ∉ urls_read.
Proof.
  rewrite list_elem_of_In, filter_In, <- list_elem_of_In.
  rewrite negb_true_iff, bool_decide_eq_false. done.
Qed.

Section WithEnv.

Context (env : Env).

(** The entries one URL contributes. *)
Let parsed (u : str) : list FeedEntry.t :=
  match read_url env u with
  | Ok (selected_entries, _) => selected_entries
  | _ => []
  end.

(** One URL, once parsed, is always accounted for: the step returns. *)
Lemma read_one_returns (feed_config : Config.FeedConfig) (url : str)
    (selected_entries : list FeedEntry.t) (follow_urls urls_pending urls_read : list str)
    (entries : list FeedEntry.t) (s : State) :
  exists s1,
    read_one env feed_config url selected_entries follow_urls
             urls_pending urls_read entries s
    = (Ok (oset_update urls_pending
             (List.filter (fun u => negb (bool_decide (u ∈ oset_add urls_read url)))
                          follow_urls),
           oset_add urls_read url, entries ++ selected_entries), s1).
Proof.
  unfold read_one.
  set (pending := oset_update urls_pending _).
  unfold monotonic, runtime_alert, log_at, sleep.
  destruct (truthy selected_entries); [|destruct (alerts_empty feed_config)];
    destruct (truthy pending);
    FeedFacts.mstep; cbn [clock set_alerts set_log];
    try (match goal with
         | |- context [if 0 <? ?d then _ else _] =>
             destruct (0 <? d) eqn:Hs; [destruct (d <? 0) eqn:Hneg; [lia|]|]
         end);
    FeedFacts.mstep; eexists; reflexivity.
Qed.

(** The loop invariant: the pending and the read URLs are two duplicate-free
    lists with nothing in common. *)
Lemma read_loop_invariant (fuel : nat) (feed_config : Config.FeedConfig) :
  forall (urls_pending urls_read : list str) (entries : list FeedEntry.t) (s : State)
         (entries' : list FeedEntry.t) (urls_read' : list str) (s' : State),
    NoDup urls_pending -> NoDup urls_read ->
    (forall u, u ∈ urls_pending -> u ∉ urls_read) ->
    read_loop env fuel feed_config urls_pending urls_read entries s
    = (Ok (entries', urls_read'), s') ->
    exists new,
      urls_read' = urls_read ++ new
      /\ NoDup urls_read'
      /\ (forall u, u ∈ urls_pending -> u ∈ new)
      /\ (forall u, u ∈ new ->
            exists selected_entries follow_urls,
              read_url env u = Ok (selected_entries, follow_urls)
              /\ forall v, v ∈ follow_urls -> v ∈ urls_read')
      /\ entries' = entries ++ flat_map parsed new
      /\ (length new <= fuel)%nat.
Proof.
  induction fuel as [|fuel IH];
    intros urls_pending urls_read entries s entries' urls_read' s' Hp Hr Hdisj;
    (destruct urls_pending as [|url rest];
     [cbn [read_loop]; intros [= <- <- <-]; exists [];
      rewrite !app_nil_r;
      split; [done|]; split; [done|]; split; [by intros u Hu%elem_of_nil|];
      split; [by intros u Hu%elem_of_nil|]; split; [done|];
      simpl; lia
     |]).
  - cbn [read_loop]. discriminate.
  - cbn [read_loop].
    destruct (read_url env url) as [[selected_entries follow_urls]|e|] eqn:Hread;
      [|discriminate|discriminate].
    destruct (read_one_returns feed_config url selected_entries follow_urls
                rest urls_read entries s) as (s1 & Hone).
    unfold bind at 1. rewrite Hone. cbn [fst snd].
    set (pending := oset_update rest _) in *.
    assert (Hfresh : url ∉ urls_read) by (apply Hdisj; by left).
    apply NoDup_cons in Hp as [Hurl Hrest].
    rewrite (oset_add_fresh _ _ Hfresh) in *.
    intros Hloop.
    apply IH in Hloop as (new & Hnew & Hnd & Hin & Hall & Hentries & Hlen).
    + exists (url :: new).
      split; [by rewrite Hnew, <- app_assoc|]. split; [exact Hnd|].
      split; [|split; [|split]].
      * intros u [->|Hu]%elem_of_cons; [by left|]. right. apply Hin.
        subst pending. apply elem_of_oset_update. by left.
      * intros u [->|Hu]%elem_of_cons; [|by apply Hall].
        exists selected_entries, follow_urls. split; [exact Hread|].
        intros v Hv. rewrite Hnew.
        destruct (decide (v ∈ urls_read ++ [url])) as [Hd|Hd];
          [apply elem_of_app; by left|].
        apply elem_of_app. right. apply Hin. subst pending.
        apply elem_of_oset_update. right. apply elem_of_unread.
        split; [exact Hv|]. by rewrite oset_add_fresh.
      * rewrite Hentries, <- app_assoc. cbn [flat_map]. unfold parsed at 2.
        by rewrite Hread.
      * cbn [length]. lia.
    + subst pending. by apply oset_update_NoDup.
    + apply NoDup_app. split; [done|]. split; [|apply NoDup_singleton].
      intros u Hu ->%list_elem_of_singleton. done.
    + intros u Hu. subst pending. apply elem_of_oset_update in Hu as [Hu|Hu].
      * intros [Hin| ->%list_elem_of_singleton]%elem_of_app; [|done].
        apply (Hdisj u); [by right | done].
      * apply elem_of_unread in Hu as [_ Hu]. by rewrite oset_add_fresh in Hu.
Qed.

Lemma OrderedSet_NoDup (urls : list str) : NoDup (OrderedSet urls).
Proof. apply oset_update_NoDup. constructor. Qed.

Lemma elem_of_OrderedSet (urls : list str) (u : str) : u ∈ OrderedSet urls <-> u ∈ urls.
Proof. unfold OrderedSet. rewrite elem_of_oset_update, elem_of_nil. tauto. Qed.

(** X9. What [Feed._read_entries] has read when it returns. The loop's
    own record of the URLs read, [urls_read], holds pairwise distinct URLs,
    among them every configured URL and every follow-URL of a page that
    was read; each of them was fetched and parsed without error; and the
    entries the loop has collected are those of these URLs, page after
    page in the order of [urls_read], with the entries of each URL taken
    once. [_read_entries] returns these entries processed, and the number
    of these URLs. *)
Theorem read_entries_covers_linked_urls
    (fuel : nat) (channel name : str) (feed_config : Config.FeedConfig)
    (urls : list str) (s s' : State) (entries : list FeedEntry.t) (n : nat) :
  _read_entries env fuel channel name feed_config urls s = (Ok (entries, n), s') ->
  exists collected urls_read,
    read_loop env fuel feed_config (OrderedSet urls) [] [] s
    = (Ok (collected, urls_read), s')
    /\ entries = _process_entries env channel name feed_config collected
    /\ n = length urls_read
    /\ NoDup urls_read
    /\ (forall u, u ∈ urls -> u ∈ urls_read)
    /\ (forall u, u ∈ urls_read ->
          exists selected_entries follow_urls,
            read_url env u = Ok (selected_entries, follow_urls)
            /\ forall v, v ∈ follow_urls -> v ∈ urls_read)
    /\ collected
       = flat_map
           (fun u => match read_url env u with
                     | Ok (selected_entries, _) => selected_entries
                     | _ => []
                     end) urls_read
    /\ (n <= fuel)%nat.
Proof.
  unfold _read_entries. unfold bind at 1.
  destruct (read_loop env fuel feed_config (OrderedSet urls) [] [] s)
    as [[[entries0 urls_read]|e|] s0] eqn:Hloop; [|discriminate|discriminate].
  unfold ret. cbn [fst snd]. intros [= <- <- <-].
  pose proof Hloop as Hinv.
  apply read_loop_invariant in Hinv
    as (new & Hnew & Hnd & Hin & Hall & Hentries & Hlen);
    [|apply OrderedSet_NoDup | constructor | by intros u _ Hu%elem_of_nil].
  cbn [app] in Hnew, Hentries. subst new entries0.
  exists (flat_map parsed urls_read), urls_read.
  split; [reflexivity|]. split; [done|]. split; [done|]. split; [done|].
  split; [intros u Hu; by apply Hin, elem_of_OrderedSet|].
  split; [done|]. split; [done | exact Hlen].
Qed.

(** The loop returns when the URLs it can reach are few enough for the
    fuel. *)
Lemma read_loop_returns (universe : list str) (feed_config : Config.FeedConfig) :
  (forall u, u ∈ universe ->
     exists selected_entries follow_urls,
       read_url env u = Ok (selected_entries, follow_urls)
       /\ forall v, v ∈ follow_urls -> v ∈ universe) ->
  forall (fuel : nat) (urls_pending urls_read : list str)
         (entries : list FeedEntry.t) (s : State),
    NoDup urls_pending -> NoDup urls_read ->
    (forall u, u ∈ urls_pending -> u ∉ urls_read) ->
    (forall u, u ∈ urls_pending -> u ∈ universe) ->
    (forall u, u ∈ urls_read -> u ∈ universe) ->
    (length universe <= length urls_read + fuel)%nat ->
    exists r s',
      read_loop env fuel feed_config urls_pending urls_read entries s = (Ok r, s')
      /\ forall u, u ∈ r.2 -> u ∈ universe.
Proof.
  intros Hweb fuel.
  induction fuel as [|fuel IH];
    intros urls_pending urls_read entries s Hp Hr Hdisj Hpu Hru Hlen;
    (destruct urls_pending as [|url rest];
     [cbn [read_loop]; eexists _, _; split; [reflexivity | exact Hru]|]);
    assert (Hfresh : url ∉ urls_read) by (apply Hdisj; by left);
    assert (Hroom : (S (length urls_read) <= length universe)%nat)
      by (change (S (length urls_read)) with (length (url :: urls_read));
          apply submseteq_length, NoDup_submseteq;
          [by apply NoDup_cons
          |intros u [->|Hu]%elem_of_cons; [apply Hpu; by left | by apply Hru]]).
  - lia.
  - cbn [read_loop].
    destruct (Hweb url) as (selected_entries & follow_urls & Hread & Hfollow);
      [apply Hpu; by left|].
    rewrite Hread.
    destruct (read_one_returns feed_config url selected_entries follow_urls
                rest urls_read entries s) as (s1 & Hone).
    unfold bind at 1. rewrite Hone. cbn [fst snd].
    apply NoDup_cons in Hp as [Hurl Hrest].
    rewrite (oset_add_fresh _ _ Hfresh) in *.
    apply IH.
    + by apply oset_update_NoDup.
    + apply NoDup_app. split; [done|]. split; [|apply NoDup_singleton].
      intros u Hu ->%list_elem_of_singleton. done.
    + intros u Hu. apply elem_of_oset_update in Hu as [Hu|Hu].
      * intros [Hin| ->%list_elem_of_singleton]%elem_of_app; [|done].
        apply (Hdisj u); [by right | done].
      * by apply elem_of_unread in Hu as [_ Hu].
    + intros u Hu. apply elem_of_oset_update in Hu as [Hu|Hu].
      * apply Hpu. by right.
      * apply elem_of_unread in Hu as [Hu _]. by apply Hfollow.
    + intros u [Hu| ->%list_elem_of_singleton]%elem_of_app; [by apply Hru|].
      apply Hpu. by left.
    + rewrite length_app. cbn [length]. lia.
Qed.


(** X11. A [Feed] object that [Feed.__post_init__] has built belongs to a
    configured channel and feed, carries the feed's configuration laid over
    the defaults and the URLs that configuration names, holds entries with
    pairwise distinct [long_url]s, and has both cached properties still
    unread. *)
Theorem post_init_builds (fuel : nat) (channel name : str) (s s' : State)
    (held : FeedObject.t) :
  __post_init__ env fuel channel name s = (Ok held, s') ->
  exists channel_feeds own_config,
    Config.feeds (Config.INSTANCE (config env)) !! channel = Some channel_feeds
    /\ channel_feeds !! name = Some own_config
    /\ FeedObject.channel held = channel
    /\ FeedObject.name held = name
    /\ FeedObject.config held
       = Config.merge (Config.defaults (Config.INSTANCE (config env))) own_config
    /\ Config.url (FeedObject.config held) = Some (FeedObject.urls held)
    /\ NoDup (map FeedEntry.long_url (FeedObject.entries held))
    /\ (FeedObject.num_urls_read held <= fuel)%nat
    /\ FeedObject.unposted_entries_cache held = None
    /\ FeedObject.postable_entries_cache held = None.
Proof.
  unfold __post_init__. FeedFacts.mstep.
  destruct (Config.feeds _ !! channel) as [channel_feeds|] eqn:Hchannel; [|done].
  destruct (channel_feeds !! name) as [own_config|] eqn:Hname; [|done].
  destruct (Config.url _) as [urls|] eqn:Hurls; [|done].
  unfold _read_entries. unfold bind at 1.
  destruct (read_loop env fuel _ (OrderedSet urls) [] [] s)
    as [[[entries0 urls_read]|e|] s0] eqn:Hloop; [|done|done].
  unfold ret. cbn [fst snd]. intros [= <- <-].
  apply read_loop_invariant in Hloop
    as (new & Hnew & _ & _ & _ & _ & Hlen);
    [|apply OrderedSet_NoDup | constructor | by intros u _ Hu%elem_of_nil].
  cbn [app] in Hnew. subst new.
  exists channel_feeds, own_config. cbn.
  split; [done|]. split; [done|]. split; [done|]. split; [done|].
  split; [done|]. split; [exact Hurls|].
  split; [apply FeedFacts.process_entries_NoDup|].
  split; [exact Hlen|]. done.
Qed.

End WithEnv.

(** The reading theorem on the paged sample feed: one configured URL, whose
    page links to a second one; both are read, and the four parsed entries
    come out as three. *)
Lemma read_entries_covers_linked_urls_witness :
  let fc := Samples.feed_config 2 false None in
  let e := Samples.paged_env fc in
  let s := Samples.state 2000 (Samples.feed_object fc 900 []) in
  exists entries s' collected urls_read,
    _read_entries e 2 (of_string "#news") (of_string "planet") fc
                  [of_string "http://example.org/feed"] s
    = (Ok (entries, 2%nat), s')
    /\ read_loop e 2 fc (OrderedSet [of_string "http://example.org/feed"]) [] [] s
       = (Ok (collected, urls_read), s')
    /\ length urls_read = 2%nat
    /\ NoDup urls_read
    /\ of_string "http://example.org/more" ∈ urls_read
    /\ length collected = 4%nat
    /\ length entries = 3%nat.
Proof.
  intros fc e s.
  set (run := _read_entries e 2 (of_string "#news") (of_string "planet") fc
                            [of_string "http://example.org/feed"] s).
  set (entries := match run.1 with Ok r => r.1 | _ => [] end).
  assert (Hrun : run = (Ok (entries, 2%nat), run.2)) by (vm_compute; reflexivity).
  destruct (read_entries_covers_linked_urls e 2 _ _ _ _ _ _ _ _ Hrun)
    as (collected & urls_read & Hloop & _ & Hn & Hnd & Hseeds & Hall & Hcollected & _).
  exists entries, run.2, collected, urls_read.
  split; [exact Hrun|]. split; [exact Hloop|]. split; [by rewrite <- Hn|].
  split; [exact Hnd|].
  split.
  { destruct (Hall (of_string "http://example.org/feed"))
      as (selected_entries & follow_urls & Hread & Hfollow).
    { apply Hseeds. by left. }
    injection Hread as _ <-. apply Hfollow. by left. }
  split; [|vm_compute; reflexivity].
  assert (Hcomp : read_loop e 2 fc (OrderedSet [of_string "http://example.org/feed"])
                            [] [] s
                  = (Ok ([Samples.entry 0; Samples.entry 1; Samples.entry 2;
                          Samples.entry 0],
                         [of_string "http://example.org/feed";
                          of_string "http://example.org/more"]), run.2))
    by (vm_compute; reflexivity).
  rewrite Hcomp in Hloop. by injection Hloop as <- _.
Defined.


(** The construction theorem on the sample feed: twelve distinct entries
    from two URLs. *)
Lemma post_init_builds_witness :
  let fc := Samples.feed_config 2 false None in
  let e := Samples.env fc (fun _ => true) in
  let s := Samples.state 2000 (Samples.feed_object fc 900 []) in
  exists held s',
    __post_init__ e 2 (of_string "#news") (of_string "planet") s = (Ok held, s')
    /\ NoDup (map FeedEntry.long_url (FeedObject.entries held))
    /\ length (FeedObject.entries held) = 12%nat
    /\ FeedObject.unposted_entries_cache held = None.
Proof.
  intros fc e s.
  set (run := __post_init__ e 2 (of_string "#news") (of_string "planet") s).
  set (held := match run.1 with Ok f => f | _ => Samples.feed_object fc 900 [] end).
  assert (Hrun : run = (Ok held, run.2)) by (vm_compute; reflexivity).
  destruct (post_init_builds e 2 _ _ _ _ _ Hrun)
    as (channel_feeds & own_config & _ & _ & _ & _ & _ & _ & Hnd & _ & Hc & _).
  exists held, run.2. split; [exact Hrun|]. split; [exact Hnd|].
  split; [vm_compute; reflexivity | exact Hc].
Defined.

End ReadLoopFacts.

(* ===================================================================== *)
(** * feed.py: the cached properties at their edges *)
(* ===================================================================== *)

Module PropertyFacts.

Import PyStr Py Machine Effects Frames Feed.

Lemma filter_sublist {A} (p : A -> bool) (l : list A) : List.filter p l `sublist_of` l.
Proof.
  induction l as [|x l IH]; [constructor|]. cbn [List.filter].
  destruct (p x); [by apply sublist_skip | by apply sublist_cons].
Qed.

(** No row of the channel has the URL, whatever the feed. *)
Lemma no_row_of_channel (db0 : gset Database.Row) (channel u : str) :
  set_Forall
    (fun r => ~ (Database.row_channel r = channel /\ Database.row_url r = u)) db0
  <-> forall feed_name, (channel, feed_name, u) ∉ db0.
Proof.
  split.
  - intros Hall feed_name Hin. by apply (Hall _ Hin).
  - intros Hnone [[c f] u'] Hin [Hc Hu]. cbn in Hc, Hu. subst.
    by apply (Hnone f).
Qed.

(** [l[:stop]] is a prefix of [l], whatever [stop] is. *)
Lemma slice_to_take {A} (stop : option Z) (l : list A) :
  exists k, slice_to stop l = take k l.
Proof.
  unfold slice_to. destruct stop as [n|].
  - destruct (n <? 0); by eexists.
  - exists (length l). by rewrite take_ge.
Qed.

(** The loop over [enumerate(entries)] changes [short_url] only. *)
Lemma assign_short_urls_same (entries entries' : list FeedEntry.t)
    (short_urls : list str) (index : nat) :
  assign_short_urls index entries short_urls = Ok entries' ->
  map FeedEntry.long_url entries' = map FeedEntry.long_url entries
  /\ map FeedEntry.title entries' = map FeedEntry.title entries.
Proof.
  revert index entries'. induction entries as [|e entries IH]; intros index entries'.
  - cbn. by intros [= <-].
  - cbn [assign_short_urls].
    destruct (short_urls !! index) as [u|]; [|done].
    destruct (assign_short_urls (S index) entries short_urls) as [rest| |] eqn:Hrest;
      [|done|done].
    intros [= <-]. destruct (IH _ _ Hrest) as [H1 H2]. cbn. by rewrite H1, H2.
Qed.

Section WithEnv.

Context (env : Env).

(** What [unposted_entries] returns it has in its slot. *)
Lemma unposted_entries_caches (s s0 : State) (unposted : list FeedEntry.t) :
  unposted_entries env s = (Ok unposted, s0) ->
  FeedObject.unposted_entries_cache (feed s0) = Some unposted.
Proof.
  unfold unposted_entries. FeedFacts.mstep.
  destruct (FeedObject.unposted_entries_cache (feed s)) as [cached|] eqn:Hc.
  - by intros [= <- <-].
  - repeat case_bool_decide; intros [= <- <-]; reflexivity.
Qed.

(** X13. The first read of [Feed.unposted_entries]. With the dedup
    strategy ["channel"] or ["feed"] (the configured one, or the default
    when none or the empty string is configured) it returns, and caches,
    the entries of the feed whose URL has no row in the store: no row of
    this channel under ["channel"], no row of this channel and feed under
    ["feed"]; they come in the order of the feed's entries. With any other
    strategy it raises [AssertionError] and caches nothing. *)
Theorem unposted_entries_first_read (s : State) :
  let self := feed s in
  let strategy := dedup_strategy env self in
  FeedObject.unposted_entries_cache self = None ->
  (strategy <> of_string "channel" /\ strategy <> of_string "feed"
   /\ unposted_entries env s = (Raise AssertionError, s))
  \/ ((strategy = of_string "channel" \/ strategy = of_string "feed")
      /\ exists unposted,
           unposted_entries env s = (Ok unposted, cache_unposted unposted s)
           /\ unposted `sublist_of` FeedObject.entries self
           /\ forall e,
                e ∈ unposted <->
                e ∈ FeedObject.entries self
                /\ if bool_decide (strategy = of_string "channel")
                   then forall feed_name,
                          (FeedObject.channel self, feed_name, FeedEntry.long_url e)
                          ∉ db s
                   else (FeedObject.channel self, FeedObject.name self,
                         FeedEntry.long_url e) ∉ db s).
Proof.
  intros self strategy Hc.
  destruct (decide (strategy = of_string "channel")) as [Hch|Hch];
    [|destruct (decide (strategy = of_string "feed")) as [Hfd|Hfd]].
  3:{ left. split; [done|]. split; [done|].
      unfold unposted_entries. FeedFacts.mstep. fold self. rewrite Hc.
      fold (dedup_strategy env self). fold strategy.
      by rewrite !bool_decide_eq_false_2. }
  all: right; split; [tauto|]; exists (unposted_list env s);
    (split; [apply FeedFacts.unposted_entries_fresh; [exact Hc | tauto]|]);
    (split; [apply filter_sublist|]);
    intros e; unfold unposted_list, selected_urls;
    fold self; fold strategy;
    rewrite list_elem_of_In, filter_In, <- list_elem_of_In, bool_decide_eq_true.
  - rewrite (bool_decide_eq_true_2 _ Hch).
    unfold Database.select_unposted_for_channel.
    rewrite list_elem_of_filter, no_row_of_channel.
    split; [tauto|]. intros [He Hnone]. split; [exact He|]. split; [exact Hnone|].
    apply list_elem_of_fmap. by exists e.
  - rewrite (bool_decide_eq_false_2 _ Hch).
    unfold Database.select_unposted_for_channel_feed.
    rewrite list_elem_of_filter.
    split; [tauto|]. intros [He Hnone]. split; [exact He|]. split; [exact Hnone|].
    apply list_elem_of_fmap. by exists e.
Qed.

(** X14. A first read of [Feed.postable_entries] that raises caches
    nothing as postable, so that the next read computes again, whatever
    made it raise: an unknown dedup strategy, a missing ["new"] or
    ["shorten"] key, a tag that [NEW_FEED_POSTS_MAX] does not have, the
    shortener, or a shortener that returned too few URLs. It has written
    nothing to the store, has left the lock alone and has handed nothing
    to the IRC client. *)
Theorem postable_entries_raises (s s' : State) (e : exn) :
  let self := feed s in
  FeedObject.postable_entries_cache self = None ->
  postable_entries env s = (Raise e, s') ->
  FeedObject.postable_entries_cache (feed s') = None
  /\ db s' = db s /\ db_inserts s' = db_inserts s
  /\ outgoing_msg_lock s' = outgoing_msg_lock s
  /\ irc_calls s' = irc_calls s /\ irc_sent s' = irc_sent s.
Proof.
  intros self Hcache Hrun.
  pose proof (FeedFacts.postable_entries_effect env _ _ _ Hrun) as [[Hs' _] _].
  split; [|rewrite Hs'; by repeat split].
  revert Hrun.
  unfold postable_entries. unfold bind at 1. unfold gets at 1. cbn beta iota.
  fold self. rewrite Hcache. unfold bind at 1.
  destruct (unposted_entries env s) as [ru s0] eqn:Hun.
  destruct (FeedFacts.unposted_entries_state env _ _ _ Hun) as [c Hs0].
  assert (Hc0 : FeedObject.postable_entries_cache (feed s0) = None)
    by (subst s0; exact Hcache).
  destruct ru as [entries|e0|]; [|by intros [= <- <-]|done].
  FeedFacts.mstep.
  repeat match goal with
         | |- context [match ?x with _ => _ end] =>
             lazymatch x with
             | context [match _ with _ => _ end] => fail
             | _ => destruct x eqn:?
             end
         end;
    intros [= <- <-]; exact Hc0.
Qed.

(** X15. Whatever the first-post cap is (a count, a negative number or no
    bound) and whether or not URLs are shortened, the entries a first read
    of [Feed.postable_entries] returns are, by [long_url] and by title,
    the first so many of the unposted entries, which it leaves in the
    [unposted_entries] slot; for a feed that is not new they are all of
    them. The store is not changed. *)
Theorem postable_entries_prefix (s s' : State) (postable : list FeedEntry.t) :
  let self := feed s in
  FeedObject.postable_entries_cache self = None ->
  postable_entries env s = (Ok postable, s') ->
  exists unposted,
    FeedObject.unposted_entries_cache (feed s') = Some unposted
    /\ FeedObject.postable_entries_cache (feed s') = Some postable
    /\ map FeedEntry.long_url postable `prefix_of` map FeedEntry.long_url unposted
    /\ map FeedEntry.title postable `prefix_of` map FeedEntry.title unposted
    /\ (Database.is_new_feed (db s) (FeedObject.channel self) (FeedObject.name self)
        = false ->
        length postable = length unposted)
    /\ db s' = db s.
Proof.
  intros self Hcache.
  unfold postable_entries. unfold bind at 1. unfold gets at 1. cbn beta iota.
  fold self. rewrite Hcache. unfold bind at 1.
  destruct (unposted_entries env s) as [ru s0] eqn:Hun.
  destruct (FeedFacts.unposted_entries_state env _ _ _ Hun) as [c Hs0].
  assert (Hdb0 : db s0 = db s) by (by subst s0).
  destruct ru as [unposted|e0|]; [|done|done].
  pose proof (unposted_entries_caches _ _ _ Hun) as Hslot.
  unfold bind at 1. unfold db_is_new_feed, gets. cbn beta iota. rewrite Hdb0.
  fold self.
  assert (Hfin : forall base entries',
    (exists k, base = take k unposted) ->
    (Database.is_new_feed (db s) (FeedObject.channel self) (FeedObject.name self)
     = false -> base = unposted) ->
    map FeedEntry.long_url entries' = map FeedEntry.long_url base ->
    map FeedEntry.title entries' = map FeedEntry.title base ->
    exists unposted0,
      FeedObject.unposted_entries_cache (feed (cache_postable entries' s0))
      = Some unposted0
      /\ FeedObject.postable_entries_cache (feed (cache_postable entries' s0))
         = Some entries'
      /\ map FeedEntry.long_url entries' `prefix_of` map FeedEntry.long_url unposted0
      /\ map FeedEntry.title entries' `prefix_of` map FeedEntry.title unposted0
      /\ (Database.is_new_feed (db s) (FeedObject.channel self) (FeedObject.name self)
          = false -> length entries' = length unposted0)
      /\ db (cache_postable entries' s0) = db s).
  { intros base entries' [k Hk] Hall Hu Ht. exists unposted.
    split; [exact Hslot|]. split; [reflexivity|].
    rewrite Hu, Ht, Hk, <- !firstn_map.
    split; [apply prefix_take|]. split; [apply prefix_take|].
    split; [|exact Hdb0].
    intros Hold. rewrite <- (length_map FeedEntry.long_url entries'), Hu.
    rewrite length_map. by rewrite (Hall Hold). }
  assert (Htail : forall base : list FeedEntry.t,
    (exists k, base = take k unposted) ->
    (Database.is_new_feed (db s) (FeedObject.channel self) (FeedObject.name self)
     = false -> base = unposted) ->
    forall r s1,
      (entries <-
         (if truthy base then
            shorten <- getkey "shorten" (Config.shorten (FeedObject.config self)) ;;
            if shorten : bool then
              match shorten_urls env (map FeedEntry.long_url base) with
              | Ok short_urls =>
                  match assign_short_urls 0 base short_urls with
                  | Ok entries' => ret entries'
                  | Raise e => raise e
                  | Diverge => diverge
                  end
              | Raise e => raise e
              | Diverge => diverge
              end
            else ret base
          else ret base) ;;
       modify (fun s =>
                 set_feed (FeedObject.set_postable_entries_cache (Some entries) (feed s)) s) ;;
       ret entries) s0 = (r, s1) ->
      r = Ok postable -> s1 = s' ->
      exists unposted0,
        FeedObject.unposted_entries_cache (feed s') = Some unposted0
        /\ FeedObject.postable_entries_cache (feed s') = Some postable
        /\ map FeedEntry.long_url postable `prefix_of` map FeedEntry.long_url unposted0
        /\ map FeedEntry.title postable `prefix_of` map FeedEntry.title unposted0
        /\ (Database.is_new_feed (db s) (FeedObject.channel self) (FeedObject.name self)
            = false -> length postable = length unposted0)
        /\ db s' = db s).
  { intros base Hk Hall r s1. FeedFacts.mstep.
    destruct (truthy base).
    - destruct (Config.shorten (FeedObject.config self)) as [[|]|];
        FeedFacts.mstep; [| |by intros [= <- <-]].
      + destruct (shorten_urls env _) as [short_urls|e1|]; [|by intros [= <- <-] ..].
        destruct (assign_short_urls 0 base short_urls) as [entries'|e1|] eqn:Hassign;
          [|by intros [= <- <-] ..].
        intros [= <- <-] [= <-] <-.
        destruct (assign_short_urls_same _ _ _ _ Hassign) as [Hu Ht].
        by apply (Hfin base).
      + intros [= <- <-] [= <-] <-. by apply (Hfin base).
    - intros [= <- <-] [= <-] <-. by apply (Hfin base). }
  destruct (Database.is_new_feed (db s) (FeedObject.channel self)
                                 (FeedObject.name self)) eqn:Hnew.
  - destruct (Config.new (FeedObject.config self)) as [tag|];
      [|FeedFacts.mstep; done].
    unfold bind at 1. unfold bind at 1. unfold getkey at 1, ret at 1.
    unfold bind at 1. unfold getitem at 1.
    destruct (Config.NEW_FEED_POSTS_MAX (config env) !! tag) as [max_posts|];
      [|FeedFacts.mstep; done].
    unfold ret at 1. unfold ret at 1. intros Hrun.
    eapply (Htail (slice_to max_posts unposted)); [apply slice_to_take | done | exact Hrun | done ..].
  - unfold bind at 1. unfold ret at 1. intros Hrun.
    eapply (Htail unposted); [exists (length unposted); by rewrite take_ge | done | exact Hrun | done ..].
Qed.

End WithEnv.

(** The first-read theorem on the sample feed: the default strategy is
    ["feed"], the store is empty, and all twelve entries are unposted. *)
Lemma unposted_entries_first_read_witness :
  let fc := Samples.feed_config 2 false None in
  let e := Samples.env fc (fun _ => true) in
  let s := Samples.state 2000 (Samples.feed_object fc 900 Samples.entries12) in
  exists unposted,
    unposted_entries e s = (Ok unposted, cache_unposted unposted s)
    /\ unposted `sublist_of` Samples.entries12
    /\ length unposted = 12%nat.
Proof.
  intros fc e s.
  destruct (unposted_entries_first_read e s eq_refl)
    as [(_ & Hfd & _)|(_ & unposted & Hrun & Hsub & _)].
  - exfalso. apply Hfd. reflexivity.
  - exists unposted. split; [exact Hrun|]. split; [exact Hsub|].
    assert (Hcomp : unposted_entries e s
                    = (Ok Samples.entries12, cache_unposted Samples.entries12 s))
      by (vm_compute; reflexivity).
    rewrite Hcomp in Hrun. by injection Hrun as <-.
Defined.

(** The failure theorem on the sample feed with a shortener that returns
    nothing: [IndexError], nothing cached as postable, and the store as it
    was. *)
Lemma postable_entries_raises_witness :
  let fc := Samples.feed_config 2 true None in
  let e := mkEnv (Samples.config fc) Samples.lib (fun _ => true) 0
                 (fun _ => Ok []) Samples.web in
  let s := Samples.state 2000 (Samples.feed_object fc 900 Samples.entries12) in
  exists s',
    postable_entries e s = (Raise IndexError, s')
    /\ FeedObject.postable_entries_cache (feed s') = None
    /\ db s' = db s.
Proof.
  intros fc e s.
  set (run := postable_entries e s).
  assert (Hrun : run = (Raise IndexError, run.2)) by (vm_compute; reflexivity).
  destruct (postable_entries_raises e s run.2 IndexError eq_refl Hrun)
    as (Hslot & Hdb & _).
  exists run.2. split; [exact Hrun|]. split; [exact Hslot | exact Hdb].
Defined.

(** The prefix theorem on the sample feed under the tag ["all"], whose cap
    is no bound: all twelve unposted entries are postable. *)
Lemma postable_entries_prefix_witness :
  let fc := Config.mkFeedConfig
              (Some [of_string "http://example.org/feed"])
              (Some 2) (Some (of_string "all")) (Some true) None None None
              None None None None None in
  let e := Samples.env fc (fun _ => true) in
  let s := Samples.state 2000 (Samples.feed_object fc 900 Samples.entries12) in
  exists postable s' unposted,
    postable_entries e s = (Ok postable, s')
    /\ FeedObject.unposted_entries_cache (feed s') = Some unposted
    /\ map FeedEntry.long_url postable `prefix_of` map FeedEntry.long_url unposted
    /\ length postable = 12%nat.
Proof.
  intros fc e s.
  set (run := postable_entries e s).
  set (postable := match run.1 with Ok l => l | _ => [] end).
  assert (Hrun : run = (Ok postable, run.2)) by (vm_compute; reflexivity).
  destruct (postable_entries_prefix e s run.2 postable eq_refl Hrun)
    as (unposted & Hslot & _ & Hpre & _ & _ & _).
  exists postable, run.2, unposted.
  split; [exact Hrun|]. split; [exact Hslot|]. split; [exact Hpre|].
  vm_compute. reflexivity.
Defined.

End PropertyFacts.

(* ===================================================================== *)
(** * bot.py: the gate, the batch and the iteration, whatever happens *)
(* ===================================================================== *)

Module MessengerFacts.

Import PyStr Py Machine Effects Frames.

(** Reduce the projections of a state that was built by setters. *)
Ltac fields :=
  cbn [db db_inserts CHANNEL_JOIN_EVENTS CHANNEL_LAST_INCOMING_MSG_TIMES
       outgoing_msg_lock clock irc_calls irc_sent irc_sent_at log alerts
       tasks_done feed
       set_db set_CHANNEL_JOIN_EVENTS set_CHANNEL_LAST_INCOMING_MSG_TIMES
       set_outgoing_msg_lock set_clock set_irc set_log set_alerts
       set_tasks_done set_feed].

Section WithEnv.

Context (env : Env).

(** When the gate opens it has the lock, and the clock stands at the end of
    the idle time or where it stood, whichever is later. *)
Lemma idle_gate_exit (fuel : nat) (channel : str) (s s' : State) :
  Bot.idle_gate env fuel channel s = (Ok tt, s') ->
  exists last,
    CHANNEL_LAST_INCOMING_MSG_TIMES s !! channel = Some last
    /\ outgoing_msg_lock s = false
    /\ s' = gate_exit env last s.
Proof.
  revert s. induction fuel as [|fuel IH]; intros s; cbn [Bot.idle_gate]; [done|].
  unfold lock_acquire_nonblocking, lock_acquire, lock_release, sleep, monotonic,
         Bot.idle_gate_sleep_time.
  FeedFacts.mstep.
  destruct (outgoing_msg_lock s) eqn:Hlock; FeedFacts.mstep.
  { by rewrite Hlock. }
  fields.
  destruct (CHANNEL_LAST_INCOMING_MSG_TIMES s !! channel) as [last|] eqn:Hlast;
    FeedFacts.mstep; [|done].
  fields.
  set (M := Config.MIN_CHANNEL_IDLE_TIME (config env)).
  destruct (Z.max 0 (M - (clock s - last)) =? 0) eqn:H0.
  - apply Z.eqb_eq in H0. intros [= <-]. exists last.
    split; [done|]. split; [done|].
    unfold gate_exit, set_outgoing_msg_lock, set_clock. fields. fold M.
    f_equal. lia.
  - apply Z.eqb_neq in H0.
    destruct (Z.max 0 (M - (clock s - last)) <? 0) eqn:Hneg; [lia|].
    FeedFacts.mstep. intros Hrec.
    apply IH in Hrec as (last' & Hlast' & _ & ->).
    revert Hlast'. fields. rewrite Hlast. intros [= <-].
    exists last. split; [done|]. split; [done|].
    unfold gate_exit, set_outgoing_msg_lock, set_clock. fields. fold M.
    f_equal. lia.
Qed.

(** A gate that finds the lock free and ends, normally or not, ends with
    the lock taken. *)
Lemma idle_gate_lock (fuel : nat) (channel : str) (s s' : State) (r : outcome unit) :
  outgoing_msg_lock s = false ->
  Bot.idle_gate env fuel channel s = (r, s') ->
  r <> Diverge ->
  outgoing_msg_lock s' = true.
Proof.
  revert s. induction fuel as [|fuel IH]; intros s Hlock; cbn [Bot.idle_gate].
  { intros [= <- <-] Hr. done. }
  unfold lock_acquire_nonblocking, lock_acquire, lock_release, sleep, monotonic.
  FeedFacts.mstep. rewrite Hlock. FeedFacts.mstep. fields.
  destruct (CHANNEL_LAST_INCOMING_MSG_TIMES s !! channel) as [last|];
    FeedFacts.mstep; [|intros [= <- <-] _; done].
  fields.
  destruct (Bot.idle_gate_sleep_time env (clock s) last =? 0).
  { intros [= <- <-] _. done. }
  destruct (Bot.idle_gate_sleep_time env (clock s) last <? 0) eqn:Hneg.
  { unfold Bot.idle_gate_sleep_time in Hneg. lia. }
  FeedFacts.mstep. intros Hrec Hr. by apply IH in Hrec.
Qed.

(** Waiting for the client raises nothing and leaves the lock alone. *)
Lemma wait_connected_lock (fuel : nat) (s s' : State) (r : outcome unit) :
  Bot.wait_connected env fuel s = (r, s') ->
  outgoing_msg_lock s' = outgoing_msg_lock s /\ (forall e, r <> Raise e).
Proof.
  revert s. induction fuel as [|fuel IH]; intros s; cbn [Bot.wait_connected].
  { intros [= <- <-]. done. }
  unfold irc_connected, sleep. FeedFacts.mstep.
  destruct (reconnect_at env <=? clock s); [intros [= <- <-]; done|].
  change (5 <? 0) with false. FeedFacts.mstep. intros Hrec.
  apply IH in Hrec as [Hlock Hr]. done.
Qed.

(** The loop over the postable entries ends normally or in the exception of
    a send, and moves the clock and the IRC client only. *)
Lemma post_loop_outcome (channel feed_name : str) (entries : list FeedEntry.t)
    (s s' : State) (r : outcome unit) :
  for_each entries (Bot.post_entry env channel feed_name) s = (r, s') ->
  posting s s' /\ (r = Ok tt \/ r = Raise TransportError).
Proof.
  revert s. induction entries as [|entry entries IH]; intros s; cbn [for_each].
  { intros [= <- <-]. split; [by repeat split | by left]. }
  unfold bind.
  destruct (irc_ok env (irc_calls s)) eqn:Hok.
  - destruct (BotFacts.post_entry_sent env channel feed_name entry s Hok)
      as (s1 & -> & Hposting & _).
    intros Hrec. apply IH in Hrec as [Hposting' Hr].
    split; [by eapply BotFacts.posting_trans | exact Hr].
  - destruct (BotFacts.post_entry_raises env channel feed_name entry s Hok)
      as (s1 & -> & Hposting & _).
    intros [= <- <-]. split; [exact Hposting | by right].
Qed.


(** X20. A send that raises ends the batch there and then: with the first
    [k] sends going through and the next one raising, exactly the lines of
    the first [k] entries have gone to the channel, in order;
    [irc.msg] was called [k + 1] times and not once for the entries after
    the failing one; and the loop ends in the exception of the send. *)
Theorem batch_stops_at_first_failure (channel feed_name : str)
    (entries : list FeedEntry.t) (s : State) (k : nat) :
  (k < length entries)%nat ->
  (forall j, (j < k)%nat -> irc_ok env (irc_calls s + j) = true) ->
  irc_ok env (irc_calls s + k) = false ->
  exists s',
    for_each entries (Bot.post_entry env channel feed_name) s
    = (Raise TransportError, s')
    /\ irc_sent s'
       = irc_sent s ++ map (post_line channel feed_name) (take k entries)
    /\ irc_calls s' = (irc_calls s + k + 1)%nat
    /\ clock s'
       = clock s + Z.of_nat k * Z.max 0 (Config.SECONDS_PER_MESSAGE (config env))
    /\ posting s s'.
Proof.
  revert s k. induction entries as [|entry entries IH]; intros s k Hk Hok Hfail.
  { simpl in Hk. lia. }
  cbn [for_each]. unfold bind.
  destruct k as [|k].
  - rewrite Nat.add_0_r in Hfail.
    unfold Bot.post_entry, monotonic, irc_msg, sleep. FeedFacts.mstep.
    rewrite Hfail. eexists. split; [reflexivity|]. fields. cbn [take map].
    rewrite app_nil_r. split; [done|]. split; [lia|]. split; [lia|].
    by repeat split.
  - destruct (BotFacts.post_entry_sent env channel feed_name entry s)
      as (s1 & -> & Hposting & Hcalls & Hsent & Hclock).
    { specialize (Hok 0%nat). rewrite Nat.add_0_r in Hok. apply Hok. lia. }
    destruct (IH s1 k) as (s' & Hrun & Hsent' & Hcalls' & Hclock' & Hposting').
    + cbn [length] in Hk. lia.
    + intros j Hj. rewrite Hcalls.
      replace (S (irc_calls s) + j)%nat with (irc_calls s + S j)%nat by lia.
      apply Hok. lia.
    + rewrite Hcalls.
      by replace (S (irc_calls s) + k)%nat with (irc_calls s + S k)%nat by lia.
    + exists s'. split; [exact Hrun|].
      split; [rewrite Hsent', Hsent; cbn [take map]; by rewrite <- app_assoc|].
      split; [lia|]. split; [lia|]. by eapply BotFacts.posting_trans.
Qed.

(** A change of the feed's slots leaves everything else as it was. *)
Lemma feed_only_rest (s s' : State) :
  feed_only s s' ->
  db s' = db s /\ db_inserts s' = db_inserts s
  /\ outgoing_msg_lock s' = outgoing_msg_lock s /\ clock s' = clock s
  /\ irc_calls s' = irc_calls s /\ irc_sent s' = irc_sent s
  /\ log s' = log s /\ tasks_done s' = tasks_done s
  /\ CHANNEL_LAST_INCOMING_MSG_TIMES s' = CHANNEL_LAST_INCOMING_MSG_TIMES s
  /\ FeedObject.channel (feed s') = FeedObject.channel (feed s)
  /\ FeedObject.name (feed s') = FeedObject.name (feed s).
Proof.
  intros [Hs' (Hchannel & Hname & _)].
  repeat split; try (rewrite Hs'; reflexivity); done.
Qed.

(** The part of the iteration under [try ... finally]: if it finds the
    lock free and ends, it has given the lock back. *)
Lemma batch_gives_lock_back (fuel : nat) (channel : str) (s1 s3 : State)
    (r : outcome unit) :
  outgoing_msg_lock s1 = false ->
  try_finally
    (Bot.idle_gate env fuel channel ;;
     Bot.wait_connected env fuel ;;
     postable <- Feed.postable_entries env ;;
     self <- gets feed ;;
     for_each postable (Bot.post_entry env channel (FeedObject.name self)))
    lock_release s1 = (r, s3) ->
  r <> Diverge ->
  outgoing_msg_lock s3 = false /\ tasks_done s3 = tasks_done s1.
Proof.
  intros Hfree.
  assert (Hinner : forall ri s2,
    (Bot.idle_gate env fuel channel ;;
     Bot.wait_connected env fuel ;;
     postable <- Feed.postable_entries env ;;
     self <- gets feed ;;
     for_each postable (Bot.post_entry env channel (FeedObject.name self))) s1
    = (ri, s2) ->
    ri <> Diverge ->
    outgoing_msg_lock s2 = true /\ tasks_done s2 = tasks_done s1).
  { intros ri s2. unfold bind at 1.
    destruct (Bot.idle_gate env fuel channel s1) as [rg sg] eqn:Hg.
    pose proof (BotFacts.idle_gate_quiet env _ _ _ _ _ Hg)
      as (_ & _ & _ & _ & _ & _ & _ & Htg & _).
    pose proof (idle_gate_lock _ _ _ _ _ Hfree Hg) as Hlg.
    destruct rg as [[]|e|];
      [|intros [= <- <-] _; split; [by apply Hlg | done]|intros [= <- <-]; done].
    specialize (Hlg ltac:(done)).
    unfold bind at 1.
    destruct (Bot.wait_connected env fuel sg) as [rw sw] eqn:Hw.
    pose proof (BotFacts.wait_connected_quiet env _ _ _ _ Hw)
      as (_ & _ & _ & _ & _ & _ & _ & Htw & _).
    pose proof (wait_connected_lock _ _ _ _ Hw) as [Hlw Hrw].
    destruct rw as [[]|e|]; [|by destruct (Hrw e)|intros [= <- <-]; done].
    unfold bind at 1.
    destruct (Feed.postable_entries env sw) as [rp sp] eqn:Hp.
    pose proof (FeedFacts.postable_entries_effect env _ _ _ Hp) as [Hfo _].
    apply feed_only_rest in Hfo as (_ & _ & Hlp & _ & _ & _ & _ & Htp & _).
    destruct rp as [postable|e|];
      [|intros [= <- <-] _; split; congruence|intros [= <- <-]; done].
    unfold bind at 1. unfold gets at 1. cbn beta iota. intros Hloop _.
    apply post_loop_outcome in Hloop as [(_ & _ & _ & Hl2 & _ & _ & Ht2 & _) _].
    split; congruence. }
  unfold try_finally.
  destruct ((Bot.idle_gate env fuel channel ;;
             Bot.wait_connected env fuel ;;
             postable <- Feed.postable_entries env ;;
             self <- gets feed ;;
             for_each postable (Bot.post_entry env channel (FeedObject.name self))) s1)
    as [ri s2] eqn:Hrun.
  specialize (Hinner ri s2 eq_refl).
  unfold lock_release.
  destruct ri as [[]|e|]; [| |intros [= <- <-]; done];
    (destruct Hinner as (Hl2 & Ht); [done|]); rewrite Hl2;
    intros [= <- <-] _; fields; done.
Qed.

(** What is tried in an iteration, up to the [except]. *)
Lemma iteration_body_steady (fuel : nat) (channel : str) (s sb : State)
    (rb : outcome unit) :
  outgoing_msg_lock s = false ->
  (postable <- Feed.postable_entries env ;;
   (if truthy postable then
      try_finally
        (Bot.idle_gate env fuel channel ;;
         Bot.wait_connected env fuel ;;
         postable <- Feed.postable_entries env ;;
         self <- gets feed ;;
         for_each postable (Bot.post_entry env channel (FeedObject.name self)))
        lock_release
    else ret tt) ;;
   unposted <- Feed.unposted_entries env ;;
   if truthy unposted then
     self <- gets feed ;;
     unposted <- Feed.unposted_entries env ;;
     db_insert_posted channel (FeedObject.name self)
                      (map FeedEntry.long_url unposted)
   else ret tt) s = (rb, sb) ->
  rb <> Diverge ->
  outgoing_msg_lock sb = false /\ tasks_done sb = tasks_done s.
Proof.
  intros Hfree.
  unfold bind at 1.
  destruct (Feed.postable_entries env s) as [rp s1] eqn:Hp.
  pose proof (FeedFacts.postable_entries_effect env _ _ _ Hp) as [Hfo _].
  apply feed_only_rest in Hfo as (_ & _ & Hl1 & _ & _ & _ & _ & Ht1 & _).
  destruct rp as [postable|e|];
    [|intros [= <- <-] _; split; congruence|intros [= <- <-]; done].
  unfold bind at 1.
  assert (Hbatch : forall rt s3,
    (if truthy postable then
       try_finally
         (Bot.idle_gate env fuel channel ;;
          Bot.wait_connected env fuel ;;
          postable0 <- Feed.postable_entries env ;;
          self <- gets feed ;;
          for_each postable0 (Bot.post_entry env channel (FeedObject.name self)))
         lock_release
     else ret tt) s1 = (rt, s3) ->
    rt <> Diverge ->
    outgoing_msg_lock s3 = false /\ tasks_done s3 = tasks_done s1).
  { intros rt s3. destruct (truthy postable).
    - apply batch_gives_lock_back. congruence.
    - intros [= <- <-] _. split; congruence. }
  destruct ((if truthy postable then _ else ret tt) s1) as [rt s3] eqn:Hrun.
  specialize (Hbatch rt s3 eq_refl).
  destruct rt as [[]|e|];
    [|intros [= <- <-] _; destruct Hbatch as [H1 H2]; [done | split; congruence]
     |intros [= <- <-]; done].
  destruct Hbatch as [Hl3 Ht3]; [done|].
  unfold bind at 1.
  destruct (Feed.unposted_entries env s3) as [ru s4] eqn:Hu.
  pose proof (FeedFacts.unposted_entries_feed_only env _ _ _ Hu) as Hfo4.
  apply feed_only_rest in Hfo4 as (_ & _ & Hl4 & _ & _ & _ & _ & Ht4 & _).
  destruct ru as [unposted|e|];
    [|intros [= <- <-] _; split; congruence|intros [= <- <-]; done].
  destruct (truthy unposted); [|intros [= <- <-] _; split; congruence].
  unfold bind at 1. unfold gets at 1. cbn beta iota. unfold bind at 1.
  destruct (Feed.unposted_entries env s4) as [ru' s5] eqn:Hu'.
  pose proof (FeedFacts.unposted_entries_feed_only env _ _ _ Hu') as Hfo5.
  apply feed_only_rest in Hfo5 as (_ & _ & Hl5 & _ & _ & _ & _ & Ht5 & _).
  destruct ru' as [unposted'|e|];
    [|intros [= <- <-] _; split; congruence|intros [= <- <-]; done].
  unfold db_insert_posted, modify. intros [= <- <-] _. fields. split; congruence.
Qed.

(** X17. An iteration of [Bot._msg_channel] that finds the
    outgoing-message lock free and ends leaves it free: if it took the
    lock, it has given it back, whether the batch was posted or an
    exception stopped it. If it ends normally it has called [task_done]
    once. It raises only when the sending of the alert for a caught
    exception itself raised; the error has then been logged, and
    [task_done] has not been called. *)
Theorem msg_channel_iteration_ends (fuel : nat) (channel : str) (s s' : State)
    (r : outcome unit) :
  outgoing_msg_lock s = false ->
  Bot._msg_channel_iteration env fuel channel s = (r, s') ->
  r <> Diverge ->
  outgoing_msg_lock s' = false
  /\ (r = Ok tt -> tasks_done s' = S (tasks_done s))
  /\ (forall e, r = Raise e ->
        e = TransportError
        /\ tasks_done s' = tasks_done s
        /\ exists msg, last (log s') = Some (EXCEPTION, msg)).
Proof.
  intros Hfree.
  unfold Bot._msg_channel_iteration. unfold bind at 1. unfold try_except.
  match goal with
  | |- context [match ?body s with _ => _ end] =>
      destruct (body s) as [rb sb] eqn:Hbody
  end.
  pose proof (iteration_body_steady _ _ _ _ _ Hfree Hbody) as Hsteady.
  destruct rb as [[]|exc|].
  - destruct Hsteady as [Hl Ht]; [done|].
    unfold modify. intros [= <- <-] _. fields.
    split; [exact Hl|]. split; [intros _; by rewrite Ht | by intros e [=]].
  - destruct Hsteady as [Hl Ht]; [done|].
    unfold _alert, log_at, irc_msg. FeedFacts.mstep. fields.
    destruct (irc_ok env (irc_calls sb)).
    + intros [= <- <-] _. fields.
      split; [exact Hl|]. split; [intros _; by rewrite Ht | by intros e [=]].
    + intros [= <- <-] _. fields.
      split; [exact Hl|]. split; [by intros [=]|].
      intros e [= <-]. split; [done|]. split; [exact Ht|].
      eexists. apply last_snoc.
  - intros [= <- <-]. done.
Qed.

(** X18. A feed with nothing to post costs the channel nothing: when
    [postable_entries] is empty the iteration does not take the lock, does
    not wait for the channel to be idle or for the client to be connected,
    hands nothing to the IRC client and logs no warning and no error,
    whatever the lock, the clock and the fuel are. It still records every
    unposted entry (a new feed under a cap of zero), and makes no call to
    [insert_posted] when none is unposted. *)
Theorem msg_channel_nothing_postable (fuel : nat) (channel : str) (s s1 : State)
    (unposted : list FeedEntry.t) :
  Feed.postable_entries env s = (Ok [], s1) ->
  FeedObject.unposted_entries_cache (feed s1) = Some unposted ->
  exists s',
    Bot._msg_channel_iteration env fuel channel s = (Ok tt, s')
    /\ irc_calls s' = irc_calls s /\ irc_sent s' = irc_sent s
    /\ clock s' = clock s /\ outgoing_msg_lock s' = outgoing_msg_lock s
    /\ warnings s' = warnings s
    /\ tasks_done s' = S (tasks_done s)
    /\ (unposted = [] -> db s' = db s /\ db_inserts s' = db_inserts s)
    /\ (unposted <> [] ->
        db_inserts s'
        = db_inserts s ++ [(channel, FeedObject.name (feed s),
                            map FeedEntry.long_url unposted)]
        /\ db s' = Database.insert_posted (db s) channel (FeedObject.name (feed s))
                     (map FeedEntry.long_url unposted)).
Proof.
  intros Hp Hslot.
  pose proof (FeedFacts.postable_entries_effect env _ _ _ Hp) as [Hfo _].
  apply feed_only_rest in Hfo
    as (Hdb & Hins & Hlock & Hclock & Hcalls & Hsent & Hlog & Htasks & _ & _ & Hname).
  unfold Bot._msg_channel_iteration. unfold bind at 1. unfold try_except.
  unfold bind at 1. rewrite Hp. cbn [truthy]. unfold bind at 1. unfold ret at 1.
  unfold bind at 1.
  rewrite (FeedFacts.unposted_entries_cached env s1 unposted Hslot).
  unfold warnings.
  destruct unposted as [|entry unposted]; cbn [truthy].
  - unfold ret, modify. eexists. split; [reflexivity|]. fields.
    repeat split; congruence.
  - unfold bind at 1. unfold gets at 1. cbn beta iota. unfold bind at 1.
    rewrite (FeedFacts.unposted_entries_cached env s1 _ Hslot).
    unfold db_insert_posted, modify. eexists. split; [reflexivity|]. fields.
    repeat split; try congruence; try done.
Qed.

(** X19. A channel without a last-message time stops the batch before
    anything is sent to it: the gate takes the lock, the lookup raises
    [KeyError] of the channel, the lock is given back, and the exception is
    logged and sent to the alerts channel as the error of this feed. No
    entry is recorded as posted. *)
Theorem msg_channel_no_last_message_time (fuel : nat) (channel : str)
    (s s1 : State) (postable : list FeedEntry.t) :
  Feed.postable_entries env s = (Ok postable, s1) ->
  postable <> [] ->
  (1 <= fuel)%nat ->
  outgoing_msg_lock s = false ->
  CHANNEL_LAST_INCOMING_MSG_TIMES s !! channel = None ->
  let error :=
    ErrorProcessing (FeedObject.channel (feed s)) (FeedObject.name (feed s))
                    (KeyError channel) in
  exists r s',
    Bot._msg_channel_iteration env fuel channel s = (r, s')
    /\ db s' = db s /\ db_inserts s' = db_inserts s
    /\ outgoing_msg_lock s' = false /\ clock s' = clock s
    /\ log s' = log s ++ [(EXCEPTION, error)]
    /\ (irc_ok env (irc_calls s) = true ->
        r = Ok tt
        /\ irc_sent s'
           = irc_sent s
             ++ [(Config.alerts_channel (Config.INSTANCE (config env)), error)])
    /\ (irc_ok env (irc_calls s) = false ->
        r = Raise TransportError /\ irc_sent s' = irc_sent s).
Proof.
  intros Hp Hne Hfuel Hlock Hlast error.
  pose proof (FeedFacts.postable_entries_effect env _ _ _ Hp) as [Hfo _].
  apply feed_only_rest in Hfo
    as (Hdb & Hins & Hlock1 & Hclock & Hcalls & Hsent & Hlog & Htasks & Htimes
        & Hchannel & Hname).
  unfold Bot._msg_channel_iteration. unfold bind at 1. unfold try_except.
  unfold bind at 1. rewrite Hp.
  destruct postable as [|entry postable]; [done|]. cbn [truthy].
  unfold bind at 1. unfold try_finally. unfold bind at 1.
  destruct fuel as [|fuel]; [lia|]. cbn [Bot.idle_gate].
  unfold lock_acquire_nonblocking, lock_release. FeedFacts.mstep.
  rewrite Hlock1, Hlock. FeedFacts.mstep. fields.
  rewrite Htimes, Hlast. FeedFacts.mstep. fields.
  unfold _alert, log_at, irc_msg. FeedFacts.mstep. fields.
  rewrite Hcalls, Hchannel, Hname. fold error.
  destruct (irc_ok env (irc_calls s)); eexists _, _; (split; [reflexivity|]); fields;
    repeat split; try congruence; try done.
Qed.

End WithEnv.

Section Handlers.

Context (env : Env).

Let instance : Config.Instance := Config.INSTANCE (config env).

(** X21. A message to a configured channel restarts the idle wait of the
    channel as spelled in the message, and of no other: the handler sets
    that channel's last-message time to the clock and changes nothing else,
    and a gate passed after it opens no earlier than
    [config.MIN_CHANNEL_IDLE_TIME] after the message. *)
Theorem privmsg_restarts_idle_wait (hostmask : str * str * str) (channel : str)
    (args : list str) (s : State) :
  Lib.casefold (lib env) channel ∈ Config.channels_casefold instance ->
  exists s1,
    Bot._handle_privmsg env hostmask (channel :: args) s = (Ok tt, s1)
    /\ s1 = set_CHANNEL_LAST_INCOMING_MSG_TIMES (CHANNEL_LAST_INCOMING_MSG_TIMES s1) s
    /\ CHANNEL_LAST_INCOMING_MSG_TIMES s1 !! channel = Some (clock s)
    /\ (forall other, other <> channel ->
          CHANNEL_LAST_INCOMING_MSG_TIMES s1 !! other
          = CHANNEL_LAST_INCOMING_MSG_TIMES s !! other)
    /\ (forall fuel s2,
          Bot.idle_gate env fuel channel s1 = (Ok tt, s2) ->
          clock s + Config.MIN_CHANNEL_IDLE_TIME (config env) <= clock s2).
Proof.
  intros Hin. unfold Bot._handle_privmsg. fold instance.
  rewrite (bool_decide_eq_true_2 _ Hin). cbn [negb].
  unfold monotonic. FeedFacts.mstep.
  eexists. split; [reflexivity|]. fields.
  split; [reflexivity|]. split; [apply lookup_insert_eq|].
  split; [intros other Hother; by apply lookup_insert_ne|].
  intros fuel s2 Hgate.
  apply idle_gate_exit in Hgate as (last & Hlast & _ & ->).
  revert Hlast. fields. rewrite lookup_insert_eq. intros [= <-].
  unfold gate_exit. fields. lia.
Qed.

(** X22. A message that is not for a configured channel never touches the
    channels' last-message times, the join events, the store, the lock or
    the clock. If it is not for the bot's nick either, or its last argument
    does not start with a colon, the handler's assertion fails and nothing
    has changed. A CTCP VERSION probe is ignored in silence; any other
    private message is logged as a warning and reported to the alerts
    channel. *)
Theorem privmsg_private_message (user ident hostname channel : str)
    (args : list str) (s s' : State) (r : outcome unit) :
  Lib.casefold (lib env) channel ∉ Config.channels_casefold instance ->
  Bot._handle_privmsg env (user, ident, hostname) (channel :: args) s = (r, s') ->
  let version := [1%N] ++ of_string "VERSION" ++ [1%N] in
  (CHANNEL_LAST_INCOMING_MSG_TIMES s' = CHANNEL_LAST_INCOMING_MSG_TIMES s
   /\ CHANNEL_JOIN_EVENTS s' = CHANNEL_JOIN_EVENTS s
   /\ db s' = db s /\ outgoing_msg_lock s' = outgoing_msg_lock s
   /\ clock s' = clock s)
  /\ (Lib.casefold (lib env) channel <> Config.nick_casefold instance ->
      r = Raise AssertionError /\ s' = s)
  /\ (Lib.casefold (lib env) channel = Config.nick_casefold instance ->
      (forall msg, last (channel :: args) <> Some (58%N :: msg)) ->
      r = Raise AssertionError /\ s' = s)
  /\ (Lib.casefold (lib env) channel = Config.nick_casefold instance ->
      last (channel :: args) = Some (58%N :: version) ->
      r = Ok tt /\ s' = s)
  /\ (forall msg,
        Lib.casefold (lib env) channel = Config.nick_casefold instance ->
        last (channel :: args) = Some (58%N :: msg) ->
        msg <> version ->
        log s' = log s ++ [(WARNING, IgnoredPrivmsg user ident hostname msg)]
        /\ irc_calls s' = S (irc_calls s)
        /\ (irc_ok env (irc_calls s) = true ->
            r = Ok tt
            /\ irc_sent s'
               = irc_sent s ++ [(Config.alerts_channel instance,
                                 IgnoredPrivmsg user ident hostname msg)])
        /\ (irc_ok env (irc_calls s) = false ->
            r = Raise TransportError /\ irc_sent s' = irc_sent s)).
Proof.
  intros Hout Hrun version. revert Hrun. unfold Bot._handle_privmsg. fold instance.
  rewrite (bool_decide_eq_false_2 _ Hout). cbn [negb].
  case_bool_decide as Hnick; cbn [negb].
  2:{ intros [= <- <-]. repeat split; done. }
  destruct (last (channel :: args)) as [line|] eqn:Hlast;
    cbv [default from_option id]; change (of_string ":") with [58%N].
  2:{ cbn [startswith negb]. intros [= <- <-]. repeat split; done. }
  destruct line as [|c msg]; cbn [startswith].
  { cbn [negb]. intros [= <- <-].
    split; [done|]. split; [done|]. split; [done|].
    split; [by intros _ [=]|]. by intros msg _ [=]. }
  rewrite andb_true_r.
  destruct (58 =? c)%N eqn:Hc; cbn [negb].
  2:{ apply N.eqb_neq in Hc. intros [= <- <-].
      split; [done|]. split; [done|]. split; [done|].
      split; [intros _ [= Hc' _]; done|]. intros msg' _ [= Hc' _]. done. }
  apply N.eqb_eq in Hc. subst c. cbn [drop].
  case_bool_decide as Hversion; cbn [negb].
  - intros [= <- <-]. split; [done|]. split; [done|].
    split; [intros _ Hno; by destruct (Hno msg)|].
    split; [done|]. intros msg' _ [= <-] Hne. done.
  - unfold _alert, log_at, irc_msg. FeedFacts.mstep. fields. fold instance.
    destruct (irc_ok env (irc_calls s)) eqn:Hok; intros [= <- <-]; fields;
      (split; [done|]); (split; [done|]);
      (split; [intros _ Hno; by destruct (Hno msg)|]);
      (split; [intros _ [= ->]; done|]);
      intros msg' _ [= <-] _; repeat split; done.
Qed.


End Handlers.


(** The batch theorem on five sample entries when the third send raises:
    two lines out, three calls. *)
Lemma batch_stops_at_first_failure_witness :
  let fc := Samples.feed_config 2 false None in
  let e := Samples.env fc (fun n => negb (n =? 2)%nat) in
  let s := Samples.state 2000 (Samples.feed_object fc 900 Samples.entries12) in
  exists s',
    for_each (take 5 Samples.entries12)
             (Bot.post_entry e (of_string "#news") (of_string "planet")) s
    = (Raise TransportError, s')
    /\ length (irc_sent s') = 2%nat
    /\ irc_calls s' = 3%nat.
Proof.
  intros fc e s.
  destruct (batch_stops_at_first_failure e (of_string "#news") (of_string "planet")
              (take 5 Samples.entries12) s 2)
    as (s' & Hrun & Hsent & Hcalls & _).
  - simpl. lia.
  - intros [|[|j]] Hj; [reflexivity | reflexivity | lia].
  - reflexivity.
  - exists s'. split; [exact Hrun|]. split; [by rewrite Hsent | exact Hcalls].
Defined.

(** The iteration theorem on the sample feed when the third send raises:
    the exception is caught, the alert goes out, the lock is free again and
    the task is done. *)
Lemma msg_channel_iteration_ends_witness :
  let fc := Samples.feed_config 2 false None in
  let e := Samples.env fc (fun n => negb (n =? 2)%nat) in
  let s := Samples.state 2000 (Samples.feed_object fc 900 Samples.entries12) in
  exists s',
    Bot._msg_channel_iteration e 2 (of_string "#news") s = (Ok tt, s')
    /\ outgoing_msg_lock s' = false
    /\ tasks_done s' = 1%nat.
Proof.
  intros fc e s.
  set (run := Bot._msg_channel_iteration e 2 (of_string "#news") s).
  assert (Hrun : run = (Ok tt, run.2)) by (vm_compute; reflexivity).
  destruct (msg_channel_iteration_ends e 2 _ s _ _ eq_refl Hrun ltac:(discriminate))
    as (Hlock & Hdone & _).
  exists run.2. split; [exact Hrun|]. split; [exact Hlock | exact (Hdone eq_refl)].
Defined.

(** The theorem on a new feed under the tag ["none"], whose cap is zero,
    with the lock held elsewhere and no fuel at all: nothing is sent, and
    the twelve unposted entries are recorded in one call. *)
Lemma msg_channel_nothing_postable_witness :
  let fc := Config.mkFeedConfig
              (Some [of_string "http://example.org/feed"])
              (Some 2) (Some (of_string "none")) (Some false) None None None
              None None None None None in
  let e := Samples.env fc (fun _ => true) in
  let s := set_outgoing_msg_lock true
             (Samples.state 2000 (Samples.feed_object fc 900 Samples.entries12)) in
  exists s',
    Bot._msg_channel_iteration e 0 (of_string "#news") s = (Ok tt, s')
    /\ irc_sent s' = []
    /\ outgoing_msg_lock s' = true
    /\ db_inserts s'
       = [(of_string "#news", of_string "planet",
           map FeedEntry.long_url Samples.entries12)].
Proof.
  intros fc e s.
  destruct (msg_channel_nothing_postable e 0 (of_string "#news") s
              (cache_postable [] (cache_unposted Samples.entries12 s))
              Samples.entries12)
    as (s' & Hrun & _ & Hsent & _ & Hlock & _ & _ & _ & Hrecorded).
  - vm_compute. reflexivity.
  - reflexivity.
  - exists s'. split; [exact Hrun|]. split; [exact Hsent|]. split; [exact Hlock|].
    by destruct (Hrecorded ltac:(discriminate)) as [Hins _].
Defined.

(** The theorem on the sample feed when no message or join has been seen
    on [#news]: the error goes to the alerts channel and nothing to [#news]. *)
Lemma msg_channel_no_last_message_time_witness :
  let fc := Samples.feed_config 2 false None in
  let e := Samples.env fc (fun _ => true) in
  let s := set_CHANNEL_LAST_INCOMING_MSG_TIMES ∅
             (Samples.state 2000 (Samples.feed_object fc 900 Samples.entries12)) in
  exists s',
    Bot._msg_channel_iteration e 2 (of_string "#news") s = (Ok tt, s')
    /\ irc_sent s'
       = [(of_string "#alerts",
           ErrorProcessing (of_string "#news") (of_string "planet")
                           (KeyError (of_string "#news")))]
    /\ db_inserts s' = []
    /\ outgoing_msg_lock s' = false.
Proof.
  intros fc e s.
  destruct (msg_channel_no_last_message_time e 2 (of_string "#news") s
              (cache_postable (take 5 Samples.entries12)
                 (cache_unposted Samples.entries12 s))
              (take 5 Samples.entries12))
    as (r & s' & Hrun & _ & Hins & Hlock & _ & _ & Hok & _).
  - vm_compute. reflexivity.
  - discriminate.
  - lia.
  - reflexivity.
  - reflexivity.
  - destruct (Hok eq_refl) as [-> Hsent].
    exists s'. split; [exact Hrun|]. split; [exact Hsent|].
    split; [exact Hins | exact Hlock].
Defined.

(** The theorem on a message to [#news] at clock 2000: its last-message
    time becomes 2000 and that of [#alerts] stays 100. *)
Lemma privmsg_restarts_idle_wait_witness :
  let fc := Samples.feed_config 2 false None in
  let e := Samples.env fc (fun _ => true) in
  let s := Samples.state 2000 (Samples.feed_object fc 900 []) in
  let hostmask := (of_string "alice", of_string "~alice", of_string "example.org") in
  exists s1,
    Bot._handle_privmsg e hostmask [of_string "#news"; of_string ":hello"] s
    = (Ok tt, s1)
    /\ CHANNEL_LAST_INCOMING_MSG_TIMES s1 !! of_string "#news" = Some 2000
    /\ CHANNEL_LAST_INCOMING_MSG_TIMES s1 !! of_string "#alerts" = Some 100.
Proof.
  intros fc e s hostmask.
  destruct (privmsg_restarts_idle_wait e hostmask (of_string "#news")
              [of_string ":hello"] s)
    as (s1 & Hrun & _ & Hnew & Hother & _).
  - refine (bool_decide_unpack _ _). vm_compute. exact I.
  - exists s1. split; [exact Hrun|]. split; [exact Hnew|].
    rewrite Hother; [reflexivity | discriminate].
Defined.

(** The theorem on the CTCP VERSION probe a network service sends to the
    bot: ignored, with nothing changed. *)
Lemma privmsg_private_message_witness :
  let fc := Samples.feed_config 2 false None in
  let e := Samples.env fc (fun _ => true) in
  let s := Samples.state 2000 (Samples.feed_object fc 900 []) in
  let probe := 58%N :: [1%N] ++ of_string "VERSION" ++ [1%N] in
  Bot._handle_privmsg e
    (of_string "freenode-connect", of_string "frigg",
     of_string "freenode/utility-bot/frigg")
    [of_string "feedbot"; probe] s
  = (Ok tt, s)
  /\ Lib.casefold (lib e) (of_string "feedbot")
     = Config.nick_casefold (Config.INSTANCE (config e)).
Proof.
  intros fc e s probe.
  set (run := Bot._handle_privmsg e
                (of_string "freenode-connect", of_string "frigg",
                 of_string "freenode/utility-bot/frigg")
                [of_string "feedbot"; probe] s).
  assert (Hrun : run = (run.1, run.2)) by (by destruct run).
  assert (Hout : Lib.casefold (lib e) (of_string "feedbot")
                 ∉ Config.channels_casefold (Config.INSTANCE (config e))).
  { refine (bool_decide_unpack _ _). vm_compute. exact I. }
  destruct (privmsg_private_message e _ _ _ _ _ _ _ _ Hout Hrun)
    as (_ & _ & _ & Hversion & _).
  destruct (Hversion eq_refl eq_refl) as [Hr Hs].
  split; [|reflexivity]. rewrite Hrun. by rewrite Hr, Hs.
Defined.


End MessengerFacts.

(* ===================================================================== *)
(** * bot.py: setting up the channels and starting a messenger *)
(* ===================================================================== *)

Module SetupFacts.

Import PyStr Py Machine Effects Frames.

(** Counting one feed. *)
Lemma count_group_lookup (parties : gmap str nat) (feed_config : Config.FeedConfig)
    (group : str) :
  group <> [] ->
  default 0%nat (Bot.count_group parties feed_config !! group)
  = (default 0%nat (parties !! group)
     + if in_group group feed_config then 1 else 0)%nat.
Proof.
  intros Hne. unfold Bot.count_group, in_group.
  destruct (Config.group feed_config) as [[|c g]|] eqn:Hg.
  - rewrite bool_decide_eq_false_2; [lia | congruence].
  - destruct (decide (c :: g = group)) as [<-|Hother].
    + rewrite lookup_insert_eq, bool_decide_eq_true_2 by done. reflexivity.
    + rewrite lookup_insert_ne by done.
      rewrite bool_decide_eq_false_2; [lia | congruence].
  - rewrite bool_decide_eq_false_2; [lia | congruence].
Qed.

Lemma count_group_positive (parties : gmap str nat) (feed_config : Config.FeedConfig) :
  (forall group n, parties !! group = Some n -> (0 < n)%nat) ->
  forall group n,
    Bot.count_group parties feed_config !! group = Some n -> (0 < n)%nat.
Proof.
  intros Hpos group n. unfold Bot.count_group.
  destruct (Config.group feed_config) as [[|c g]|]; try apply Hpos.
  destruct (decide (c :: g = group)) as [<-|Hother].
  - rewrite lookup_insert_eq. intros [= <-]. lia.
  - rewrite lookup_insert_ne by done. apply Hpos.
Qed.

Lemma count_groups_lookup (feed_configs : list Config.FeedConfig)
    (parties : gmap str nat) (group : str) :
  group <> [] ->
  default 0%nat (fold_left Bot.count_group feed_configs parties !! group)
  = (default 0%nat (parties !! group)
     + length (List.filter (in_group group) feed_configs))%nat.
Proof.
  intros Hne. revert parties.
  induction feed_configs as [|fc l IH]; intros parties; cbn [fold_left List.filter].
  - cbn. lia.
  - rewrite IH, count_group_lookup by done.
    destruct (in_group group fc); cbn [length]; lia.
Qed.

Lemma count_groups_positive (feed_configs : list Config.FeedConfig)
    (parties : gmap str nat) :
  (forall group n, parties !! group = Some n -> (0 < n)%nat) ->
  forall group n,
    fold_left Bot.count_group feed_configs parties !! group = Some n -> (0 < n)%nat.
Proof.
  revert parties. induction feed_configs as [|fc l IH]; intros parties Hpos; [done|].
  cbn [fold_left]. apply IH. by apply count_group_positive.
Qed.

Lemma count_groups_no_empty_group (feed_configs : list Config.FeedConfig)
    (parties : gmap str nat) :
  parties !! [] = None ->
  fold_left Bot.count_group feed_configs parties !! [] = None.
Proof.
  revert parties. induction feed_configs as [|fc l IH]; intros parties Hnone; [done|].
  cbn [fold_left]. apply IH. unfold Bot.count_group.
  destruct (Config.group fc) as [[|c g]|]; try done.
  by rewrite lookup_insert_ne.
Qed.

Section WithEnv.

Context (env : Env).

Let instance : Config.Instance := Config.INSTANCE (config env).

(** The two loops of [_setup_channels] run through all configured feeds. *)
Lemma barriers_parties_flat :
  Bot.barriers_parties env = fold_left Bot.count_group (configured_feeds env) ∅.
Proof.
  unfold Bot.barriers_parties, configured_feeds.
  generalize (∅ : gmap str nat).
  induction (map_to_list (Config.feeds (Config.INSTANCE (config env))))
    as [|channel_item channels IH]; intros parties; [reflexivity|].
  cbn [fold_left flat_map]. rewrite fold_left_app, IH. f_equal.
  generalize parties.
  induction (map_to_list channel_item.2) as [|feed_item feeds IHf];
    intros parties0; [reflexivity|].
  cbn [fold_left map]. apply IHf.
Qed.

(** X25. The barriers [Bot._setup_channels] creates: a group gets a barrier
    exactly when some configured feed names it, and the barrier is made for
    as many parties as there are feeds, over all channels, that name the
    group; so every feed with a group finds the barrier it waits at, and
    the barrier can fill up. *)
Theorem barriers_count_group_feeds :
  (forall group,
     group <> [] ->
     let n := length (List.filter (in_group group) (configured_feeds env)) in
     Bot.barriers_parties env !! group = if (n =? 0)%nat then None else Some n)
  /\ Bot.barriers_parties env !! [] = None
  /\ (forall channel channel_config name feed_config group,
        Config.feeds instance !! channel = Some channel_config ->
        channel_config !! name = Some feed_config ->
        Config.group feed_config = Some group ->
        group <> [] ->
        exists n, Bot.barriers_parties env !! group = Some n /\ (1 <= n)%nat).
Proof.
  assert (Hcount : forall group,
    group <> [] ->
    let n := length (List.filter (in_group group) (configured_feeds env)) in
    Bot.barriers_parties env !! group = if (n =? 0)%nat then None else Some n).
  { intros group Hne n. rewrite barriers_parties_flat.
    pose proof (count_groups_lookup (configured_feeds env) ∅ group Hne) as Hn.
    rewrite lookup_empty in Hn. cbn [default] in Hn. fold n in Hn.
    pose proof (count_groups_positive (configured_feeds env) ∅) as Hpos.
    destruct (fold_left Bot.count_group (configured_feeds env) ∅ !! group)
      as [m|] eqn:Hm.
    - assert (Hmn : default 0%nat (Some m) = (0 + n)%nat) by (rewrite <- Hm; exact Hn).
      cbv [default from_option id] in Hmn.
      apply Hpos in Hm; [|by intros g k Hk; rewrite lookup_empty in Hk].
      replace m with n by lia. destruct n; [lia | reflexivity].
    - assert (Hmn : default 0%nat (@None nat) = (0 + n)%nat)
        by (rewrite <- Hm; exact Hn).
      cbv [default from_option id] in Hmn. by replace n with 0%nat by lia. }
  split; [exact Hcount|]. split.
  - rewrite barriers_parties_flat. apply count_groups_no_empty_group.
    apply lookup_empty.
  - intros channel channel_config name feed_config group Hchannel Hname Hgroup Hne.
    specialize (Hcount group Hne). cbv zeta in Hcount.
    assert (Hin : feed_config ∈ List.filter (in_group group) (configured_feeds env)).
    { apply list_elem_of_In, filter_In. split.
      - unfold configured_feeds. apply in_flat_map.
        exists (channel, channel_config). split.
        + apply list_elem_of_In, elem_of_map_to_list. exact Hchannel.
        + apply in_map_iff. exists (name, feed_config). split; [done|].
          apply list_elem_of_In, elem_of_map_to_list. exact Hname.
      - unfold in_group. by apply bool_decide_eq_true_2. }
    destruct (List.filter (in_group group) (configured_feeds env)) as [|x l] eqn:Hl.
    + by apply elem_of_nil in Hin.
    + cbn [length Nat.eqb] in Hcount. eexists. split; [exact Hcount | lia].
Qed.

(** X24. A channel messenger starts when, and only when, both joins have
    been handled. After [Bot._setup_channels], the messenger of a
    configured channel finds its queue, which has room for twice the
    number of the channel's feeds, and then waits: it is still waiting when
    only the join of its own channel has been handled, and it starts once
    the join of the alerts channel has been handled as well. By then the
    channel has a last-message time, that of the join. *)
Theorem messenger_starts_after_both_joins
    (channel ident hostname : str) (s : State)
    (channel_config alerts_config : gmap str Config.FeedConfig) :
  let alerts_channel := Config.alerts_channel instance in
  let hostmask := (Config.nick instance, ident, hostname) in
  Config.feeds instance !! channel = Some channel_config ->
  Config.feeds instance !! alerts_channel = Some alerts_config ->
  Lib.casefold (lib env) channel ∈ Config.channels_casefold instance ->
  Lib.casefold (lib env) alerts_channel ∈ Config.channels_casefold instance ->
  exists s1 s2 s3,
    Bot._setup_channels env s = (Ok tt, s1)
    /\ Bot._msg_channel_start env (Bot.channel_queues env) channel s1 = (Diverge, s1)
    /\ Bot._handle_join env hostmask [channel] s1 = (Ok tt, s2)
    /\ (channel <> alerts_channel ->
        Bot._msg_channel_start env (Bot.channel_queues env) channel s2
        = (Diverge, s2))
    /\ Bot._handle_join env hostmask [alerts_channel] s2 = (Ok tt, s3)
    /\ Bot._msg_channel_start env (Bot.channel_queues env) channel s3
       = (Ok (size channel_config * 2)%nat, s3)
    /\ CHANNEL_LAST_INCOMING_MSG_TIMES s3 !! channel = Some (clock s).
Proof.
  intros alerts_channel hostmask Hchannel Halerts Hin Hin_alerts.
  assert (Hqueue : Bot.channel_queues env !! channel
                   = Some (size channel_config * 2)%nat).
  { unfold Bot.channel_queues. fold instance. by rewrite lookup_fmap, Hchannel. }
  set (s1 := set_CHANNEL_JOIN_EVENTS ((fun _ => false) <$> Config.feeds instance) s).
  assert (Hev1 : CHANNEL_JOIN_EVENTS s1 !! channel = Some false).
  { subst s1. cbn. by rewrite lookup_fmap, Hchannel. }
  pose proof (BotFacts.handle_join_known env ident hostname channel [] s1 false
                Hin Hev1) as Hjoin1.
  set (s2 := set_CHANNEL_LAST_INCOMING_MSG_TIMES _ _) in Hjoin1.
  assert (Hev2 : exists event, CHANNEL_JOIN_EVENTS s2 !! alerts_channel = Some event
                   /\ (channel <> alerts_channel -> event = false)).
  { subst s2 s1. cbn. destruct (decide (channel = alerts_channel)) as [->|Hne].
    - exists true. by rewrite lookup_insert_eq.
    - exists false. by rewrite lookup_insert_ne, lookup_fmap, Halerts. }
  destruct Hev2 as (event & Hev2 & Hevent).
  pose proof (BotFacts.handle_join_known env ident hostname alerts_channel [] s2 event
                Hin_alerts Hev2) as Hjoin2.
  set (s3 := set_CHANNEL_LAST_INCOMING_MSG_TIMES _ _) in Hjoin2.
  exists s1, s2, s3.
  split; [reflexivity|].
  split.
  { unfold Bot._msg_channel_start, Bot.join_event_wait. FeedFacts.mstep.
    by rewrite Hqueue, Hev1. }
  split; [exact Hjoin1|].
  split.
  { intros Hne. unfold Bot._msg_channel_start, Bot.join_event_wait. FeedFacts.mstep.
    rewrite Hqueue. fold instance. fold alerts_channel.
    replace (CHANNEL_JOIN_EVENTS s2 !! channel) with (Some true)
      by (subst s2; cbn; by rewrite lookup_insert_eq).
    by rewrite Hev2, (Hevent Hne). }
  split; [exact Hjoin2|].
  split.
  { assert (Hev3a : CHANNEL_JOIN_EVENTS s3 !! alerts_channel = Some true)
      by (subst s3; cbn; by rewrite lookup_insert_eq).
    assert (Hev3c : CHANNEL_JOIN_EVENTS s3 !! channel = Some true).
    { subst s3 s2. cbn. destruct (decide (alerts_channel = channel)) as [->|Hne].
      - by rewrite lookup_insert_eq.
      - by rewrite lookup_insert_ne, lookup_insert_eq. }
    unfold Bot._msg_channel_start, Bot.join_event_wait. FeedFacts.mstep.
    rewrite Hqueue. fold instance. fold alerts_channel.
    rewrite Hev3c. cbn beta iota. rewrite Hev3a. reflexivity. }
  subst s3 s2 s1. cbn. destruct (decide (alerts_channel = channel)) as [->|Hne].
  - by rewrite lookup_insert_eq.
  - by rewrite lookup_insert_ne, lookup_insert_eq.
Qed.

End WithEnv.

(** The start-up theorem on the sample deployment: the messenger of [#news]
    starts after the joins of [#news] and [#alerts], with a queue for two
    feeds. *)
Lemma messenger_starts_after_both_joins_witness :
  let fc := Samples.feed_config 2 false None in
  let e := Samples.env fc (fun _ => true) in
  let s := Samples.state 2000 (Samples.feed_object fc 900 []) in
  let hostmask :=
    (of_string "feedbot", of_string "~feedbot", of_string "example.org") in
  exists s1 s2 s3,
    Bot._setup_channels e s = (Ok tt, s1)
    /\ Bot._handle_join e hostmask [of_string "#news"] s1 = (Ok tt, s2)
    /\ Bot._msg_channel_start e (Bot.channel_queues e) (of_string "#news") s2
       = (Diverge, s2)
    /\ Bot._handle_join e hostmask [of_string "#alerts"] s2 = (Ok tt, s3)
    /\ Bot._msg_channel_start e (Bot.channel_queues e) (of_string "#news") s3
       = (Ok 2%nat, s3).
Proof.
  intros fc e s hostmask.
  destruct (messenger_starts_after_both_joins e (of_string "#news")
              (of_string "~feedbot") (of_string "example.org") s
              {[ of_string "planet" := fc ]} ∅)
    as (s1 & s2 & s3 & Hsetup & _ & Hjoin1 & Hwait & Hjoin2 & Hstart & _).
  - vm_compute. reflexivity.
  - vm_compute. reflexivity.
  - refine (bool_decide_unpack _ _). vm_compute. exact I.
  - refine (bool_decide_unpack _ _). vm_compute. exact I.
  - exists s1, s2, s3. split; [exact Hsetup|]. split; [exact Hjoin1|].
    split; [apply Hwait; discriminate|]. split; [exact Hjoin2|].
    rewrite Hstart. reflexivity.
Defined.

End SetupFacts.

(* ===================================================================== *)
(** * bot.py: what an iteration records, and two more frames *)
(* ===================================================================== *)

Module RecordFacts.

Import PyStr Py Machine Effects Frames.

Section WithEnv.

Context (env : Env).

Let instance : Config.Instance := Config.INSTANCE (config env).

(** The part of the iteration under [try ... finally] leaves the store and
    the name of the held feed alone. *)
Lemma batch_keeps_store (fuel : nat) (channel : str) (s1 s3 : State)
    (r : outcome unit) :
  try_finally
    (Bot.idle_gate env fuel channel ;;
     Bot.wait_connected env fuel ;;
     postable <- Feed.postable_entries env ;;
     self <- gets feed ;;
     for_each postable (Bot.post_entry env channel (FeedObject.name self)))
    lock_release s1 = (r, s3) ->
  db s3 = db s1 /\ db_inserts s3 = db_inserts s1
  /\ FeedObject.name (feed s3) = FeedObject.name (feed s1).
Proof.
  assert (Hinner : forall ri s2,
    (Bot.idle_gate env fuel channel ;;
     Bot.wait_connected env fuel ;;
     postable <- Feed.postable_entries env ;;
     self <- gets feed ;;
     for_each postable (Bot.post_entry env channel (FeedObject.name self))) s1
    = (ri, s2) ->
    db s2 = db s1 /\ db_inserts s2 = db_inserts s1
    /\ FeedObject.name (feed s2) = FeedObject.name (feed s1)).
  { intros ri s2. unfold bind at 1.
    destruct (Bot.idle_gate env fuel channel s1) as [rg sg] eqn:Hg.
    pose proof (BotFacts.idle_gate_quiet env _ _ _ _ _ Hg) as (Hdg & Hig & Hfg & _).
    destruct rg as [[]|e|]; [|intros [= <- <-]; by rewrite Hfg ..].
    unfold bind at 1.
    destruct (Bot.wait_connected env fuel sg) as [rw sw] eqn:Hw.
    pose proof (BotFacts.wait_connected_quiet env _ _ _ _ Hw) as (Hdw & Hiw & Hfw & _).
    destruct rw as [[]|e|];
      [|intros [= <- <-]; rewrite Hfw, Hfg; repeat split; congruence ..].
    unfold bind at 1.
    destruct (Feed.postable_entries env sw) as [rp sp] eqn:Hp.
    pose proof (FeedFacts.postable_entries_effect env _ _ _ Hp) as [Hfo _].
    apply MessengerFacts.feed_only_rest in Hfo
      as (Hdp & Hip & _ & _ & _ & _ & _ & _ & _ & _ & Hnp).
    destruct rp as [postable|e|];
      [|intros [= <- <-]; rewrite Hnp, Hfw, Hfg; repeat split; congruence ..].
    unfold bind at 1. unfold gets at 1. cbn beta iota. intros Hloop.
    apply MessengerFacts.post_loop_outcome in Hloop as [(Hd2 & Hi2 & Hf2 & _) _].
    rewrite Hf2, Hnp, Hfw, Hfg. repeat split; congruence. }
  unfold try_finally.
  destruct ((Bot.idle_gate env fuel channel ;;
             Bot.wait_connected env fuel ;;
             postable <- Feed.postable_entries env ;;
             self <- gets feed ;;
             for_each postable (Bot.post_entry env channel (FeedObject.name self))) s1)
    as [ri s2] eqn:Hrun.
  destruct (Hinner ri s2 eq_refl) as (Hd & Hi & Hn).
  unfold lock_release.
  destruct ri as [[]|e|]; [| |by intros [= <- <-]];
    destruct (outgoing_msg_lock s2); intros [= <- <-]; done.
Qed.

(** What is tried in an iteration either leaves the store alone or ends
    normally in the one call of [insert_posted]. *)
Lemma iteration_body_store (fuel : nat) (channel : str) (s sb : State)
    (rb : outcome unit) :
  (postable <- Feed.postable_entries env ;;
   (if truthy postable then
      try_finally
        (Bot.idle_gate env fuel channel ;;
         Bot.wait_connected env fuel ;;
         postable <- Feed.postable_entries env ;;
         self <- gets feed ;;
         for_each postable (Bot.post_entry env channel (FeedObject.name self)))
        lock_release
    else ret tt) ;;
   unposted <- Feed.unposted_entries env ;;
   if truthy unposted then
     self <- gets feed ;;
     unposted <- Feed.unposted_entries env ;;
     db_insert_posted channel (FeedObject.name self)
                      (map FeedEntry.long_url unposted)
   else ret tt) s = (rb, sb) ->
  (db sb = db s /\ db_inserts sb = db_inserts s)
  \/ (rb = Ok tt
      /\ exists unposted,
           FeedObject.unposted_entries_cache (feed sb) = Some unposted
           /\ db_inserts sb
              = db_inserts s ++ [(channel, FeedObject.name (feed s),
                                  map FeedEntry.long_url unposted)]
           /\ db sb = Database.insert_posted (db s) channel (FeedObject.name (feed s))
                        (map FeedEntry.long_url unposted)).
Proof.
  unfold bind at 1.
  destruct (Feed.postable_entries env s) as [rp s1] eqn:Hp.
  pose proof (FeedFacts.postable_entries_effect env _ _ _ Hp) as [Hfo _].
  apply MessengerFacts.feed_only_rest in Hfo
    as (Hd1 & Hi1 & _ & _ & _ & _ & _ & _ & _ & _ & Hn1).
  destruct rp as [postable|e|]; [|intros [= <- <-]; by left ..].
  unfold bind at 1.
  assert (Hbatch : forall rt s3,
    (if truthy postable then
       try_finally
         (Bot.idle_gate env fuel channel ;;
          Bot.wait_connected env fuel ;;
          postable0 <- Feed.postable_entries env ;;
          self <- gets feed ;;
          for_each postable0 (Bot.post_entry env channel (FeedObject.name self)))
         lock_release
     else ret tt) s1 = (rt, s3) ->
    db s3 = db s1 /\ db_inserts s3 = db_inserts s1
    /\ FeedObject.name (feed s3) = FeedObject.name (feed s1)).
  { intros rt s3. destruct (truthy postable).
    - apply batch_keeps_store.
    - by intros [= <- <-]. }
  destruct ((if truthy postable then _ else ret tt) s1) as [rt s3] eqn:Hrun.
  destruct (Hbatch rt s3 eq_refl) as (Hd3 & Hi3 & Hn3).
  destruct rt as [[]|e|]; [|intros [= <- <-]; left; split; congruence ..].
  unfold bind at 1.
  destruct (Feed.unposted_entries env s3) as [ru s4] eqn:Hu.
  pose proof (FeedFacts.unposted_entries_feed_only env _ _ _ Hu) as Hfo4.
  apply MessengerFacts.feed_only_rest in Hfo4
    as (Hd4 & Hi4 & _ & _ & _ & _ & _ & _ & _ & _ & Hn4).
  destruct ru as [unposted|e|]; [|intros [= <- <-]; left; split; congruence ..].
  destruct (truthy unposted); [|intros [= <- <-]; left; split; congruence].
  unfold bind at 1. unfold gets at 1. cbn beta iota. unfold bind at 1.
  destruct (Feed.unposted_entries env s4) as [ru' s5] eqn:Hu'.
  pose proof (FeedFacts.unposted_entries_feed_only env _ _ _ Hu') as Hfo5.
  apply MessengerFacts.feed_only_rest in Hfo5
    as (Hd5 & Hi5 & _ & _ & _ & _ & _ & _ & _ & _ & Hn5).
  destruct ru' as [unposted'|e|]; [|intros [= <- <-]; left; split; congruence ..].
  pose proof (PropertyFacts.unposted_entries_caches env _ _ _ Hu') as Hslot.
  unfold db_insert_posted, modify. intros [= <- <-]. right.
  split; [done|]. exists unposted'. MessengerFacts.fields.
  split; [exact Hslot|].
  rewrite Hd5, Hd4, Hd3, Hd1, Hi5, Hi4, Hi3, Hi1, Hn4, Hn3, Hn1. done.
Qed.

(** X28. An iteration of [Bot._msg_channel] records all or nothing,
    however it ends. Either the store is as it was and [insert_posted] was
    not called; or the iteration ended normally and called [insert_posted]
    once, with the [long_url] of every unposted entry of the feed, and
    from then on no feed object of this channel and feed name offers any of
    these URLs as unposted again, under either dedup strategy. *)
Theorem iteration_records_all_or_nothing (fuel : nat) (channel : str)
    (s s' : State) (r : outcome unit) :
  Bot._msg_channel_iteration env fuel channel s = (r, s') ->
  (db s' = db s /\ db_inserts s' = db_inserts s)
  \/ (r = Ok tt
      /\ exists unposted,
           FeedObject.unposted_entries_cache (feed s') = Some unposted
           /\ db_inserts s'
              = db_inserts s ++ [(channel, FeedObject.name (feed s),
                                  map FeedEntry.long_url unposted)]
           /\ db s' = Database.insert_posted (db s) channel (FeedObject.name (feed s))
                        (map FeedEntry.long_url unposted)
           /\ forall held entry,
                FeedObject.channel held = channel ->
                FeedObject.name held = FeedObject.name (feed s) ->
                entry ∈ unposted_list env (set_feed held s') ->
                FeedEntry.long_url entry ∉ map FeedEntry.long_url unposted).
Proof.
  unfold Bot._msg_channel_iteration. unfold bind at 1. unfold try_except.
  match goal with
  | |- context [match ?body s with _ => _ end] =>
      destruct (body s) as [rb sb] eqn:Hbody
  end.
  apply iteration_body_store in Hbody
    as [[Hdb Hins]|(-> & unposted & Hslot & Hins & Hdb)].
  - destruct rb as [[]|exc|].
    + unfold modify. intros [= <- <-]. by left.
    + unfold _alert, log_at, irc_msg. FeedFacts.mstep. MessengerFacts.fields.
      destruct (irc_ok env (irc_calls sb)); intros [= <- <-]; by left.
    + intros [= <- <-]. by left.
  - unfold modify. intros [= <- <-]. right. split; [done|].
    exists unposted. MessengerFacts.fields.
    split; [exact Hslot|]. split; [exact Hins|]. split; [exact Hdb|].
    intros held entry Hchannel Hname Hin Hrecorded.
    assert (Hrow : (channel, FeedObject.name (feed s), FeedEntry.long_url entry)
                   ∈ db sb).
    { rewrite Hdb. by apply BotFacts.insert_posted_elem. }
    apply list_elem_of_In, filter_In in Hin as [_ Hin].
    apply bool_decide_eq_true_1 in Hin. revert Hin.
    unfold selected_urls. MessengerFacts.fields. rewrite Hchannel, Hname.
    case_bool_decide.
    + unfold Database.select_unposted_for_channel.
      intros [Hall _]%list_elem_of_filter. by apply (Hall _ Hrow).
    + unfold Database.select_unposted_for_channel_feed.
      intros [Hnone _]%list_elem_of_filter. done.
Qed.

(** X27. When the wait for the IRC client ends, the client is connected:
    the messenger has slept five seconds as many times as it found the
    client disconnected, and not once more, and has changed nothing but the
    clock. *)
Theorem wait_connected_exits_connected (fuel : nat) (s s' : State) :
  Bot.wait_connected env fuel s = (Ok tt, s') ->
  reconnect_at env <= clock s'
  /\ quiet s s'
  /\ outgoing_msg_lock s' = outgoing_msg_lock s
  /\ exists k : nat,
       clock s' = clock s + 5 * Z.of_nat k
       /\ (k < fuel)%nat
       /\ forall j : nat, (j < k)%nat -> clock s + 5 * Z.of_nat j < reconnect_at env.
Proof.
  intros Hrun.
  pose proof (BotFacts.wait_connected_quiet env _ _ _ _ Hrun) as Hquiet.
  pose proof (MessengerFacts.wait_connected_lock env _ _ _ _ Hrun) as [Hlock _].
  cut (reconnect_at env <= clock s'
       /\ exists k : nat,
            clock s' = clock s + 5 * Z.of_nat k
            /\ (k < fuel)%nat
            /\ forall j : nat, (j < k)%nat ->
                               clock s + 5 * Z.of_nat j < reconnect_at env).
  { intros [H1 H2]. done. }
  clear Hquiet Hlock. revert s Hrun.
  induction fuel as [|fuel IH]; intros s; cbn [Bot.wait_connected]; [done|].
  unfold irc_connected, sleep. FeedFacts.mstep.
  destruct (reconnect_at env <=? clock s) eqn:Hc.
  - apply Z.leb_le in Hc. intros [= <-]. split; [exact Hc|].
    exists 0%nat. split; [lia|]. split; [lia|]. intros j Hj. lia.
  - apply Z.leb_gt in Hc. change (5 <? 0) with false. FeedFacts.mstep.
    intros Hrec. apply IH in Hrec as (Hcon & k & Hclock & Hk & Hbefore).
    revert Hclock Hbefore. MessengerFacts.fields. intros Hclock Hbefore.
    split; [exact Hcon|]. exists (S k). split; [lia|]. split; [lia|].
    intros [|j] Hj; [lia|]. specialize (Hbefore j ltac:(lia)). lia.
Qed.

(** X26. The JOIN handler touches one channel at most: whatever it ends
    in, it leaves the store, the lock, the clock and the client alone, logs
    no warning and no error, and leaves the join event and the last-message
    time of every channel other than the one named in the message as they
    are. It leaves those of all channels as they are when the user is not
    the bot or the channel is not a configured one, and when it raises,
    which it does only with [KeyError] of a channel that
    [CHANNEL_JOIN_EVENTS] does not have under this spelling. *)
Theorem handle_join_touches_one_channel (user ident hostname channel : str)
    (args : list str) (s s' : State) (r : outcome unit) :
  Bot._handle_join env (user, ident, hostname) (channel :: args) s = (r, s') ->
  (db s' = db s /\ db_inserts s' = db_inserts s
   /\ outgoing_msg_lock s' = outgoing_msg_lock s /\ clock s' = clock s
   /\ irc_calls s' = irc_calls s /\ irc_sent s' = irc_sent s
   /\ warnings s' = warnings s /\ feed s' = feed s)
  /\ (forall other,
        other <> channel ->
        CHANNEL_JOIN_EVENTS s' !! other = CHANNEL_JOIN_EVENTS s !! other
        /\ CHANNEL_LAST_INCOMING_MSG_TIMES s' !! other
           = CHANNEL_LAST_INCOMING_MSG_TIMES s !! other)
  /\ (user <> Config.nick instance
      \/ Lib.casefold (lib env) channel ∉ Config.channels_casefold instance ->
      r = Ok tt
      /\ CHANNEL_JOIN_EVENTS s' = CHANNEL_JOIN_EVENTS s
      /\ CHANNEL_LAST_INCOMING_MSG_TIMES s' = CHANNEL_LAST_INCOMING_MSG_TIMES s)
  /\ (forall e,
        r = Raise e ->
        e = KeyError channel
        /\ CHANNEL_JOIN_EVENTS s !! channel = None
        /\ CHANNEL_JOIN_EVENTS s' = CHANNEL_JOIN_EVENTS s
        /\ CHANNEL_LAST_INCOMING_MSG_TIMES s' = CHANNEL_LAST_INCOMING_MSG_TIMES s)
  /\ r <> Diverge.
Proof.
  subst instance. unfold warnings.
  destruct (decide (user = Config.nick (Config.INSTANCE (config env))))
    as [->|Huser].
  2:{ rewrite (BotFacts.handle_join_ignored env user ident hostname channel args s)
        by (by left).
      intros [= <- <-]. repeat split; done. }
  destruct (decide (Lib.casefold (lib env) channel
                    ∈ Config.channels_casefold (Config.INSTANCE (config env))))
    as [Hin|Hout].
  2:{ rewrite (BotFacts.handle_join_ignored env _ ident hostname channel args s)
        by (by right).
      intros [= <- <-]. repeat split; done. }
  destruct (CHANNEL_JOIN_EVENTS s !! channel) as [event|] eqn:Hevent.
  - rewrite (BotFacts.handle_join_known env ident hostname channel args s event
               Hin Hevent).
    intros [= <- <-]. MessengerFacts.fields.
    split; [done|]. split.
    { intros other Hother. by rewrite !lookup_insert_ne. }
    split; [intros [H|H]; done|]. split; [by intros e [=] | done].
  - rewrite (BotFacts.handle_join_other_spelling env ident hostname channel args s
               Hin Hevent).
    intros [= <- <-]. split; [done|]. split; [done|].
    split; [intros [H|H]; done|]. split; [by intros e [= <-] | done].
Qed.

End WithEnv.

(** The recording theorem on scenario S3: five lines are posted, all
    twelve entries are recorded, and a feed object built afterwards from
    the same twelve entries has nothing unposted. *)
Lemma iteration_records_all_or_nothing_witness :
  let fc := Samples.feed_config 2 false None in
  let e := Samples.env fc (fun _ => true) in
  let s := Samples.state 2000 (Samples.feed_object fc 900 Samples.entries12) in
  exists s',
    Bot._msg_channel_iteration e 2 (of_string "#news") s = (Ok tt, s')
    /\ length (db_inserts s') = 1%nat
    /\ forall entry,
         entry ∈ unposted_list e
                   (set_feed (Samples.feed_object fc 900 Samples.entries12) s') ->
         FeedEntry.long_url entry ∉ map FeedEntry.long_url Samples.entries12.
Proof.
  intros fc e s.
  set (run := Bot._msg_channel_iteration e 2 (of_string "#news") s).
  assert (Hrun : run = (Ok tt, run.2)) by (vm_compute; reflexivity).
  assert (Hslot : FeedObject.unposted_entries_cache (feed run.2)
                  = Some Samples.entries12) by (vm_compute; reflexivity).
  destruct (iteration_records_all_or_nothing e 2 _ _ _ _ Hrun)
    as [[_ Hins]|(_ & unposted & Hslot' & Hins & _ & Hposted)].
  - exfalso. apply (f_equal (@length _)) in Hins. vm_compute in Hins. discriminate.
  - exists run.2. split; [exact Hrun|].
    rewrite Hslot in Hslot'. injection Hslot' as <-.
    split; [rewrite Hins; reflexivity|].
    intros entry. by apply Hposted.
Defined.

(** The waiting theorem on a client that is back at clock 2012, asked at
    clock 2000: three sleeps, until 2015. *)
Lemma wait_connected_exits_connected_witness :
  let fc := Samples.feed_config 2 false None in
  let e := mkEnv (Samples.config fc) Samples.lib (fun _ => true) 2012
                 Samples.shortener Samples.web in
  let s := Samples.state 2000 (Samples.feed_object fc 900 []) in
  exists s',
    Bot.wait_connected e 4 s = (Ok tt, s')
    /\ reconnect_at e <= clock s'
    /\ clock s' = 2015.
Proof.
  intros fc e s.
  set (run := Bot.wait_connected e 4 s).
  assert (Hrun : run = (Ok tt, run.2)) by (vm_compute; reflexivity).
  destruct (wait_connected_exits_connected e 4 _ _ Hrun) as (Hcon & _).
  exists run.2. split; [exact Hrun|]. split; [exact Hcon | reflexivity].
Defined.

(** The handler theorem on the join of another user to [#news]: no join
    event is set. *)
Lemma handle_join_touches_one_channel_witness :
  let fc := Samples.feed_config 2 false None in
  let e := Samples.env fc (fun _ => true) in
  let s := set_CHANNEL_JOIN_EVENTS
             {[ of_string "#news" := false; of_string "#alerts" := false ]}
             (Samples.state 2000 (Samples.feed_object fc 900 [])) in
  exists s',
    Bot._handle_join e (of_string "alice", of_string "~alice", of_string "example.org")
                     [of_string "#news"] s
    = (Ok tt, s')
    /\ CHANNEL_JOIN_EVENTS s' !! of_string "#news" = Some false
    /\ of_string "alice" <> Config.nick (Config.INSTANCE (config e)).
Proof.
  intros fc e s.
  set (run := Bot._handle_join e
                (of_string "alice", of_string "~alice", of_string "example.org")
                [of_string "#news"] s).
  assert (Hrun : run = (run.1, run.2)) by (by destruct run).
  assert (Huser : of_string "alice" <> Config.nick (Config.INSTANCE (config e)))
    by discriminate.
  destruct (handle_join_touches_one_channel e _ _ _ _ _ _ _ _ Hrun)
    as (_ & _ & Hignored & _).
  destruct (Hignored (or_introl Huser)) as (Hr & Hevents & _).
  exists run.2. split; [rewrite Hrun; by rewrite Hr|].
  split; [by rewrite Hevents | exact Huser].
Defined.

End RecordFacts.
